(** * The voxel engine: chunk storage, terrain, meshing, scheduler, streamer

    A shallow embedding of the C++ sources under [gdextension/src] and the
    properties of the design document that can be settled on it.

    Conventions of the embedding.
    - [int32_t] values are integers of [Z]; every index and loop counter
      of the modelled code stays far below [2^31] on in-range coordinates,
      so signed arithmetic is written without wrap-around.  The one place
      where the source relies on modular arithmetic, the packing of the
      height-cache key into a [uint64_t], writes the wrap-around out.
    - [VoxelTypeID] is [uint8_t]; block types are only stored and
      compared, never computed with, and are integers in [0, 256).
    - [float] values are exact rationals of [Q]: comparisons and the
      conversion to [int32_t] (truncation toward zero) are exact on
      floats, and rounding of the two arithmetic expressions involved is
      not modelled.
    - [std::unique_ptr<T[]>] is [option (list T)]; [std::unordered_map] is
      stdpp's [gmap]; a read outside an allocated buffer, which has no
      defined behaviour in C++, yields [None]. *)

From Stdlib Require Import ZArith Zdiv QArith Qround Lia Lqa.
From stdpp Require Import base tactics option numbers strings list gmap.

Local Open Scope Z_scope.

(** ** core/voxel_types.h *)

Definition VoxelTypeID := Z.

Definition AIR : VoxelTypeID := 0.
Definition STONE : VoxelTypeID := 1.
Definition DIRT : VoxelTypeID := 2.
Definition GRASS : VoxelTypeID := 3.
Definition SAND : VoxelTypeID := 4.
Definition WATER : VoxelTypeID := 5.
Definition GRAVEL : VoxelTypeID := 6.
Definition WOOD : VoxelTypeID := 7.
Definition LEAVES : VoxelTypeID := 8.
Definition COAL_ORE : VoxelTypeID := 9.
Definition IRON_ORE : VoxelTypeID := 10.
Definition GOLD_ORE : VoxelTypeID := 11.
Definition DIAMOND_ORE : VoxelTypeID := 12.
Definition BEDROCK : VoxelTypeID := 13.
Definition TORCH : VoxelTypeID := 14.
Definition GLASS : VoxelTypeID := 15.

Definition MAX_BLOCK_TYPES : Z := 256.

(** ** core/voxel_data.h: constants and zone helpers *)

Definition CHUNK_SIZE_XZ : Z := 16.
Definition DEEP_VOID_CHUNK_HEIGHT : Z := 32.
Definition DENSE_TERRAIN_CHUNK_HEIGHT : Z := 16.
Definition SKY_CHUNK_HEIGHT : Z := 64.
Definition DEEP_VOID_MAX_Y : Z := -64.
Definition DENSE_TERRAIN_MAX_Y : Z := 180.

Definition get_chunk_height_for_y (world_y : Z) : Z :=
  if world_y <? DEEP_VOID_MAX_Y then DEEP_VOID_CHUNK_HEIGHT
  else if world_y <? DENSE_TERRAIN_MAX_Y then DENSE_TERRAIN_CHUNK_HEIGHT
  else SKY_CHUNK_HEIGHT.

(** C++ integer division truncates toward zero: [Z.quot]. *)
Definition world_y_to_chunk_y (world_y : Z) : Z :=
  let chunk_height := get_chunk_height_for_y world_y in
  world_y ÷ chunk_height.

(** ** Raw arrays

    [arr[i]] on a buffer: a read at a negative index or past the end is
    outside the allocation. *)

Definition array_get {A} (d : list A) (i : Z) : option A :=
  if decide (0 ≤ i) then d !! Z.to_nat i else None.

(** [arr[i] = v].  The callers below only write at indices they have
    bounds-checked; outside the buffer the list is left as it is. *)
Definition array_set {A} (d : list A) (i : Z) (v : A) : list A :=
  if decide (0 ≤ i) then <[Z.to_nat i := v]> d else d.

(** ** core/voxel_data.{h,cpp}: class VoxelData *)

Module VoxelData.

Record t := mk {
  chunk_size_y : Z;
  total_voxels : Z;
  is_uniform : bool;
  uniform_value : VoxelTypeID;
  data : option (list VoxelTypeID)
}.

Definition get_index (vd : t) (x y z : Z) : Z :=
  x + y * CHUNK_SIZE_XZ + z * CHUNK_SIZE_XZ * chunk_size_y vd.

(** [VoxelData(int32_t chunk_y)]; the default constructor is
    [new DENSE_TERRAIN_CHUNK_HEIGHT]. *)
Definition new (chunk_y : Z) : t :=
  {| chunk_size_y := chunk_y;
     total_voxels := CHUNK_SIZE_XZ * CHUNK_SIZE_XZ * chunk_y;
     is_uniform := true;
     uniform_value := AIR;
     data := None |}.

Definition initialize (vd : t) (chunk_y : Z) : t := new chunk_y.

Definition clear (vd : t) : t :=
  {| chunk_size_y := chunk_size_y vd;
     total_voxels := total_voxels vd;
     is_uniform := true;
     uniform_value := AIR;
     data := None |}.

(** The inline accessor of the header: no bounds check.  [None] is a
    read through a null buffer or outside the allocation. *)
Definition get_voxel (vd : t) (x y z : Z) : option VoxelTypeID :=
  if is_uniform vd then Some (uniform_value vd)
  else
    let idx := get_index vd x y z in
    d ← data vd; array_get d idx.

(** The condition of the bounds check, as the source writes it. *)
Definition out_of_bounds (vd : t) (x y z : Z) : bool :=
  (x <? 0) || (x >=? CHUNK_SIZE_XZ) || (y <? 0) || (y >=? chunk_size_y vd)
  || (z <? 0) || (z >=? CHUNK_SIZE_XZ).

Definition set_voxel (vd : t) (x y z : Z) (type : VoxelTypeID) : t :=
  if out_of_bounds vd x y z then vd
  else if is_uniform vd && bool_decide (type = uniform_value vd) then vd
  else
    (* expand a uniform chunk: allocate and memset with the old value *)
    let vd1 :=
      if is_uniform vd then
        let old_value := uniform_value vd in
        {| chunk_size_y := chunk_size_y vd;
           total_voxels := total_voxels vd;
           is_uniform := false;
           uniform_value := uniform_value vd;
           data := Some (replicate (Z.to_nat (total_voxels vd)) old_value) |}
      else vd in
    let idx := get_index vd1 x y z in
    {| chunk_size_y := chunk_size_y vd1;
       total_voxels := total_voxels vd1;
       is_uniform := is_uniform vd1;
       uniform_value := uniform_value vd1;
       data := (λ d, array_set d idx type) <$> data vd1 |}.

Definition fill (vd : t) (type : VoxelTypeID) : t :=
  {| chunk_size_y := chunk_size_y vd;
     total_voxels := total_voxels vd;
     is_uniform := true;
     uniform_value := type;
     data := None |}.

(** The scan of [check_and_optimize_uniform]:
    [for (i = i0; i < total_voxels; i++) if (data[i] != first_value) return false;]
    run for [n] iterations from [i]. *)
Fixpoint scan_uniform (d : list VoxelTypeID) (first_value : VoxelTypeID)
    (i : Z) (n : nat) : bool :=
  match n with
  | O => true
  | S n' =>
      if bool_decide (array_get d i = Some first_value)
      then scan_uniform d first_value (i + 1) n'
      else false
  end.

(** Returns the result and the storage after the call.  A dense
    storage always has [total_voxels > 0] cells, so [data[0]] exists;
    on an empty buffer the read has no defined behaviour and the model
    answers [false] without a change. *)
Definition check_and_optimize_uniform (vd : t) : bool * t :=
  if is_uniform vd then (true, vd)
  else
    match data vd with
    | None =>
        (true, {| chunk_size_y := chunk_size_y vd;
                  total_voxels := total_voxels vd;
                  is_uniform := true;
                  uniform_value := AIR;
                  data := None |})
    | Some d =>
        match array_get d 0 with
        | None => (false, vd)
        | Some first_value =>
            if scan_uniform d first_value 1 (Z.to_nat (total_voxels vd - 1))
            then (true, {| chunk_size_y := chunk_size_y vd;
                           total_voxels := total_voxels vd;
                           is_uniform := true;
                           uniform_value := first_value;
                           data := None |})
            else (false, vd)
        end
    end.

(** [sizeof(VoxelTypeID)] is 1. *)
Definition get_memory_usage (vd : t) : Z :=
  if is_uniform vd then 1 else total_voxels vd * 1.

(** The methods bound for scripts. *)
Definition _get_voxel (vd : t) (x y z : Z) : option Z :=
  if out_of_bounds vd x y z then Some AIR else get_voxel vd x y z.

Definition _set_voxel (vd : t) (x y z : Z) (type : Z) : t :=
  if (type >=? 0) && (type <? MAX_BLOCK_TYPES) then set_voxel vd x y z type
  else vd.

Definition _fill (vd : t) (type : Z) : t :=
  if (type >=? 0) && (type <? MAX_BLOCK_TYPES) then fill vd type else vd.

(** *** Coordinates and the representation invariant *)

Definition in_bounds (vd : t) (x y z : Z) : Prop :=
  0 ≤ x < CHUNK_SIZE_XZ ∧ 0 ≤ y < chunk_size_y vd ∧ 0 ≤ z < CHUNK_SIZE_XZ.

(** Either uniform with no buffer, or dense with a buffer of
    [total_voxels = 16 * 16 * chunk_size_y] cells. *)
Definition wf (vd : t) : Prop :=
  total_voxels vd = CHUNK_SIZE_XZ * CHUNK_SIZE_XZ * chunk_size_y vd ∧
  ((is_uniform vd = true ∧ data vd = None) ∨
   (is_uniform vd = false ∧ 0 < chunk_size_y vd ∧
    ∃ d, data vd = Some d ∧ Z.of_nat (length d) = total_voxels vd)).

(** Every in-bounds cell holds one common value. *)
Definition all_cells_equal (vd : t) : Prop :=
  ∃ v, ∀ x y z, in_bounds vd x y z → get_voxel vd x y z = Some v.

(** A sequence of writes [(x, y, z, type)], applied left to right. *)
Definition set_voxels (vd : t) (ws : list (Z * Z * Z * VoxelTypeID)) : t :=
  foldl (λ acc w, let '(x, y, z, type) := w in set_voxel acc x y z type) vd ws.

End VoxelData.

(** ** Values of the host engine

    [Vector3i] is a triple of [int32_t], [Vector3] a triple of [float],
    [Color] four [float] components.  [Ref<T>] is [option T], [None]
    being the null reference. *)

Definition Vector3i : Type := Z * Z * Z.

Definition v3i_x (v : Vector3i) : Z := v.1.1.
Definition v3i_y (v : Vector3i) : Z := v.1.2.
Definition v3i_z (v : Vector3i) : Z := v.2.

Record Vector3 := mkVector3 { v3_x : Q; v3_y : Q; v3_z : Q }.

Definition v3_add (a b : Vector3) : Vector3 :=
  mkVector3 (v3_x a + v3_x b)%Q (v3_y a + v3_y b)%Q (v3_z a + v3_z b)%Q.

Record Color := mkColor { col_r : Q; col_g : Q; col_b : Q; col_a : Q }.

(** [Color(r, g, b)] has alpha 1. *)
Definition Color3 (r g b : Q) : Color := mkColor r g b 1%Q.

(** The one surface of an [ArrayMesh] built by [add_surface_from_arrays]. *)
Record ArrayMesh := mkArrayMesh {
  am_vertices : list Vector3;
  am_normals : list Vector3;
  am_uvs : list (Q * Q);
  am_colors : list Color;
  am_indices : list Z
}.

Record MeshInstance3D := mkMeshInstance3D {
  mi_mesh : ArrayMesh;
  mi_position : Vector3
}.

(** [static_cast<int32_t>(f)] truncates toward zero. *)
Definition Qtrunc (q : Q) : Z := Qnum q ÷ Z.pos (Qden q).

(** [a < b] on floats. *)
Definition Qltb (a b : Q) : bool := negb (Qle_bool b a).

(** ** core/voxel_types.{h,cpp}: the block registry *)

Record BlockProperties := mkBlockProperties {
  bp_name : string;
  bp_color : Color;
  bp_hardness : Q;
  bp_is_transparent : bool;
  bp_is_solid : bool;
  bp_light_emission : Z
}.

(** [BlockProperties()]: the "unknown" block, magenta. *)
Definition default_props : BlockProperties :=
  mkBlockProperties "unknown" (Color3 1 0 1) 1 false true 0.

Module VoxelTypeRegistry.

Record t := mk { properties : gmap Z BlockProperties }.

Definition register_block (r : t) (type_id : VoxelTypeID)
    (props : BlockProperties) : t :=
  {| properties := <[type_id := props]> (properties r) |}.

Definition get_properties (r : t) (type_id : VoxelTypeID) : BlockProperties :=
  match properties r !! type_id with
  | Some p => p
  | None => default_props
  end.

Definition is_transparent (r : t) (type_id : VoxelTypeID) : bool :=
  bp_is_transparent (get_properties r type_id).

Definition is_solid (r : t) (type_id : VoxelTypeID) : bool :=
  bp_is_solid (get_properties r type_id).

Definition get_color (r : t) (type_id : VoxelTypeID) : Color :=
  bp_color (get_properties r type_id).

Definition initialize_default_blocks (r : t) : t :=
  let r := register_block r AIR
    (mkBlockProperties "Air" (mkColor 0 0 0 0) 0 true false 0) in
  let r := register_block r STONE
    (mkBlockProperties "Stone" (Color3 (1#2) (1#2) (1#2)) (3#2) false true 0) in
  let r := register_block r DIRT
    (mkBlockProperties "Dirt" (Color3 (11#20) (7#20) (1#5)) (1#2) false true 0) in
  let r := register_block r GRASS
    (mkBlockProperties "Grass" (Color3 (1#5) (4#5) (1#5)) (3#5) false true 0) in
  let r := register_block r SAND
    (mkBlockProperties "Sand" (Color3 (9#10) (17#20) (3#5)) (1#2) false true 0) in
  let r := register_block r WATER
    (mkBlockProperties "Water" (mkColor (1#5) (2#5) (9#10) (3#5)) 100 true false 0) in
  let r := register_block r GRAVEL
    (mkBlockProperties "Gravel" (Color3 (3#5) (3#5) (13#20)) (3#5) false true 0) in
  let r := register_block r WOOD
    (mkBlockProperties "Wood" (Color3 (2#5) (1#4) (1#10)) 2 false true 0) in
  let r := register_block r LEAVES
    (mkBlockProperties "Leaves" (Color3 (3#20) (3#5) (3#20)) (1#5) true true 0) in
  let r := register_block r COAL_ORE
    (mkBlockProperties "Coal Ore" (Color3 (1#5) (1#5) (1#5)) 3 false true 0) in
  let r := register_block r IRON_ORE
    (mkBlockProperties "Iron Ore" (Color3 (7#10) (3#5) (1#2)) 3 false true 0) in
  let r := register_block r GOLD_ORE
    (mkBlockProperties "Gold Ore" (Color3 (9#10) (4#5) (1#5)) 3 false true 0) in
  let r := register_block r DIAMOND_ORE
    (mkBlockProperties "Diamond Ore" (Color3 (3#10) (4#5) (9#10)) 3 false true 0) in
  let r := register_block r BEDROCK
    (mkBlockProperties "Bedrock" (Color3 (1#10) (1#10) (1#10)) (-1) false true 0) in
  let r := register_block r TORCH
    (mkBlockProperties "Torch" (Color3 1 (9#10) (1#2)) 0 true false 14) in
  register_block r GLASS
    (mkBlockProperties "Glass" (mkColor (4#5) (9#10) 1 (3#10)) (3#10) true true 0).

Definition new : t := initialize_default_blocks {| properties := ∅ |}.

End VoxelTypeRegistry.

(** ** core/chunk.{h,cpp}: class Chunk

    The six raw neighbour pointers, the cached arrays for region batching
    and the memory counter play no part in what follows and are left
    out. *)

Inductive ChunkState := INACTIVE | GENERATING | MESHING | ACTIVE | UNLOADING.

Module Chunk.

Record t := mk {
  position : Vector3i;
  world_position : Vector3;
  voxel_data : option VoxelData.t;
  state : ChunkState;
  mesh : option ArrayMesh;
  mesh_dirty : bool
}.

(** [Chunk()] *)
Definition new : t :=
  {| position := (0, 0, 0);
     world_position := mkVector3 0 0 0;
     voxel_data := None;
     state := INACTIVE;
     mesh := None;
     mesh_dirty := true |}.

Definition initialize (c : t) (pos : Vector3i) (chunk_height : Z) : t :=
  {| position := pos;
     world_position :=
       mkVector3 (inject_Z (v3i_x pos * CHUNK_SIZE_XZ))
                 (inject_Z (v3i_y pos * chunk_height))
                 (inject_Z (v3i_z pos * CHUNK_SIZE_XZ));
     voxel_data := Some (VoxelData.new chunk_height);
     state := INACTIVE;
     mesh := mesh c;
     mesh_dirty := true |}.

Definition set_state (c : t) (new_state : ChunkState) : t :=
  {| position := position c; world_position := world_position c;
     voxel_data := voxel_data c; state := new_state;
     mesh := mesh c; mesh_dirty := mesh_dirty c |}.

Definition set_voxel_data (c : t) (vd : VoxelData.t) : t :=
  {| position := position c; world_position := world_position c;
     voxel_data := Some vd; state := state c;
     mesh := mesh c; mesh_dirty := mesh_dirty c |}.

Definition get_voxel (c : t) (x y z : Z) : option VoxelTypeID :=
  match voxel_data c with
  | None => Some AIR
  | Some vd => VoxelData.get_voxel vd x y z
  end.

Definition set_voxel (c : t) (x y z : Z) (type : VoxelTypeID) : t :=
  match voxel_data c with
  | Some vd =>
      {| position := position c; world_position := world_position c;
         voxel_data := Some (VoxelData.set_voxel vd x y z type);
         state := state c; mesh := mesh c; mesh_dirty := true |}
  | None => c
  end.

Definition fill (c : t) (type : VoxelTypeID) : t :=
  match voxel_data c with
  | Some vd =>
      {| position := position c; world_position := world_position c;
         voxel_data := Some (VoxelData.fill vd type);
         state := state c; mesh := mesh c; mesh_dirty := true |}
  | None => c
  end.

Definition set_mesh (c : t) (new_mesh : option ArrayMesh) : t :=
  {| position := position c; world_position := world_position c;
     voxel_data := voxel_data c; state := state c;
     mesh := new_mesh; mesh_dirty := false |}.

Definition mark_mesh_dirty (c : t) : t :=
  {| position := position c; world_position := world_position c;
     voxel_data := voxel_data c; state := state c;
     mesh := mesh c; mesh_dirty := true |}.

End Chunk.

(** ** systems/terrain_generator.{h,cpp}: class TerrainGenerator *)

Record TerrainParams := mkTerrainParams {
  base_height : Z;
  max_height_variation : Z;
  noise_frequency : Q;
  seed : Z;
  mountain_threshold : Q;
  beach_threshold : Q;
  water_level : Q
}.

(** The member initialisers of [struct TerrainParams]. *)
Definition default_params : TerrainParams :=
  mkTerrainParams 64 24 (1#100) 12345 (3#5) (-3#10) 64.

(** The configuration of the noise object; its sampling function is the
    external primitive [get_noise_2d], a parameter of the generator. *)
Record FastNoiseLite := mkFastNoiseLite {
  fnl_frequency : Q;
  fnl_seed : Z
}.

(** [static_cast<uint64_t>(v)] of an [int32_t]: the value modulo [2^64],
    which sign-extends a negative [v]. *)
Definition to_uint64 (v : Z) : Z := v mod 2 ^ 64.

Module TerrainGenerator.

Record t := mk {
  noise : FastNoiseLite;
  params : TerrainParams;
  height_cache : gmap Z Q
}.

(** [(static_cast<uint64_t>(wx) << 32) | static_cast<uint64_t>(wz)],
    the shift being taken modulo [2^64]. *)
Definition make_cache_key (wx wz : Z) : Z :=
  Z.lor (Z.shiftl (to_uint64 wx) 32 mod 2 ^ 64) (to_uint64 wz).

Definition set_cache (g : t) (c : gmap Z Q) : t :=
  {| noise := noise g; params := params g; height_cache := c |}.

Definition clear_cache (g : t) : t := set_cache g ∅.

(** [TerrainGenerator()] *)
Definition new : t :=
  {| noise := mkFastNoiseLite (noise_frequency default_params) (seed default_params);
     params := default_params;
     height_cache := ∅ |}.

Definition initialize (g : t) (s : Z) : t :=
  let p := params g in
  clear_cache
    {| noise := mkFastNoiseLite (fnl_frequency (noise g)) s;
       params := mkTerrainParams (base_height p) (max_height_variation p)
                   (noise_frequency p) s (mountain_threshold p)
                   (beach_threshold p) (water_level p);
       height_cache := height_cache g |}.

Definition set_params (g : t) (p : TerrainParams) : t :=
  clear_cache
    {| noise := mkFastNoiseLite (noise_frequency p) (seed p);
       params := p;
       height_cache := height_cache g |}.

Definition get_surface_block (g : t) (height noise_value : Q) : VoxelTypeID :=
  let p := params g in
  if Qltb (mountain_threshold p) noise_value then
    if Qltb (inject_Z (base_height p + 15)) height then STONE else GRAVEL
  else if Qltb noise_value (beach_threshold p) then SAND
  else if Qltb (water_level p) height then GRASS
  else SAND.

(** The body of the innermost loop of [generate_chunk]: the block type
    chosen for world height [wy] in a column of the given height. *)
Definition voxel_type_at (g : t) (height noise_value : Q) (wy : Z) : VoxelTypeID :=
  if Qltb (inject_Z wy) height then
    if Qltb (inject_Z wy) (height - 4)%Q then STONE else DIRT
  else if wy =? Qtrunc height then get_surface_block g height noise_value
  else if Qltb (inject_Z wy) (water_level (params g)) then WATER
  else AIR.

(** The columns sampled by the coarse pass:
    [for (i = 0; i < CHUNK_SIZE_XZ; i += 4)]. *)
Definition coarse_samples : list Z := [0; 4; 8; 12].

Section WithNoise.

Variable get_noise_2d : FastNoiseLite → Z → Z → Q.

(** Returns the height and the generator with its cache after the
    call (the mutex is not modelled: calls are taken one at a time). *)
Definition get_height_at (g : t) (world_x world_z : Z) : Q * t :=
  let key := make_cache_key world_x world_z in
  match height_cache g !! key with
  | Some height => (height, g)
  | None =>
      let noise_value := get_noise_2d (noise g) world_x world_z in
      let height :=
        (inject_Z (base_height (params g))
         + noise_value * inject_Z (max_height_variation (params g)))%Q in
      (height, set_cache g (<[key := height]> (height_cache g)))
  end.

(** The height the design assigns to a column:
    [base_height + noise2d(wx, wz) * max_height_variation]. *)
Definition computed_height (g : t) (wx wz : Z) : Q :=
  (inject_Z (base_height (params g))
   + get_noise_2d (noise g) wx wz
     * inject_Z (max_height_variation (params g)))%Q.

(** The body of the coarse pass, for the sampled column [(x, z)]: the
    generator and the flags [all_above_terrain], [all_below_terrain]
    after it. *)
Definition coarse_sample (world_x_base world_z_base : Z)
    (chunk_world_y_base chunk_world_y_max : Z)
    (st : t * bool * bool) (z x : Z) : t * bool * bool :=
  let '(g, all_above_terrain, all_below_terrain) := st in
  let wx := world_x_base + x in
  let wz := world_z_base + z in
  let '(height, g) := get_height_at g wx wz in
  (g,
   if Qle_bool (inject_Z chunk_world_y_base) height
   then false else all_above_terrain,
   if Qle_bool height (inject_Z (chunk_world_y_max - 1))
   then false else all_below_terrain).

(** The coarse pass over the sampled columns. *)
Definition coarse_pass (g : t) (world_x_base world_z_base : Z)
    (chunk_world_y_base chunk_world_y_max : Z) : t * bool * bool :=
  foldl (λ st z,
    foldl (λ st x,
      coarse_sample world_x_base world_z_base
        chunk_world_y_base chunk_world_y_max st z x)
      st coarse_samples)
    (g, true, true) coarse_samples.

(** The body of the [y] loop: the write, if any, for the cell at
    height [y] of column [(x, z)]. *)
Definition generate_cell (g : t) (x z : Z) (chunk_world_y_base : Z)
    (height noise_value : Q) (voxel_data : VoxelData.t) (y : Z) : VoxelData.t :=
  let wy := chunk_world_y_base + y in
  let voxel_type := voxel_type_at g height noise_value wy in
  if bool_decide (voxel_type ≠ AIR)
  then VoxelData.set_voxel voxel_data x y z voxel_type
  else voxel_data.

(** The [y] loop for one column. *)
Definition generate_column (g : t) (voxel_data : VoxelData.t)
    (x z : Z) (chunk_world_y_base : Z) (height noise_value : Q) : VoxelData.t :=
  foldl (generate_cell g x z chunk_world_y_base height noise_value)
    voxel_data (seqZ 0 (VoxelData.chunk_size_y voxel_data)).

(** The body of the [x] loop: height and noise of the column, then its
    cells. *)
Definition generate_column_at (world_x_base world_z_base chunk_world_y_base : Z)
    (st : t * VoxelData.t) (z x : Z) : t * VoxelData.t :=
  let '(g, vd) := st in
  let wx := world_x_base + x in
  let wz := world_z_base + z in
  let '(height, g) := get_height_at g wx wz in
  let noise_value := get_noise_2d (noise g) wx wz in
  (g, generate_column g vd x z chunk_world_y_base height noise_value).

(** The [z], [x] loops over all columns. *)
Definition generate_voxels (g : t) (voxel_data : VoxelData.t)
    (world_x_base world_z_base chunk_world_y_base : Z) : t * VoxelData.t :=
  foldl (λ st z,
    foldl (λ st x,
      generate_column_at world_x_base world_z_base chunk_world_y_base st z x)
      st (seqZ 0 CHUNK_SIZE_XZ))
    (g, voxel_data) (seqZ 0 CHUNK_SIZE_XZ).

(** [generate_chunk] on a non-null chunk: the generator and the chunk
    after the call. *)
Definition generate_chunk (g : t) (chunk : Chunk.t) : t * Chunk.t :=
  match Chunk.voxel_data chunk with
  | None => (g, chunk)
  | Some voxel_data =>
      let chunk_pos := Chunk.position chunk in
      let chunk_size_y := VoxelData.chunk_size_y voxel_data in
      let chunk_world_y_base := v3i_y chunk_pos * chunk_size_y in
      let chunk_world_y_max := chunk_world_y_base + chunk_size_y in
      let world_x_base := v3i_x chunk_pos * CHUNK_SIZE_XZ in
      let world_z_base := v3i_z chunk_pos * CHUNK_SIZE_XZ in
      let '(g1, all_above_terrain, all_below_terrain) :=
        coarse_pass g world_x_base world_z_base
          chunk_world_y_base chunk_world_y_max in
      if all_above_terrain then
        (g1, Chunk.set_state
               (Chunk.set_voxel_data chunk (VoxelData.fill voxel_data AIR))
               ACTIVE)
      else
        let '(g2, vd2) :=
          generate_voxels g1 voxel_data world_x_base world_z_base
            chunk_world_y_base in
        let vd3 := (VoxelData.check_and_optimize_uniform vd2).2 in
        (g2, Chunk.set_state (Chunk.set_voxel_data chunk vd3) ACTIVE)
  end.

End WithNoise.

End TerrainGenerator.

(** ** util/thread_pool.{h,cpp}: class ThreadPool

    The pool as the submitting thread sees it: the queue, the counters
    and the stop flag.  [Task] stands for [std::function<void()>]. *)

Inductive JobType := GENERATE_TERRAIN | BUILD_MESH | BUILD_REGION_MESH.

Record Job (Task : Type) := mkJob {
  job_type : JobType;
  job_task : Task;
  job_priority : Z
}.
Arguments mkJob {Task} _ _ _.
Arguments job_type {Task} _.
Arguments job_task {Task} _.
Arguments job_priority {Task} _.

Module ThreadPool.

Section WithTask.

Context {Task : Type}.

(** [job_queue] lists the content of the [std::priority_queue], most
    recently emplaced first; [semaphore] counts the posts not yet
    consumed by a worker. *)
Record t := mk {
  num_threads : Z;
  job_queue : list (Job Task);
  semaphore : Z;
  should_stop : bool;
  active_jobs : Z;
  pending_jobs : Z;
  max_pending_jobs : Z
}.

(** [ThreadPool()] *)
Definition new : t :=
  {| num_threads := 0; job_queue := []; semaphore := 0;
     should_stop := false; active_jobs := 0; pending_jobs := 0;
     max_pending_jobs := 1000 |}.

Definition set_max_pending_jobs (p : t) (max : Z) : t :=
  {| num_threads := num_threads p; job_queue := job_queue p;
     semaphore := semaphore p; should_stop := should_stop p;
     active_jobs := active_jobs p; pending_jobs := pending_jobs p;
     max_pending_jobs := max |}.

Definition get_pending_job_count (p : t) : Z := pending_jobs p.

(** The result and the pool after the call. *)
Definition submit_job (p : t) (type : JobType) (task : Task)
    (priority : Z) : bool * t :=
  if should_stop p then (false, p)
  else if pending_jobs p >=? max_pending_jobs p then (false, p)
  else
    (true,
     {| num_threads := num_threads p;
        job_queue := mkJob type task priority :: job_queue p;
        semaphore := semaphore p + 1;
        should_stop := should_stop p;
        active_jobs := active_jobs p;
        pending_jobs := pending_jobs p + 1;
        max_pending_jobs := max_pending_jobs p |}).

(** [shutdown], as the caller finds the pool once the workers are
    joined.  [consumed] is the number of permits the leaving workers
    took from the semaphore.  On a pool without threads the call
    returns at once.  What the workers popped while the call waited for
    them no longer shows: the queue is emptied at the end.  The counter
    of running jobs is written by the workers only. *)
Definition shutdown (p : t) (consumed : Z) : t :=
  if num_threads p =? 0 then p
  else
    {| num_threads := 0;
       job_queue := [];
       semaphore := semaphore p + Z.max 0 (num_threads p) - consumed;
       should_stop := true;
       active_jobs := active_jobs p;
       pending_jobs := 0;
       max_pending_jobs := max_pending_jobs p |}.

(** [initialize]: a pool that has threads is shut down first; the
    workers started have taken nothing yet. *)
Definition initialize (p : t) (threads consumed : Z) : t :=
  let p := if num_threads p >? 0 then shutdown p consumed else p in
  {| num_threads := threads;
     job_queue := job_queue p;
     semaphore := semaphore p;
     should_stop := false;
     active_jobs := active_jobs p;
     pending_jobs := pending_jobs p;
     max_pending_jobs := max_pending_jobs p |}.

(** The calls of the thread that owns the pool. *)
Inductive PoolOp :=
  | OpSubmitJob (type : JobType) (task : Task) (priority : Z)
  | OpShutdown (consumed : Z)
  | OpInitializePool (threads consumed : Z)
  | OpSetMaxPendingJobs (max : Z).

Definition apply_pool_op (p : t) (op : PoolOp) : t :=
  match op with
  | OpSubmitJob type task priority => (submit_job p type task priority).2
  | OpShutdown consumed => shutdown p consumed
  | OpInitializePool threads consumed => initialize p threads consumed
  | OpSetMaxPendingJobs max => set_max_pending_jobs p max
  end.

Definition apply_pool_ops (p : t) (ops : list PoolOp) : t :=
  foldl apply_pool_op p ops.

End WithTask.

Arguments t : clear implicits.
Arguments PoolOp : clear implicits.

End ThreadPool.

(** ** systems/chunk_mesh_builder.{h,cpp}: class ChunkMeshBuilder *)

Inductive Face :=
  FACE_LEFT | FACE_RIGHT | FACE_DOWN | FACE_UP | FACE_BACK | FACE_FRONT.

Global Instance Face_eq_dec : EqDecision Face.
Proof. solve_decision. Defined.

(** [struct MeshData]: flat component arrays, as the source packs them. *)
Record MeshData := mkMeshData {
  vertices : list Q;
  normals : list Q;
  uvs : list Q;
  colors : list Q;
  indices : list Z
}.

Definition empty_mesh_data : MeshData := mkMeshData [] [] [] [] [].

Definition vertex_count (m : MeshData) : Z :=
  Z.of_nat (length (vertices m)) / 3.

Fixpoint unpack_vector3 (l : list Q) : list Vector3 :=
  match l with
  | a :: b :: c :: l' => mkVector3 a b c :: unpack_vector3 l'
  | _ => []
  end.

Fixpoint unpack_vector2 (l : list Q) : list (Q * Q) :=
  match l with
  | a :: b :: l' => (a, b) :: unpack_vector2 l'
  | _ => []
  end.

Fixpoint unpack_color (l : list Q) : list Color :=
  match l with
  | r :: g :: b :: a :: l' => mkColor r g b a :: unpack_color l'
  | _ => []
  end.

Module ChunkMeshBuilder.

Record t := mk {
  type_registry : option VoxelTypeRegistry.t;
  mask : list VoxelTypeID;
  mask_size : Z
}.

(** [ChunkMeshBuilder()], given the registry singleton of the moment. *)
Definition new (singleton : option VoxelTypeRegistry.t) : t :=
  let mask_size := SKY_CHUNK_HEIGHT * CHUNK_SIZE_XZ in
  {| type_registry := singleton;
     mask := replicate (Z.to_nat mask_size) AIR;
     mask_size := mask_size |}.

Definition get_face_normal (face : Face) : Vector3 :=
  match face with
  | FACE_LEFT => mkVector3 (-1) 0 0
  | FACE_RIGHT => mkVector3 1 0 0
  | FACE_DOWN => mkVector3 0 (-1) 0
  | FACE_UP => mkVector3 0 1 0
  | FACE_BACK => mkVector3 0 0 (-1)
  | FACE_FRONT => mkVector3 0 0 1
  end.

Definition add_quad (mesh_data : MeshData) (pos size : Vector3)
    (face : Face) (color : Color) : MeshData :=
  let base_index := vertex_count mesh_data in
  let normal := get_face_normal face in
  let sx := v3_x size in
  let sy := v3_y size in
  let sz := v3_z size in
  let '(v0, v1, v2, v3) :=
    match face with
    | FACE_LEFT =>
        (v3_add pos (mkVector3 0 0 0), v3_add pos (mkVector3 0 sy 0),
         v3_add pos (mkVector3 0 sy sz), v3_add pos (mkVector3 0 0 sz))
    | FACE_RIGHT =>
        (v3_add pos (mkVector3 0 0 0), v3_add pos (mkVector3 0 0 sz),
         v3_add pos (mkVector3 0 sy sz), v3_add pos (mkVector3 0 sy 0))
    | FACE_DOWN =>
        (v3_add pos (mkVector3 0 0 0), v3_add pos (mkVector3 0 0 sz),
         v3_add pos (mkVector3 sx 0 sz), v3_add pos (mkVector3 sx 0 0))
    | FACE_UP =>
        (v3_add pos (mkVector3 0 0 0), v3_add pos (mkVector3 sx 0 0),
         v3_add pos (mkVector3 sx 0 sz), v3_add pos (mkVector3 0 0 sz))
    | FACE_BACK =>
        (v3_add pos (mkVector3 0 0 0), v3_add pos (mkVector3 sx 0 0),
         v3_add pos (mkVector3 sx sy 0), v3_add pos (mkVector3 0 sy 0))
    | FACE_FRONT =>
        (v3_add pos (mkVector3 0 0 0), v3_add pos (mkVector3 0 sy 0),
         v3_add pos (mkVector3 sx sy 0), v3_add pos (mkVector3 sx 0 0))
    end in
  let comps (v : Vector3) : list Q := [v3_x v; v3_y v; v3_z v] in
  {| vertices := vertices mesh_data ++ comps v0 ++ comps v1 ++ comps v2 ++ comps v3;
     normals := normals mesh_data
                ++ comps normal ++ comps normal ++ comps normal ++ comps normal;
     uvs := uvs mesh_data ++ [0%Q; 0%Q] ++ [1%Q; 0%Q] ++ [1%Q; 1%Q] ++ [0%Q; 1%Q];
     colors :=
       (let c := [col_r color; col_g color; col_b color; col_a color] in
        colors mesh_data ++ c ++ c ++ c ++ c);
     indices := indices mesh_data
                ++ [base_index; base_index + 1; base_index + 2;
                    base_index; base_index + 2; base_index + 3] |}.

(** [None] when a read falls outside the voxel buffer. *)
Definition should_render_face (b : t) (chunk : Chunk.t)
    (x y z nx ny nz : Z) (face : Face) : option bool :=
  voxel_data ← Chunk.voxel_data chunk;
  voxel ← VoxelData.get_voxel voxel_data x y z;
  if bool_decide (voxel = AIR) then Some false
  else
    let chunk_size_y := VoxelData.chunk_size_y voxel_data in
    if (nx >=? 0) && (nx <? CHUNK_SIZE_XZ) &&
       (ny >=? 0) && (ny <? chunk_size_y) &&
       (nz >=? 0) && (nz <? CHUNK_SIZE_XZ)
    then
      neighbor ← VoxelData.get_voxel voxel_data nx ny nz;
      match type_registry b with
      | Some registry =>
          if bool_decide (neighbor ≠ AIR)
             && negb (VoxelTypeRegistry.is_transparent registry neighbor)
          then Some false else Some true
      | None => Some true
      end
    else Some true.

(** The sweep axes chosen by the [switch] of [greedy_mesh_face]. *)
Definition w_axis_of (face : Face) : Z :=
  match face with
  | FACE_LEFT | FACE_RIGHT => 0
  | FACE_DOWN | FACE_UP => 1
  | FACE_BACK | FACE_FRONT => 2
  end.

Definition u_size_of (face : Face) : Z := CHUNK_SIZE_XZ.

Definition v_size_of (face : Face) (chunk_size_y : Z) : Z :=
  match face with
  | FACE_DOWN | FACE_UP => CHUNK_SIZE_XZ
  | _ => chunk_size_y
  end.

Definition w_dir_of (face : Face) : Z :=
  match face with
  | FACE_RIGHT | FACE_UP | FACE_FRONT => 1
  | _ => -1
  end.

(** "Build mask for this layer": the two loops over [v] and [u]. *)
Definition build_mask (b : t) (chunk : Chunk.t) (face : Face)
    (w u_size v_size : Z) (mask : list VoxelTypeID) : option (list VoxelTypeID) :=
  let w_axis := w_axis_of face in
  let w_dir := w_dir_of face in
  foldl (λ st v,
    foldl (λ st u,
      mask ← st;
      let '(x, y, z) :=
        if w_axis =? 0 then (w, v, u)
        else if w_axis =? 1 then (u, w, v)
        else (u, v, w) in
      let nx := x + (if w_axis =? 0 then w_dir else 0) in
      let ny := y + (if w_axis =? 1 then w_dir else 0) in
      let nz := z + (if w_axis =? 2 then w_dir else 0) in
      render ← should_render_face b chunk x y z nx ny nz face;
      if (render : bool) then
        voxel_data ← Chunk.voxel_data chunk;
        voxel ← VoxelData.get_voxel voxel_data x y z;
        Some (array_set mask (u + v * u_size) voxel)
      else Some mask)
      st (seqZ 0 u_size))
    (Some mask) (seqZ 0 v_size).

(** "Find width of quad":
    [while (u + width < u_size && mask[u + width + v * u_size] == voxel_type) width++;]
    The loop leaves after fewer than [u_size] rounds; [fuel] bounds them. *)
Fixpoint grow_width (fuel : nat) (mask : list VoxelTypeID)
    (u_size u v : Z) (voxel_type : VoxelTypeID) (width : Z) : Z :=
  match fuel with
  | O => width
  | S fuel' =>
      if (u + width <? u_size)
         && bool_decide (array_get mask (u + width + v * u_size) = Some voxel_type)
      then grow_width fuel' mask u_size u v voxel_type (width + 1)
      else width
  end.

(** The inner [for (k = 0; k < width; k++)] of the height search: does
    the whole run of row [row] match? *)
Definition row_matches (mask : list VoxelTypeID) (u_size u row : Z)
    (voxel_type : VoxelTypeID) (width : Z) : bool :=
  forallb (λ k,
    bool_decide (array_get mask (u + k + row * u_size) = Some voxel_type))
    (seqZ 0 width).

(** "Find height of quad":
    [while (v + height < v_size && !done) { ...; if (!done) height++; }] *)
Fixpoint grow_height (fuel : nat) (mask : list VoxelTypeID)
    (u_size v_size u v : Z) (voxel_type : VoxelTypeID) (width height : Z) : Z :=
  match fuel with
  | O => height
  | S fuel' =>
      if v + height <? v_size then
        if row_matches mask u_size u (v + height) voxel_type width
        then grow_height fuel' mask u_size v_size u v voxel_type width (height + 1)
        else height
      else height
  end.

(** "Clear mask for processed area". *)
Definition clear_area (mask : list VoxelTypeID) (u_size u v width height : Z)
    : list VoxelTypeID :=
  foldl (λ m h,
    foldl (λ m k, array_set m (u + k + (v + h) * u_size) AIR) m (seqZ 0 width))
    mask (seqZ 0 height).

(** "Create quad": position and size on the layer [w], then [add_quad]. *)
Definition emit_quad (b : t) (face : Face) (w u v width height : Z)
    (voxel_type : VoxelTypeID) (mesh_data : MeshData) : MeshData :=
  let w_axis := w_axis_of face in
  let '(pos, size) :=
    if w_axis =? 0 then
      let offset : Q := if decide (face = FACE_RIGHT) then 1%Q else 0%Q in
      (mkVector3 (inject_Z w + offset) (inject_Z v) (inject_Z u),
       mkVector3 0 (inject_Z height) (inject_Z width))
    else if w_axis =? 1 then
      let offset : Q := if decide (face = FACE_UP) then 1%Q else 0%Q in
      (mkVector3 (inject_Z u) (inject_Z w + offset) (inject_Z v),
       mkVector3 (inject_Z width) 0 (inject_Z height))
    else
      let offset : Q := if decide (face = FACE_FRONT) then 1%Q else 0%Q in
      (mkVector3 (inject_Z u) (inject_Z v) (inject_Z w + offset),
       mkVector3 (inject_Z width) (inject_Z height) 0) in
  let color :=
    match type_registry b with
    | Some registry => VoxelTypeRegistry.get_color registry voxel_type
    | None => Color3 1 0 1
    end in
  add_quad mesh_data pos size face color.

(** One row of the merge: [for (u = u0; u < u_size; ) { ... }].  Every
    round advances [u] by at least one, so [u_size] rounds of [fuel]
    are enough.  A mask read outside the vector stops the row. *)
Fixpoint merge_row (fuel : nat) (b : t) (face : Face) (w u_size v_size v u : Z)
    (st : list VoxelTypeID * MeshData) : list VoxelTypeID * MeshData :=
  match fuel with
  | O => st
  | S fuel' =>
      if u <? u_size then
        let '(mask, mesh_data) := st in
        match array_get mask (u + v * u_size) with
        | None => st
        | Some voxel_type =>
            if bool_decide (voxel_type = AIR)
            then merge_row fuel' b face w u_size v_size v (u + 1) st
            else
              let width :=
                grow_width (Z.to_nat u_size) mask u_size u v voxel_type 1 in
              let height :=
                grow_height (Z.to_nat v_size) mask u_size v_size u v
                  voxel_type width 1 in
              let mesh_data :=
                emit_quad b face w u v width height voxel_type mesh_data in
              let mask := clear_area mask u_size u v width height in
              merge_row fuel' b face w u_size v_size v (u + width)
                (mask, mesh_data)
        end
      else st
  end.

(** "Greedy meshing on the mask": one pass over a layer. *)
Definition merge_layer (b : t) (face : Face) (w u_size v_size : Z)
    (st : list VoxelTypeID * MeshData) : list VoxelTypeID * MeshData :=
  foldl (λ st v, merge_row (Z.to_nat u_size) b face w u_size v_size v 0 st)
    st (seqZ 0 v_size).

(** The builder (its mask is reused between calls) and the mesh data
    after the call; [None] when a voxel read left the buffer. *)
Definition greedy_mesh_face (b : t) (chunk : Chunk.t) (face : Face)
    (mesh_data : MeshData) (chunk_size_y : Z) : option (t * MeshData) :=
  let w_axis := w_axis_of face in
  let u_size := u_size_of face in
  let v_size := v_size_of face chunk_size_y in
  let current_mask_size := u_size * v_size in
  let b :=
    if current_mask_size >? mask_size b then
      {| type_registry := type_registry b;
         mask := mask b ++ replicate
                   (Z.to_nat current_mask_size - length (mask b))%nat AIR;
         mask_size := current_mask_size |}
    else b in
  let w_max :=
    if (w_axis =? 0) || (w_axis =? 2) then CHUNK_SIZE_XZ else chunk_size_y in
  st ← foldl (λ st w,
         '(mask, mesh_data) ← st;
         (* std::fill(mask.begin(), mask.begin() + current_mask_size, AIR) *)
         let mask := replicate (Z.to_nat current_mask_size) AIR
                     ++ drop (Z.to_nat current_mask_size) mask in
         mask ← build_mask b chunk face w u_size v_size mask;
         Some (merge_layer b face w u_size v_size (mask, mesh_data)))
       (Some (mask b, mesh_data)) (seqZ 0 w_max);
  Some ({| type_registry := type_registry b;
           mask := st.1;
           mask_size := mask_size b |}, st.2).

Definition build_face (b : t) (chunk : Chunk.t) (face : Face)
    (mesh_data : MeshData) : option (t * MeshData) :=
  voxel_data ← Chunk.voxel_data chunk;
  greedy_mesh_face b chunk face mesh_data (VoxelData.chunk_size_y voxel_data).

(** [build_mesh] on a non-null chunk: the builder after the call and
    the mesh reference returned ([None] inside: the null reference). *)
Definition build_mesh (b : t) (chunk : Chunk.t) : option (t * option ArrayMesh) :=
  match Chunk.voxel_data chunk with
  | None => Some (b, None)
  | Some voxel_data =>
      if VoxelData.is_uniform voxel_data
         && bool_decide (VoxelData.uniform_value voxel_data = AIR)
      then Some (b, None)
      else
        '(b, mesh_data) ←
          foldl (λ st face, '(b, md) ← st; build_face b chunk face md)
            (Some (b, empty_mesh_data))
            [FACE_LEFT; FACE_RIGHT; FACE_DOWN; FACE_UP; FACE_BACK; FACE_FRONT];
        if vertex_count mesh_data =? 0 then Some (b, None)
        else
          Some (b, Some
            {| am_vertices := unpack_vector3 (vertices mesh_data);
               am_normals := unpack_vector3 (normals mesh_data);
               am_uvs := unpack_vector2 (uvs mesh_data);
               am_colors := unpack_color (colors mesh_data);
               am_indices := indices mesh_data |})
  end.

End ChunkMeshBuilder.

(** ** voxel_world.{h,cpp}: class VoxelWorld

    The state owned by the main thread: the chunk table, the table of
    render handles, the children added to the scene and the handles
    passed to [queue_free]. *)

Module VoxelWorld.

Record t := mk {
  chunks : gmap Vector3i Chunk.t;
  chunk_mesh_instances : gmap Vector3i MeshInstance3D;
  children : list MeshInstance3D;
  freed : list MeshInstance3D;
  last_player_chunk : Vector3i;
  render_distance : Z;
  vertical_render_distance : Z
}.

Definition world_to_chunk_pos (world_pos : Vector3) : Vector3i :=
  (Qfloor (v3_x world_pos / inject_Z CHUNK_SIZE_XZ),
   world_y_to_chunk_y (Qtrunc (v3_y world_pos)),
   Qfloor (v3_z world_pos / inject_Z CHUNK_SIZE_XZ)).

Definition is_chunk_in_range (chunk_pos center : Vector3i)
    (h_range v_range : Z) : bool :=
  let dx := Z.abs (v3i_x chunk_pos - v3i_x center) in
  let dy := Z.abs (v3i_y chunk_pos - v3i_y center) in
  let dz := Z.abs (v3i_z chunk_pos - v3i_z center) in
  (dx <=? h_range) && (dz <=? h_range) && (dy <=? v_range).

Definition get_chunk_at (w : t) (pos : Vector3i) : option Chunk.t :=
  chunks w !! pos.

(** A [const] method; the world after the call is returned beside the
    value read, so that what it leaves untouched can be stated.  The
    value is [None] when the read leaves the voxel buffer or goes
    through a null storage. *)
Definition get_voxel_at (w : t) (world_pos : Vector3)
    : option VoxelTypeID * t :=
  let chunk_pos := world_to_chunk_pos world_pos in
  match get_chunk_at w chunk_pos with
  | None => (Some AIR, w)
  | Some chunk =>
      (voxel_data ← Chunk.voxel_data chunk;
       let local_x := Z.rem (Qtrunc (v3_x world_pos)) CHUNK_SIZE_XZ in
       let local_y := Z.rem (Qtrunc (v3_y world_pos))
                        (VoxelData.chunk_size_y voxel_data) in
       let local_z := Z.rem (Qtrunc (v3_z world_pos)) CHUNK_SIZE_XZ in
       Chunk.get_voxel chunk local_x local_y local_z,
       w)
  end.

Definition remove_chunk_mesh_instance (w : t) (pos : Vector3i) : t :=
  match chunk_mesh_instances w !! pos with
  | Some instance =>
      {| chunks := chunks w;
         chunk_mesh_instances := delete pos (chunk_mesh_instances w);
         children := children w;
         freed := freed w ++ [instance];
         last_player_chunk := last_player_chunk w;
         render_distance := render_distance w;
         vertical_render_distance := vertical_render_distance w |}
  | None => w
  end.

(** Mesh installation.  [None] when the chunk found has no storage
    (a null dereference in the source). *)
Definition create_chunk_mesh_instance (w : t) (pos : Vector3i)
    (mesh : option ArrayMesh) : option t :=
  match mesh with
  | None => Some w
  | Some m =>
      match chunks w !! pos with
      | None => Some w
      | Some chunk =>
          let w := remove_chunk_mesh_instance w pos in
          voxel_data ← Chunk.voxel_data chunk;
          let world_pos :=
            mkVector3
              (inject_Z (v3i_x pos * CHUNK_SIZE_XZ))
              (inject_Z (v3i_y pos * VoxelData.chunk_size_y voxel_data))
              (inject_Z (v3i_z pos * CHUNK_SIZE_XZ)) in
          let mesh_instance := mkMeshInstance3D m world_pos in
          let chunk := Chunk.set_state (Chunk.set_mesh chunk (Some m)) ACTIVE in
          Some {| chunks := <[pos := chunk]> (chunks w);
                  chunk_mesh_instances :=
                    <[pos := mesh_instance]> (chunk_mesh_instances w);
                  children := children w ++ [mesh_instance];
                  freed := freed w;
                  last_player_chunk := last_player_chunk w;
                  render_distance := render_distance w;
                  vertical_render_distance := vertical_render_distance w |}
      end
  end.

(** [update_player_position]; [player] is the global position of the
    node found under [player_path], [None] when the path is empty or
    names no 3D node. *)
Definition update_player_position (w : t) (player : option Vector3) : t :=
  match player with
  | None => w
  | Some player_pos =>
      {| chunks := chunks w;
         chunk_mesh_instances := chunk_mesh_instances w;
         children := children w;
         freed := freed w;
         last_player_chunk := world_to_chunk_pos player_pos;
         render_distance := render_distance w;
         vertical_render_distance := vertical_render_distance w |}
  end.

(** One round of the second loop of [unload_distant_chunks]. *)
Definition unload_chunk (w : t) (pos : Vector3i) : t :=
  let w := remove_chunk_mesh_instance w pos in
  {| chunks := delete pos (chunks w);
     chunk_mesh_instances := chunk_mesh_instances w;
     children := children w;
     freed := freed w;
     last_player_chunk := last_player_chunk w;
     render_distance := render_distance w;
     vertical_render_distance := vertical_render_distance w |}.

(** [unload_distant_chunks].  The source walks the table in the order
    of the [unordered_map], which it leaves unspecified; the order of
    [map_to_list] stands for it. *)
Definition unload_distant_chunks (w : t) : t :=
  let to_unload :=
    filter (λ pos, is_chunk_in_range pos (last_player_chunk w)
                     (render_distance w) (vertical_render_distance w) = false)
      (map_to_list (chunks w)).*1 in
  foldl unload_chunk w to_unload.


(** The positions visited by the four loops of
    [load_chunks_around_player], in order: for every height offset the
    rings of radius [0 .. render_distance] around the centre. *)
Definition load_candidates (center : Vector3i)
    (render_distance vertical_render_distance : Z) : list Vector3i :=
  dy ← seqZ (- vertical_render_distance) (2 * vertical_render_distance + 1);
  r ← seqZ 0 (render_distance + 1);
  dx ← seqZ (- r) (2 * r + 1);
  dz ← seqZ (- r) (2 * r + 1);
  if bool_decide (Z.abs dx ≠ r) && bool_decide (Z.abs dz ≠ r) then []
  else [(v3i_x center + dx, v3i_y center + dy, v3i_z center + dz)].

Section WithSystems.

Context {Task : Type}.

Variable get_noise_2d : FastNoiseLite → Z → Z → Q.

(** The closure that [generate_chunk_async] hands to the pool, for the
    position and the chunk it captures. *)
Variable generation_task : Vector3i → Chunk.t → Task.

(** The systems owned by the world, once [initialize_systems] has run,
    and the frame counter. *)
Record systems := mk_systems {
  terrain_generator : TerrainGenerator.t;
  mesh_builder : ChunkMeshBuilder.t;
  thread_pool : option (ThreadPool.t Task);
  use_threading : bool;
  max_chunks_per_frame : Z;
  chunks_generated_this_frame : Z
}.

(** [generate_chunk_async].  The table holds a reference to the chunk:
    on the synchronous path the entry is the chunk as generation leaves
    it.  On the threaded path the job is only queued, and the answer of
    [submit_job] is dropped.  [None]: a read outside a buffer or through
    a null storage. *)
Definition generate_chunk_async (w : t) (s : systems) (pos : Vector3i)
    : option (t * systems) :=
  let chunk_height := get_chunk_height_for_y (v3i_y pos) in
  let chunk :=
    Chunk.set_state (Chunk.initialize Chunk.new pos chunk_height) GENERATING in
  let store (chunk : Chunk.t) : t :=
    {| chunks := <[pos := chunk]> (chunks w);
       chunk_mesh_instances := chunk_mesh_instances w;
       children := children w;
       freed := freed w;
       last_player_chunk := last_player_chunk w;
       render_distance := render_distance w;
       vertical_render_distance := vertical_render_distance w |} in
  match use_threading s, thread_pool s with
  | true, Some pool =>
      let pool :=
        (ThreadPool.submit_job pool GENERATE_TERRAIN
           (generation_task pos chunk) 0).2 in
      Some (store chunk,
            {| terrain_generator := terrain_generator s;
               mesh_builder := mesh_builder s;
               thread_pool := Some pool;
               use_threading := use_threading s;
               max_chunks_per_frame := max_chunks_per_frame s;
               chunks_generated_this_frame := chunks_generated_this_frame s |})
  | _, _ =>
      let '(g, chunk) :=
        TerrainGenerator.generate_chunk get_noise_2d (terrain_generator s) chunk in
      '(b, mesh) ← ChunkMeshBuilder.build_mesh (mesh_builder s) chunk;
      w ← create_chunk_mesh_instance (store chunk) pos mesh;
      Some (w,
            {| terrain_generator := g;
               mesh_builder := b;
               thread_pool := thread_pool s;
               use_threading := use_threading s;
               max_chunks_per_frame := max_chunks_per_frame s;
               chunks_generated_this_frame := chunks_generated_this_frame s |})
  end.

(** The body of the loops of [load_chunks_around_player] over the
    positions still to visit; the [return] ends the walk. *)
Fixpoint load_chunks (candidates : list Vector3i) (w : t) (s : systems)
    : option (t * systems) :=
  match candidates with
  | [] => Some (w, s)
  | chunk_pos :: candidates =>
      if decide (is_Some (chunks w !! chunk_pos)) then load_chunks candidates w s
      else if chunks_generated_this_frame s >=? max_chunks_per_frame s
      then Some (w, s)
      else
        '(w, s) ← generate_chunk_async w s chunk_pos;
        load_chunks candidates w
          {| terrain_generator := terrain_generator s;
             mesh_builder := mesh_builder s;
             thread_pool := thread_pool s;
             use_threading := use_threading s;
             max_chunks_per_frame := max_chunks_per_frame s;
             chunks_generated_this_frame := chunks_generated_this_frame s + 1 |}
  end.

Definition load_chunks_around_player (w : t) (s : systems)
    : option (t * systems) :=
  load_chunks
    (load_candidates (last_player_chunk w) (render_distance w)
       (vertical_render_distance w))
    w s.

(** [_process] outside the editor, with the systems initialised. *)
Definition _process (w : t) (s : systems) (player : option Vector3)
    : option (t * systems) :=
  let s :=
    {| terrain_generator := terrain_generator s;
       mesh_builder := mesh_builder s;
       thread_pool := thread_pool s;
       use_threading := use_threading s;
       max_chunks_per_frame := max_chunks_per_frame s;
       chunks_generated_this_frame := 0 |} in
  let w := update_player_position w player in
  '(w, s) ← load_chunks_around_player w s;
  Some (unload_distant_chunks w, s).

(** [set_voxel_at].  The chunk edited is the one the table refers to. *)
Definition set_voxel_at (w : t) (s : systems) (world_pos : Vector3)
    (type : VoxelTypeID) : option (t * systems) :=
  let chunk_pos := world_to_chunk_pos world_pos in
  match get_chunk_at w chunk_pos with
  | None => Some (w, s)
  | Some chunk =>
      voxel_data ← Chunk.voxel_data chunk;
      let local_x := Z.rem (Qtrunc (v3_x world_pos)) CHUNK_SIZE_XZ in
      let local_y := Z.rem (Qtrunc (v3_y world_pos))
                       (VoxelData.chunk_size_y voxel_data) in
      let local_z := Z.rem (Qtrunc (v3_z world_pos)) CHUNK_SIZE_XZ in
      let chunk :=
        Chunk.mark_mesh_dirty (Chunk.set_voxel chunk local_x local_y local_z type) in
      '(b, mesh) ← ChunkMeshBuilder.build_mesh (mesh_builder s) chunk;
      w ← create_chunk_mesh_instance
            {| chunks := <[chunk_pos := chunk]> (chunks w);
               chunk_mesh_instances := chunk_mesh_instances w;
               children := children w;
               freed := freed w;
               last_player_chunk := last_player_chunk w;
               render_distance := render_distance w;
               vertical_render_distance := vertical_render_distance w |}
            chunk_pos mesh;
      Some (w,
            {| terrain_generator := terrain_generator s;
               mesh_builder := b;
               thread_pool := thread_pool s;
               use_threading := use_threading s;
               max_chunks_per_frame := max_chunks_per_frame s;
               chunks_generated_this_frame := chunks_generated_this_frame s |})
  end.

End WithSystems.

Arguments systems : clear implicits.

End VoxelWorld.

(** ** core/voxel_data.h: the remaining zone helper *)

(** "This is complex due to variable heights - simplified for now". *)
Definition chunk_y_to_world_y (chunk_y : Z) : Z :=
  chunk_y * DENSE_TERRAIN_CHUNK_HEIGHT.

(** ** Sequences of storage operations

    The public operations of [VoxelData], as a caller may issue them in
    any order on one storage. *)

Inductive VoxelDataOp :=
  | OpSetVoxel (x y z : Z) (type : VoxelTypeID)
  | OpFill (type : VoxelTypeID)
  | OpClear
  | OpInitialize (chunk_y : Z)
  | OpOptimize
  | OpScriptSetVoxel (x y z : Z) (type : Z)
  | OpScriptFill (type : Z).

Definition apply_op (vd : VoxelData.t) (op : VoxelDataOp) : VoxelData.t :=
  match op with
  | OpSetVoxel x y z type => VoxelData.set_voxel vd x y z type
  | OpFill type => VoxelData.fill vd type
  | OpClear => VoxelData.clear vd
  | OpInitialize chunk_y => VoxelData.initialize vd chunk_y
  | OpOptimize => (VoxelData.check_and_optimize_uniform vd).2
  | OpScriptSetVoxel x y z type => VoxelData._set_voxel vd x y z type
  | OpScriptFill type => VoxelData._fill vd type
  end.

Definition apply_ops (vd : VoxelData.t) (ops : list VoxelDataOp) : VoxelData.t :=
  foldl apply_op vd ops.

(** ** Sequences of height lookups *)

(** The generator after [get_height_at] has been called for each of the
    columns [(wx, wz)] of the list, in order. *)
Definition lookup_heights (get_noise_2d : FastNoiseLite → Z → Z → Q)
    (g : TerrainGenerator.t) (columns : list (Z * Z)) : TerrainGenerator.t :=
  foldl (λ g c, (TerrainGenerator.get_height_at get_noise_2d g c.1 c.2).2)
    g columns.

(** An [int32_t] value. *)
Definition is_int32 (v : Z) : Prop := - 2 ^ 31 ≤ v < 2 ^ 31.

(** ** Mesh data made of quads; builders with their mask allocated *)

(** The mesh data of [n] quads: four vertices each, with their normals,
    texture coordinates and colours, and six indices each, every index
    naming one of the vertices. *)
Definition mesh_data_quads (m : MeshData) (n : nat) : Prop :=
  length (vertices m) = (12 * n)%nat ∧
  length (normals m) = (12 * n)%nat ∧
  length (uvs m) = (8 * n)%nat ∧
  length (colors m) = (16 * n)%nat ∧
  length (indices m) = (6 * n)%nat ∧
  Forall (λ i, 0 ≤ i < 4 * Z.of_nat n) (indices m).

(** [mask.size() == mask_size], as the constructor and the resize of
    [greedy_mesh_face] leave the two. *)
Definition mask_allocated (b : ChunkMeshBuilder.t) : Prop :=
  Z.of_nat (length (ChunkMeshBuilder.mask b)) = ChunkMeshBuilder.mask_size b.

(** The voxel and its neighbour looked at for the mask cell [(u, v)] of
    layer [w]: "Convert u,v,w to x,y,z" and "Get neighbor position". *)
Definition layer_cell (face : Face) (w u v : Z) : Z * Z * Z :=
  let w_axis := ChunkMeshBuilder.w_axis_of face in
  if w_axis =? 0 then (w, v, u)
  else if w_axis =? 1 then (u, w, v)
  else (u, v, w).

Definition layer_neighbor (face : Face) (w u v : Z) : Z * Z * Z :=
  let w_axis := ChunkMeshBuilder.w_axis_of face in
  let w_dir := ChunkMeshBuilder.w_dir_of face in
  let '(x, y, z) := layer_cell face w u v in
  (x + (if w_axis =? 0 then w_dir else 0),
   y + (if w_axis =? 1 then w_dir else 0),
   z + (if w_axis =? 2 then w_dir else 0)).

(** The number of layers swept for a face. *)
Definition w_max_of (face : Face) (chunk_size_y : Z) : Z :=
  let w_axis := ChunkMeshBuilder.w_axis_of face in
  if (w_axis =? 0) || (w_axis =? 2) then CHUNK_SIZE_XZ else chunk_size_y.

(** The body of the two loops of "Build mask for this layer", for the
    mask cell [(u, v)]. *)
Definition build_mask_cell (b : ChunkMeshBuilder.t) (chunk : Chunk.t)
    (face : Face) (w u_size : Z) (mask : list VoxelTypeID) (v u : Z)
    : option (list VoxelTypeID) :=
  let c := layer_cell face w u v in
  let n := layer_neighbor face w u v in
  render ← ChunkMeshBuilder.should_render_face b chunk
              c.1.1 c.1.2 c.2 n.1.1 n.1.2 n.2 face;
  if (render : bool) then
    voxel_data ← Chunk.voxel_data chunk;
    voxel ← VoxelData.get_voxel voxel_data c.1.1 c.1.2 c.2;
    Some (array_set mask (u + v * u_size) voxel)
  else Some mask.

(** One round of "Sweep through each layer": the mask is reset, built
    and merged. *)
Definition sweep_layer (b : ChunkMeshBuilder.t) (chunk : Chunk.t)
    (face : Face) (u_size v_size : Z)
    (st : option (list VoxelTypeID * MeshData)) (w : Z)
    : option (list VoxelTypeID * MeshData) :=
  '(mask, mesh_data) ← st;
  let mask := replicate (Z.to_nat (u_size * v_size)) AIR
              ++ drop (Z.to_nat (u_size * v_size)) mask in
  mask ← ChunkMeshBuilder.build_mask b chunk face w u_size v_size mask;
  Some (ChunkMeshBuilder.merge_layer b face w u_size v_size (mask, mesh_data)).

(** ** The state of a world between two calls

    Every render handle belongs to a loaded chunk; every loaded chunk
    has a well-formed storage; and the nodes added to the scene are the
    handles of the table together with those passed to [queue_free]. *)
Definition world_consistent (w : VoxelWorld.t) : Prop :=
  (∀ pos, is_Some (VoxelWorld.chunk_mesh_instances w !! pos) →
          is_Some (VoxelWorld.chunks w !! pos)) ∧
  (∀ pos chunk, VoxelWorld.chunks w !! pos = Some chunk →
     ∃ vd, Chunk.voxel_data chunk = Some vd ∧ VoxelData.wf vd ∧
           0 < VoxelData.chunk_size_y vd) ∧
  VoxelWorld.children w
  ≡ₚ (map_to_list (VoxelWorld.chunk_mesh_instances w)).*2 ++ VoxelWorld.freed w.




(** ** Sample states used by the examples below *)

(** A world holding one chunk at the origin, still in state
    [GENERATING], and no render handle. *)
Definition one_generating_chunk : VoxelWorld.t :=
  {| VoxelWorld.chunks :=
         {[ (0, 0, 0) :=
              Chunk.set_state (Chunk.initialize Chunk.new (0, 0, 0) 16) GENERATING ]};
     VoxelWorld.chunk_mesh_instances := ∅;
     VoxelWorld.children := [];
     VoxelWorld.freed := [];
     VoxelWorld.last_player_chunk := (0, 0, 0);
     VoxelWorld.render_distance := 8;
     VoxelWorld.vertical_render_distance := 4 |}.

(** A noise primitive that tells the column [x = 0] from the others. *)
Definition sample_noise (n : FastNoiseLite) (x z : Z) : Q :=
  if x =? 0 then 0%Q else (1 # 2)%Q.

(** A 3 x 2 layer mask whose two right-hand columns are stone. *)
Definition sample_mask : list VoxelTypeID :=
  [AIR; STONE; STONE;
   AIR; STONE; STONE].





(** A chunk at the default base height. *)
Definition surface_chunk : Chunk.t :=
  Chunk.set_state (Chunk.initialize Chunk.new (0, 4, 0) 16) GENERATING.

(** A noise primitive that is 1/48 everywhere: with the default
    parameters every column has the height 64 + 24/48 = 129/2. *)
Definition flat_noise (n : FastNoiseLite) (x z : Z) : Q := (1 # 48)%Q.

(** A noise primitive that is -1 everywhere (height 40 with the default
    parameters), and a chunk above that terrain but below the water
    level: world heights 48 to 63. *)
Definition deep_noise (n : FastNoiseLite) (x z : Z) : Q := (-1)%Q.

Definition lake_chunk : Chunk.t :=
  Chunk.set_state (Chunk.initialize Chunk.new (0, 3, 0) 16) GENERATING.

(** A chunk of the dense zone holding one stone block. *)
Definition one_block_chunk : Chunk.t :=
  Chunk.set_voxel (Chunk.initialize Chunk.new (0, 0, 0) 16) 3 2 1 STONE.

(** The systems of a world that generates on the calling thread. *)
Definition sample_systems : VoxelWorld.systems unit :=
  {| VoxelWorld.terrain_generator := TerrainGenerator.new;
     VoxelWorld.mesh_builder := ChunkMeshBuilder.new None;
     VoxelWorld.thread_pool := None;
     VoxelWorld.use_threading := false;
     VoxelWorld.max_chunks_per_frame := 4;
     VoxelWorld.chunks_generated_this_frame := 0 |}.

(** The same with a pool that was created and never started, its
    queue limited to no job at all. *)
Definition full_pool_systems : VoxelWorld.systems unit :=
  {| VoxelWorld.terrain_generator := TerrainGenerator.new;
     VoxelWorld.mesh_builder := ChunkMeshBuilder.new None;
     VoxelWorld.thread_pool :=
       Some (ThreadPool.set_max_pending_jobs ThreadPool.new 0);
     VoxelWorld.use_threading := true;
     VoxelWorld.max_chunks_per_frame := 4;
     VoxelWorld.chunks_generated_this_frame := 0 |}.

(** The closure of a generation job, when nothing of it is looked at. *)
Definition unit_task (pos : Vector3i) (chunk : Chunk.t) : unit := tt.

(** * Properties *)

(** ** Raw arrays *)

Lemma array_get_set_eq {A} (d : list A) i v :
  0 ≤ i < Z.of_nat (length d) → array_get (array_set d i v) i = Some v.
Proof.
  intros Hi. unfold array_get, array_set.
  rewrite !decide_True by lia. apply list_lookup_insert_eq. lia.
Qed.

Lemma array_get_set_ne {A} (d : list A) i j v :
  i ≠ j → array_get (array_set d i v) j = array_get d j.
Proof.
  intros Hne. unfold array_get, array_set.
  destruct (decide (0 ≤ j)); [|done].
  destruct (decide (0 ≤ i)); [|done].
  apply list_lookup_insert_ne. lia.
Qed.

Lemma array_set_length {A} (d : list A) i v :
  length (array_set d i v) = length d.
Proof. unfold array_set. case_decide; [apply length_insert|done]. Qed.

Lemma array_get_replicate {A} (n : nat) (a : A) i :
  0 ≤ i < Z.of_nat n → array_get (replicate n a) i = Some a.
Proof.
  intros Hi. unfold array_get. rewrite decide_True by lia.
  apply lookup_replicate_2. lia.
Qed.

Lemma array_get_is_Some {A} (d : list A) i :
  0 ≤ i < Z.of_nat (length d) → is_Some (array_get d i).
Proof.
  intros Hi. unfold array_get. rewrite decide_True by lia.
  apply lookup_lt_is_Some. lia.
Qed.

(** ** VoxelData: indexing *)

Section voxel_data_facts.

Import VoxelData.

Implicit Types vd : VoxelData.t.

Lemma out_of_bounds_false vd x y z :
  out_of_bounds vd x y z = false ↔ in_bounds vd x y z.
Proof.
  unfold out_of_bounds, in_bounds, CHUNK_SIZE_XZ.
  rewrite !orb_false_iff, !Z.ltb_ge, !Z.geb_leb, !Z.leb_gt. lia.
Qed.

Lemma out_of_bounds_true vd x y z :
  out_of_bounds vd x y z = true ↔ ¬ in_bounds vd x y z.
Proof.
  rewrite <- out_of_bounds_false. destruct (out_of_bounds vd x y z); naive_solver.
Qed.

Lemma get_index_range vd x y z :
  in_bounds vd x y z →
  0 ≤ get_index vd x y z < CHUNK_SIZE_XZ * CHUNK_SIZE_XZ * chunk_size_y vd.
Proof. unfold in_bounds, get_index, CHUNK_SIZE_XZ. nia. Qed.

Lemma get_index_inj vd x y z x' y' z' :
  in_bounds vd x y z → in_bounds vd x' y' z' →
  get_index vd x y z = get_index vd x' y' z' →
  x = x' ∧ y = y' ∧ z = z'.
Proof.
  unfold in_bounds, get_index, CHUNK_SIZE_XZ. intros (Hx & Hy & Hz) (Hx' & Hy' & Hz') Heq.
  assert (z = z') as -> by nia.
  assert (y = y') as -> by nia.
  lia.
Qed.

Lemma get_index_surj vd i :
  0 ≤ i < CHUNK_SIZE_XZ * CHUNK_SIZE_XZ * chunk_size_y vd →
  ∃ x y z, in_bounds vd x y z ∧ get_index vd x y z = i.
Proof.
  unfold in_bounds, get_index, CHUNK_SIZE_XZ. intros Hi.
  set (c := chunk_size_y vd) in *.
  assert (0 < c) by lia.
  exists (i mod 16), ((i / 16) mod c), (i / 16 / c).
  pose proof (Z.mod_pos_bound i 16 ltac:(lia)).
  pose proof (Z.mod_pos_bound (i / 16) c ltac:(lia)).
  pose proof (Z.div_mod i 16 ltac:(lia)).
  pose proof (Z.div_mod (i / 16) c ltac:(lia)).
  assert (0 ≤ i / 16 / c < 16).
  { split; [apply Z.div_pos; [apply Z.div_pos|]; lia|].
    apply Z.div_lt_upper_bound; [lia|].
    apply Z.div_lt_upper_bound; lia. }
  repeat split; try lia.
Qed.

(** *** The representation invariant is kept by every operation *)

Lemma wf_new chunk_y : wf (new chunk_y).
Proof. split; [done|]. left. done. Qed.

Lemma wf_fill vd type : wf vd → wf (fill vd type).
Proof. intros [Ht _]. split; [done|]. left. done. Qed.

Lemma wf_clear vd : wf vd → wf (clear vd).
Proof. intros [Ht _]. split; [done|]. left. done. Qed.

Lemma set_voxel_chunk_size_y vd x y z type :
  chunk_size_y (set_voxel vd x y z type) = chunk_size_y vd.
Proof.
  unfold set_voxel. repeat case_match; done.
Qed.

Lemma wf_set_voxel vd x y z type : wf vd → wf (set_voxel vd x y z type).
Proof.
  intros [Ht Hrep]. unfold set_voxel.
  destruct (out_of_bounds vd x y z) eqn:Hoob; [done|].
  apply out_of_bounds_false in Hoob.
  destruct (is_uniform vd) eqn:Hu; simpl.
  - case_bool_decide.
    { split; [done|]. destruct Hrep as [[_ ?]|(? & _)]; [left; by rewrite Hu|done]. }
    split; [done|]. right. simpl. split; [done|].
    split; [unfold in_bounds in Hoob; lia|].
    eexists. split; [done|].
    rewrite array_set_length, length_replicate.
    unfold in_bounds, CHUNK_SIZE_XZ in *. lia.
  - destruct Hrep as [[? ?]|(_ & Hc & d & Hd & Hlen)]; [congruence|].
    split; [done|]. right. simpl. rewrite Hu. split; [done|]. split; [done|].
    rewrite Hd. simpl. eexists. split; [done|]. by rewrite array_set_length.
Qed.

Lemma wf_set_voxels vd ws : wf vd → wf (set_voxels vd ws).
Proof.
  unfold set_voxels. revert vd.
  induction ws as [|[[[x y] z] type] ws IH]; intros vd Hwf; [done|].
  simpl. apply IH. by apply wf_set_voxel.
Qed.

(** *** Reads after writes *)

Lemma get_voxel_in_bounds vd x y z :
  wf vd → in_bounds vd x y z → is_Some (get_voxel vd x y z).
Proof.
  intros [Ht Hrep] Hin. unfold get_voxel.
  destruct Hrep as [[-> _]|(-> & _ & d & -> & Hlen)]; [done|].
  simpl. apply array_get_is_Some.
  pose proof (get_index_range _ _ _ _ Hin). unfold CHUNK_SIZE_XZ in *. lia.
Qed.

Lemma get_set_voxel_eq vd x y z type :
  wf vd → in_bounds vd x y z →
  get_voxel (set_voxel vd x y z type) x y z = Some type.
Proof.
  intros [Ht Hrep] Hin. unfold set_voxel.
  pose proof (get_index_range _ _ _ _ Hin) as Hidx.
  rewrite (proj2 (out_of_bounds_false _ _ _ _) Hin).
  unfold get_voxel, get_index, CHUNK_SIZE_XZ in *.
  destruct Hrep as [[Hu Hd]|(Hu & _ & d & Hd & Hlen)]; rewrite Hu; simpl.
  - case_bool_decide as Heq; [rewrite Hu; by subst|]. simpl.
    apply array_get_set_eq. rewrite length_replicate. lia.
  - rewrite Hu, Hd. simpl. apply array_get_set_eq. lia.
Qed.

Lemma get_set_voxel_ne vd x y z type x' y' z' :
  wf vd → in_bounds vd x' y' z' → (x', y', z') ≠ (x, y, z) →
  get_voxel (set_voxel vd x y z type) x' y' z' = get_voxel vd x' y' z'.
Proof.
  intros [Ht Hrep] Hin' Hne. unfold set_voxel.
  destruct (out_of_bounds vd x y z) eqn:Hoob; [done|].
  apply out_of_bounds_false in Hoob.
  assert (get_index vd x y z ≠ get_index vd x' y' z') as Hidx.
  { intros Heq. apply get_index_inj in Heq; [|done..].
    destruct Heq as (-> & -> & ->). done. }
  pose proof (get_index_range _ _ _ _ Hin') as Hr.
  unfold get_voxel, get_index, CHUNK_SIZE_XZ in *.
  destruct Hrep as [[Hu Hd]|(Hu & _ & d & Hd & Hlen)]; rewrite Hu; simpl.
  - case_bool_decide as Heq; [by rewrite Hu|]. simpl.
    rewrite array_get_set_ne by done.
    apply array_get_replicate. lia.
  - rewrite Hu, Hd. simpl. by rewrite array_get_set_ne.
Qed.

Lemma set_voxel_out_of_bounds vd x y z type :
  ¬ in_bounds vd x y z → set_voxel vd x y z type = vd.
Proof.
  intros Hn. unfold set_voxel.
  by rewrite (proj2 (out_of_bounds_true _ _ _ _) Hn).
Qed.

End voxel_data_facts.

(** ** VoxelData: access outside the chunk, promotion, the optimize pass *)

Section voxel_data_claims.

Import VoxelData.

Implicit Types vd : VoxelData.t.

(** C1, as stated, fails: the inline [get_voxel] has no bounds check.
    On a storage filled with stone, the read at [(-1, 0, 0)], outside
    the chunk, answers stone and not air; so the claim does not hold
    for every coordinate and storage state. *)
Lemma get_voxel_out_of_bounds_not_air :
  (¬ in_bounds (fill (new 16) STONE) (-1) 0 0 ∧
   get_voxel (fill (new 16) STONE) (-1) 0 0 = Some STONE) ∧
  ¬ (∀ vd x y z, ¬ in_bounds vd x y z →
       get_voxel vd x y z = Some AIR ∧
       ∀ type, set_voxel vd x y z type = vd).
Proof.
  assert (¬ in_bounds (fill (new 16) STONE) (-1) 0 0) as Hout
    by (unfold in_bounds; lia).
  split; [split; [exact Hout|reflexivity]|].
  intros H. destruct (H _ _ _ _ Hout) as [Hget _]. discriminate Hget.
Qed.

(** C1, amended: outside the chunk bounds the bounds-checked accessor
    [_get_voxel] (the method bound as "get_voxel") answers air and
    [set_voxel] leaves the storage as it is, for every storage state;
    the inline [get_voxel] does not check: on a uniform storage it
    answers the uniform value at every coordinate. *)
Theorem out_of_bounds_access vd x y z :
  ¬ in_bounds vd x y z →
  _get_voxel vd x y z = Some AIR ∧
  (∀ type, set_voxel vd x y z type = vd) ∧
  (is_uniform vd = true → get_voxel vd x y z = Some (uniform_value vd)).
Proof.
  intros Hn. split; [|split].
  - unfold _get_voxel. by rewrite (proj2 (out_of_bounds_true _ _ _ _) Hn).
  - intros type. by apply set_voxel_out_of_bounds.
  - intros Hu. unfold get_voxel. by rewrite Hu.
Qed.

Lemma out_of_bounds_access_witness :
  ¬ in_bounds (set_voxel (new 16) 1 2 3 STONE) 16 0 0 ∧
  _get_voxel (set_voxel (new 16) 1 2 3 STONE) 16 0 0 = Some AIR ∧
  (∀ type, set_voxel (set_voxel (new 16) 1 2 3 STONE) 16 0 0 type
           = set_voxel (new 16) 1 2 3 STONE) ∧
  (is_uniform (set_voxel (new 16) 1 2 3 STONE) = true →
   get_voxel (set_voxel (new 16) 1 2 3 STONE) 16 0 0
   = Some (uniform_value (set_voxel (new 16) 1 2 3 STONE))).
Proof.
  assert (¬ in_bounds (set_voxel (new 16) 1 2 3 STONE) 16 0 0) as Hout
    by (unfold in_bounds, CHUNK_SIZE_XZ; simpl; lia).
  split; [exact Hout|].
  exact (out_of_bounds_access (set_voxel (new 16) 1 2 3 STONE) 16 0 0 Hout).
Defined.

(** C6: on a uniform storage of value [A], a write of [B ≠ A] at an
    in-bounds [p] allocates the dense buffer filled with [A] and then
    stores [B] at [p]; afterwards [p] reads [B] and every other
    in-bounds cell reads [A].  A write of [A] itself returns the
    storage as it was: still uniform, no buffer. *)
Theorem set_voxel_promotes_uniform vd A B x y z :
  wf vd → is_uniform vd = true → uniform_value vd = A →
  in_bounds vd x y z → B ≠ A →
  let vd' := set_voxel vd x y z B in
  is_uniform vd' = false ∧
  data vd' = Some (array_set (replicate (Z.to_nat (total_voxels vd)) A)
                     (get_index vd x y z) B) ∧
  get_voxel vd' x y z = Some B ∧
  (∀ x' y' z', in_bounds vd x' y' z' → (x', y', z') ≠ (x, y, z) →
     get_voxel vd' x' y' z' = Some A) ∧
  set_voxel vd x y z A = vd.
Proof.
  intros Hwf Hu HA Hin HB vd'.
  assert (out_of_bounds vd x y z = false) as Hoob
    by by apply out_of_bounds_false.
  split; [|split; [|split; [|split]]].
  - unfold vd', set_voxel. rewrite Hoob, Hu. simpl.
    rewrite bool_decide_false by congruence. done.
  - unfold vd', set_voxel. rewrite Hoob, Hu. simpl.
    rewrite bool_decide_false by congruence. simpl. by rewrite HA.
  - by apply get_set_voxel_eq.
  - intros x' y' z' Hin' Hne. unfold vd'.
    rewrite get_set_voxel_ne by done.
    unfold get_voxel. by rewrite Hu, HA.
  - unfold set_voxel. rewrite Hoob, Hu. simpl.
    by rewrite bool_decide_true.
Qed.

Lemma set_voxel_promotes_uniform_witness :
  is_uniform (set_voxel (fill (new 16) STONE) 1 2 3 DIRT) = false ∧
  data (set_voxel (fill (new 16) STONE) 1 2 3 DIRT)
  = Some (array_set
            (replicate (Z.to_nat (total_voxels (fill (new 16) STONE))) STONE)
            (get_index (fill (new 16) STONE) 1 2 3) DIRT) ∧
  get_voxel (set_voxel (fill (new 16) STONE) 1 2 3 DIRT) 1 2 3 = Some DIRT ∧
  (∀ x' y' z', in_bounds (fill (new 16) STONE) x' y' z' →
     (x', y', z') ≠ (1, 2, 3) →
     get_voxel (set_voxel (fill (new 16) STONE) 1 2 3 DIRT) x' y' z'
     = Some STONE) ∧
  set_voxel (fill (new 16) STONE) 1 2 3 STONE = fill (new 16) STONE.
Proof.
  apply (set_voxel_promotes_uniform (fill (new 16) STONE) STONE DIRT 1 2 3).
  - split; [reflexivity|]. left. split; reflexivity.
  - reflexivity.
  - reflexivity.
  - unfold in_bounds, CHUNK_SIZE_XZ. simpl. lia.
  - discriminate.
Defined.

(** *** The optimize pass *)

Lemma scan_uniform_spec d first_value i n :
  scan_uniform d first_value i n = true ↔
  ∀ j, i ≤ j < i + Z.of_nat n → array_get d j = Some first_value.
Proof.
  revert i. induction n as [|n IH]; intros i; simpl.
  - split; [intros _ j Hj; lia|done].
  - case_bool_decide as Hi.
    + rewrite IH. split.
      * intros H j Hj. destruct (decide (j = i)) as [->|]; [done|].
        apply H. lia.
      * intros H j Hj. apply H. lia.
    + split; [done|]. intros H. destruct Hi. apply H. lia.
Qed.

Lemma all_cells_equal_uniform vd :
  is_uniform vd = true → all_cells_equal vd.
Proof.
  intros Hu. exists (uniform_value vd). intros x y z _.
  unfold get_voxel. by rewrite Hu.
Qed.

(** On a dense storage the cells are all equal exactly when the whole
    buffer repeats its first entry. *)
Lemma all_cells_equal_dense vd d first_value :
  wf vd → is_uniform vd = false → data vd = Some d →
  array_get d 0 = Some first_value →
  all_cells_equal vd ↔
  ∀ j, 1 ≤ j < 1 + Z.of_nat (Z.to_nat (total_voxels vd - 1)) →
       array_get d j = Some first_value.
Proof.
  intros [Ht Hrep] Hu Hd H0.
  destruct Hrep as [[? _]|(_ & Hc & d' & Hd' & Hlen)]; [congruence|].
  assert (d' = d) as -> by congruence.
  assert (in_bounds vd 0 0 0) as Hin0
    by (unfold in_bounds, CHUNK_SIZE_XZ; lia).
  assert (get_index vd 0 0 0 = 0) as Hidx0 by (unfold get_index; lia).
  split.
  - intros [v Hv] j Hj.
    assert (v = first_value) as ->.
    { specialize (Hv 0 0 0 Hin0). unfold get_voxel in Hv.
      rewrite Hu, Hd, Hidx0 in Hv. simpl in Hv. congruence. }
    destruct (get_index_surj vd j) as (x & y & z & Hin & Hj').
    { unfold CHUNK_SIZE_XZ in *. lia. }
    specialize (Hv x y z Hin). unfold get_voxel in Hv.
    rewrite Hu, Hd, Hj' in Hv. done.
  - intros H. exists first_value. intros x y z Hin.
    pose proof (get_index_range _ _ _ _ Hin) as Hr.
    unfold get_voxel. rewrite Hu, Hd. simpl.
    destruct (decide (get_index vd x y z = 0)) as [->|]; [done|].
    apply H. unfold CHUNK_SIZE_XZ in *. lia.
Qed.

(** The optimize pass changes no in-bounds read. *)
Lemma optimize_pass_get_voxel vd x y z :
  wf vd → in_bounds vd x y z →
  get_voxel (check_and_optimize_uniform vd).2 x y z = get_voxel vd x y z.
Proof.
  intros Hwf Hin. unfold check_and_optimize_uniform.
  destruct (is_uniform vd) eqn:Hu; [done|].
  pose proof Hwf as [Ht [[? _]|(_ & Hc & d & Hd & Hlen)]]; [congruence|].
  rewrite Hd.
  destruct (array_get d 0) as [first_value|] eqn:H0; [|done].
  destruct (scan_uniform d first_value 1 (Z.to_nat (total_voxels vd - 1)))
    eqn:Hscan; [|done].
  rewrite scan_uniform_spec in Hscan.
  pose proof (get_index_range _ _ _ _ Hin) as Hr.
  unfold get_voxel. simpl. rewrite Hu, Hd. simpl.
  destruct (decide (get_index vd x y z = 0)) as [->|]; [done|].
  symmetry. apply Hscan. unfold CHUNK_SIZE_XZ in *. lia.
Qed.

Lemma wf_check_and_optimize_uniform vd :
  wf vd → wf (check_and_optimize_uniform vd).2.
Proof.
  intros Hwf. pose proof Hwf as [Ht _]. unfold check_and_optimize_uniform.
  repeat case_match; simpl; try done; by split; [|left].
Qed.

Lemma wf_initialize vd chunk_y : wf (initialize vd chunk_y).
Proof. apply wf_new. Qed.

Lemma optimize_pass_chunk_size_y vd :
  chunk_size_y (check_and_optimize_uniform vd).2 = chunk_size_y vd.
Proof. unfold check_and_optimize_uniform. by repeat case_match. Qed.

(** C5: on every well-formed storage, and so after any sequence of
    [set_voxel] calls on one, [check_and_optimize_uniform] answers
    [true] exactly when all in-bounds cells hold one common value, and
    then leaves a uniform storage without buffer; it answers [false]
    without any change otherwise; every in-bounds read is the same
    after the call as before; and afterwards [is_uniform] holds iff
    all in-bounds cells are equal. *)
Theorem check_and_optimize_uniform_spec vd ws :
  wf vd →
  let vd1 := set_voxels vd ws in
  let r := (check_and_optimize_uniform vd1).1 in
  let vd2 := (check_and_optimize_uniform vd1).2 in
  (r = true ↔ all_cells_equal vd1) ∧
  (r = true → is_uniform vd2 = true ∧ data vd2 = None) ∧
  (r = false → vd2 = vd1) ∧
  (∀ x y z, in_bounds vd1 x y z →
     get_voxel vd2 x y z = get_voxel vd1 x y z) ∧
  (is_uniform vd2 = true ↔ all_cells_equal vd1).
Proof.
  intros Hwf0 vd1 r vd2.
  assert (wf vd1) as Hwf by by apply wf_set_voxels.
  assert (∀ x y z, in_bounds vd1 x y z →
            get_voxel vd2 x y z = get_voxel vd1 x y z) as Hsame
    by (intros x y z Hin; by apply optimize_pass_get_voxel).
  clearbody vd1. clear Hwf0 vd ws.
  revert Hsame. unfold r, vd2, check_and_optimize_uniform. clear r vd2.
  destruct (is_uniform vd1) eqn:Hu.
  { (* already uniform *)
    pose proof (all_cells_equal_uniform _ Hu) as Hall.
    destruct Hwf as [_ [[_ Hd]|(? & _)]]; [|congruence].
    simpl. rewrite Hu. repeat split; auto. }
  pose proof Hwf as [Ht [[? _]|(_ & Hc & d & Hd & Hlen)]]; [congruence|].
  rewrite Hd.
  destruct (array_get_is_Some d 0) as [first_value H0];
    [unfold CHUNK_SIZE_XZ in *; lia|].
  rewrite H0.
  pose proof (all_cells_equal_dense vd1 d first_value Hwf Hu Hd H0) as Hall.
  rewrite <- scan_uniform_spec in Hall.
  destruct (scan_uniform d first_value 1 (Z.to_nat (total_voxels vd1 - 1)))
    eqn:Hscan; simpl; intros Hsame.
  - assert (all_cells_equal vd1) as Heq by by apply Hall.
    repeat split; auto; discriminate.
  - rewrite Hu.
    assert (¬ all_cells_equal vd1) as Hneq
      by (rewrite Hall; congruence).
    repeat split; auto; try discriminate; intros; by destruct Hneq.
Qed.

Lemma check_and_optimize_uniform_spec_witness :
  wf (new 16) ∧
  let vd1 := set_voxels (new 16) [(1, 2, 3, STONE); (1, 2, 3, AIR)] in
  let r := (check_and_optimize_uniform vd1).1 in
  let vd2 := (check_and_optimize_uniform vd1).2 in
  (r = true ↔ all_cells_equal vd1) ∧
  (r = true → is_uniform vd2 = true ∧ data vd2 = None) ∧
  (r = false → vd2 = vd1) ∧
  (∀ x y z, in_bounds vd1 x y z →
     get_voxel vd2 x y z = get_voxel vd1 x y z) ∧
  (is_uniform vd2 = true ↔ all_cells_equal vd1).
Proof.
  assert (wf (new 16)) as Hwf
    by (split; [reflexivity|left; split; reflexivity]).
  split; [exact Hwf|].
  exact (check_and_optimize_uniform_spec (new 16)
           [(1, 2, 3, STONE); (1, 2, 3, AIR)] Hwf).
Defined.

End voxel_data_claims.

(** ** ThreadPool: submission and backpressure *)

Section thread_pool_claims.

Import ThreadPool.

Context {Task : Type}.

Implicit Types p : ThreadPool.t Task.

(** C7: [submit_job] answers [false] and returns the pool as it was
    (same queue, same pending counter) whenever the stop flag is set or
    the pending count has reached [max_pending_jobs]; otherwise it
    answers [true], the queue holds the new job on top of its former
    content, and the pending counter has grown by one, nothing else
    being changed.  A fresh pool has the maximum 1000. *)
Theorem submit_job_backpressure p type task priority :
  (should_stop p = true ∨ max_pending_jobs p ≤ pending_jobs p →
     submit_job p type task priority = (false, p)) ∧
  (should_stop p = false ∧ pending_jobs p < max_pending_jobs p →
     let p' := (submit_job p type task priority).2 in
     (submit_job p type task priority).1 = true ∧
     job_queue p' = mkJob type task priority :: job_queue p ∧
     pending_jobs p' = pending_jobs p + 1 ∧
     should_stop p' = false ∧
     max_pending_jobs p' = max_pending_jobs p ∧
     active_jobs p' = active_jobs p ∧
     num_threads p' = num_threads p) ∧
  max_pending_jobs (@new Task) = 1000.
Proof.
  split; [|split; [|done]].
  - intros [Hstop|Hfull]; unfold submit_job.
    + by rewrite Hstop.
    + destruct (should_stop p); [done|].
      by rewrite (proj2 (Z.geb_le _ _) Hfull).
  - intros [Hstop Hroom]. unfold submit_job. rewrite Hstop.
    destruct (pending_jobs p >=? max_pending_jobs p) eqn:Hge.
    + apply Z.geb_le in Hge. lia.
    + simpl. by repeat split.
Qed.

(** Past the limit the counter stays where it is, however many jobs
    are offered. *)
Lemma submit_job_full_stays_full p type task priority :
  max_pending_jobs p ≤ pending_jobs p →
  pending_jobs (submit_job p type task priority).2 = pending_jobs p.
Proof.
  intros Hfull. unfold submit_job.
  destruct (should_stop p); [done|].
  by rewrite (proj2 (Z.geb_le _ _) Hfull).
Qed.

End thread_pool_claims.

(** ** VoxelWorld: mesh installation and voxel queries *)

Section voxel_world_claims.

Import VoxelWorld.

Implicit Types w : VoxelWorld.t.

(** C4, as stated, fails: with a null mesh the installation step
    returns before it touches the chunk.  The chunk of
    [one_generating_chunk] is still [GENERATING] afterwards. *)
Lemma install_null_mesh_not_active :
  create_chunk_mesh_instance one_generating_chunk (0, 0, 0) None
    = Some one_generating_chunk ∧
  Chunk.state <$> (chunks one_generating_chunk !! (0, 0, 0)) = Some GENERATING ∧
  ¬ (∀ w pos chunk, chunks w !! pos = Some chunk →
       ∃ w' chunk', create_chunk_mesh_instance w pos None = Some w' ∧
         chunk_mesh_instances w' = chunk_mesh_instances w ∧
         chunks w' !! pos = Some chunk' ∧
         Chunk.state chunk' = ACTIVE).
Proof.
  split; [reflexivity|]. split; [reflexivity|].
  intros H.
  destruct (H one_generating_chunk (0, 0, 0) _ eq_refl)
    as (w' & chunk' & Hw' & _ & Hc & Hst).
  simpl in Hw'. injection Hw' as <-.
  vm_compute in Hc. injection Hc as <-. discriminate Hst.
Qed.

(** C4, amended: when mesh installation runs with a null mesh for a
    coordinate present in the chunk table, it is a no-op: no render
    handle is created (the handle table and the scene stay as they
    were) and the chunk, its state included, is left unchanged. *)
Theorem install_null_mesh_noop w pos chunk :
  chunks w !! pos = Some chunk →
  ∃ w', create_chunk_mesh_instance w pos None = Some w' ∧
    chunk_mesh_instances w' = chunk_mesh_instances w ∧
    children w' = children w ∧
    chunks w' = chunks w ∧
    chunks w' !! pos = Some chunk.
Proof. intros Hc. exists w. by repeat split. Qed.

Lemma install_null_mesh_noop_witness :
  chunks one_generating_chunk !! (0, 0, 0)
    = Some (Chunk.set_state (Chunk.initialize Chunk.new (0, 0, 0) 16) GENERATING) ∧
  ∃ w', create_chunk_mesh_instance one_generating_chunk (0, 0, 0) None = Some w' ∧
    chunk_mesh_instances w' = chunk_mesh_instances one_generating_chunk ∧
    children w' = children one_generating_chunk ∧
    chunks w' = chunks one_generating_chunk ∧
    chunks w' !! (0, 0, 0)
      = Some (Chunk.set_state (Chunk.initialize Chunk.new (0, 0, 0) 16) GENERATING).
Proof.
  split; [reflexivity|].
  apply (install_null_mesh_noop one_generating_chunk (0, 0, 0)). reflexivity.
Defined.

(** With a mesh, a chunk that is present and has its storage gets a
    render handle at its world origin and becomes active. *)
Lemma install_mesh_activates w pos chunk vd m :
  chunks w !! pos = Some chunk → Chunk.voxel_data chunk = Some vd →
  ∃ w', create_chunk_mesh_instance w pos (Some m) = Some w' ∧
    chunks w' !! pos = Some (Chunk.set_state (Chunk.set_mesh chunk (Some m)) ACTIVE) ∧
    chunk_mesh_instances w' !! pos
    = Some (mkMeshInstance3D m
              (mkVector3 (inject_Z (v3i_x pos * CHUNK_SIZE_XZ))
                 (inject_Z (v3i_y pos * VoxelData.chunk_size_y vd))
                 (inject_Z (v3i_z pos * CHUNK_SIZE_XZ)))).
Proof.
  intros Hc Hvd. unfold create_chunk_mesh_instance. rewrite Hc, Hvd. simpl.
  eexists. split; [done|]. simpl.
  assert (chunks (remove_chunk_mesh_instance w pos) = chunks w) as ->
    by (unfold remove_chunk_mesh_instance; by case_match).
  by rewrite !lookup_insert_eq.
Qed.

(** C8: if the coordinate is absent from the chunk table, installation
    is a no-op for any mesh: the world is returned as it was, so the
    entry is not recreated, no render handle is created, and both
    tables (and the scene) are unchanged. *)
Theorem install_absent_chunk_noop w pos mesh :
  chunks w !! pos = None →
  ∃ w', create_chunk_mesh_instance w pos mesh = Some w' ∧
    w' = w ∧
    chunks w' !! pos = None ∧
    chunk_mesh_instances w' !! pos = chunk_mesh_instances w !! pos ∧
    chunks w' = chunks w ∧
    chunk_mesh_instances w' = chunk_mesh_instances w ∧
    children w' = children w.
Proof.
  intros Hc. exists w. unfold create_chunk_mesh_instance. rewrite Hc.
  by destruct mesh.
Qed.

Lemma install_absent_chunk_noop_witness :
  chunks one_generating_chunk !! (1, 0, 0) = None ∧
  ∃ w', create_chunk_mesh_instance one_generating_chunk (1, 0, 0)
          (Some (mkArrayMesh [] [] [] [] [])) = Some w' ∧
    w' = one_generating_chunk ∧
    chunks w' !! (1, 0, 0) = None ∧
    chunk_mesh_instances w' !! (1, 0, 0)
      = chunk_mesh_instances one_generating_chunk !! (1, 0, 0) ∧
    chunks w' = chunks one_generating_chunk ∧
    chunk_mesh_instances w' = chunk_mesh_instances one_generating_chunk ∧
    children w' = children one_generating_chunk.
Proof.
  split; [reflexivity|].
  apply (install_absent_chunk_noop one_generating_chunk (1, 0, 0)). reflexivity.
Defined.

(** C10: a query at a world position whose chunk coordinate is not in
    the chunk table answers air and returns the world as it was: no
    chunk is created, loaded or modified. *)
Theorem get_voxel_at_unloaded w world_pos :
  get_chunk_at w (world_to_chunk_pos world_pos) = None →
  get_voxel_at w world_pos = (Some AIR, w) ∧
  chunks (get_voxel_at w world_pos).2 = chunks w ∧
  get_chunk_at (get_voxel_at w world_pos).2 (world_to_chunk_pos world_pos) = None.
Proof.
  intros Hc. unfold get_voxel_at. rewrite Hc. done.
Qed.

Lemma get_voxel_at_unloaded_witness :
  get_chunk_at one_generating_chunk
    (world_to_chunk_pos (mkVector3 (-5 # 2) 70 100)) = None ∧
  get_voxel_at one_generating_chunk (mkVector3 (-5 # 2) 70 100)
    = (Some AIR, one_generating_chunk) ∧
  chunks (get_voxel_at one_generating_chunk (mkVector3 (-5 # 2) 70 100)).2
    = chunks one_generating_chunk ∧
  get_chunk_at (get_voxel_at one_generating_chunk (mkVector3 (-5 # 2) 70 100)).2
    (world_to_chunk_pos (mkVector3 (-5 # 2) 70 100)) = None.
Proof.
  split; [reflexivity|].
  apply (get_voxel_at_unloaded one_generating_chunk). reflexivity.
Defined.

End voxel_world_claims.

(** ** TerrainGenerator: the height cache *)

Section height_cache_claims.

Import TerrainGenerator.

Variable get_noise_2d : FastNoiseLite → Z → Z → Q.

Implicit Types g : TerrainGenerator.t.

Lemma get_height_at_miss g wx wz :
  height_cache g !! make_cache_key wx wz = None →
  get_height_at get_noise_2d g wx wz
  = (computed_height get_noise_2d g wx wz,
     set_cache g (<[make_cache_key wx wz := computed_height get_noise_2d g wx wz]>
                    (height_cache g))).
Proof. intros H. unfold get_height_at. by rewrite H. Qed.

Lemma get_height_at_hit g wx wz h :
  height_cache g !! make_cache_key wx wz = Some h →
  get_height_at get_noise_2d g wx wz = (h, g).
Proof. intros H. unfold get_height_at. by rewrite H. Qed.

(** A lookup returns what the cache holds under the key afterwards,
    keeps every entry that was there, and changes nothing else. *)
Lemma get_height_at_cache g wx wz :
  let r := get_height_at get_noise_2d g wx wz in
  height_cache r.2 !! make_cache_key wx wz = Some r.1 ∧
  height_cache g ⊆ height_cache r.2 ∧
  params r.2 = params g ∧ noise r.2 = noise g.
Proof.
  unfold get_height_at.
  destruct (height_cache g !! make_cache_key wx wz) as [h|] eqn:Hk; simpl.
  - done.
  - split; [by rewrite lookup_insert_eq|].
    split; [by apply insert_subseteq|done].
Qed.

(** A second lookup of the same column returns the stored value and
    leaves the generator as it is. *)
Lemma get_height_at_repeat g wx wz :
  let r := get_height_at get_noise_2d g wx wz in
  get_height_at get_noise_2d r.2 wx wz = (r.1, r.2).
Proof.
  intros r. destruct (get_height_at_cache g wx wz) as (Hk & _).
  by apply get_height_at_hit.
Qed.

(** For a non-negative [wz] the key is the pair packed as intended:
    the low 32 bits of [wx] above the 32 bits of [wz]. *)
Lemma make_cache_key_nonneg_z wx wz :
  0 ≤ wz < 2 ^ 31 →
  make_cache_key wx wz = (wx mod 2 ^ 32) * 2 ^ 32 + wz.
Proof.
  intros Hwz. unfold make_cache_key, to_uint64.
  rewrite (Z.mod_small wz) by lia.
  rewrite Z.shiftl_mul_pow2 by lia.
  assert ((wx mod 2 ^ 64 * 2 ^ 32) mod 2 ^ 64 = (wx mod 2 ^ 32) * 2 ^ 32) as ->.
  { change (2 ^ 64) with (2 ^ 32 * 2 ^ 32) at 2.
    rewrite Z.mul_mod_distr_r by lia.
    f_equal. apply Zdiv.Z.mod_mod_divide. exists (2 ^ 32). reflexivity. }
  assert (Z.land (wx mod 2 ^ 32 * 2 ^ 32) wz = 0) as Hland.
  { apply Z.bits_inj'. intros n Hn. rewrite Z.land_spec, Z.bits_0.
    destruct (decide (n < 32)) as [Hlo|Hhi].
    - rewrite Z.mul_pow2_bits_low by lia. reflexivity.
    - rewrite (Z.bits_above_log2 wz n); [apply andb_false_r|lia|].
      destruct (decide (wz = 0)) as [->|Hne]; [simpl; lia|].
      apply Z.log2_lt_pow2; [lia|].
      assert (2 ^ 32 ≤ 2 ^ n)%Z by (apply Z.pow_le_mono_r; lia). lia. }
  rewrite <- Z.lxor_lor by exact Hland.
  symmetry. apply Z.add_nocarry_lxor. exact Hland.
Qed.

Lemma int32_mod_pow32 wx :
  - 2 ^ 31 ≤ wx < 2 ^ 31 →
  wx mod 2 ^ 32 = if decide (0 ≤ wx) then wx else wx + 2 ^ 32.
Proof.
  intros Hx. case_decide.
  - apply Z.mod_small. lia.
  - symmetry. apply (Zmod_unique wx (2 ^ 32) (-1)); lia.
Qed.

(** So columns with non-negative [wz] never share a key. *)
Lemma make_cache_key_inj_nonneg_z wx wz wx' wz' :
  - 2 ^ 31 ≤ wx < 2 ^ 31 → - 2 ^ 31 ≤ wx' < 2 ^ 31 →
  0 ≤ wz < 2 ^ 31 → 0 ≤ wz' < 2 ^ 31 →
  make_cache_key wx wz = make_cache_key wx' wz' →
  wx = wx' ∧ wz = wz'.
Proof.
  intros Hx Hx' Hz Hz'. rewrite !make_cache_key_nonneg_z by done.
  rewrite !int32_mod_pow32 by done.
  repeat case_decide; lia.
Qed.

(** The packed key of a column with negative [wz] does not depend on
    [wx]: the sign extension of [wz] fills the upper 32 bits, where
    [wx] was meant to go. *)
Lemma make_cache_key_negative_z wx wx' wz :
  - 2 ^ 31 ≤ wz < 0 → make_cache_key wx wz = make_cache_key wx' wz.
Proof.
  intros Hwz.
  assert (∀ a, Z.lor (Z.shiftl (to_uint64 a) 32 mod 2 ^ 64) (to_uint64 wz)
               = to_uint64 wz) as Hkey.
  { intros a. apply Z.bits_inj'. intros n Hn.
    rewrite Z.lor_spec.
    destruct (decide (n < 32)) as [Hlo|Hhi].
    - rewrite Z.mod_pow2_bits_low by lia.
      rewrite Z.shiftl_spec_low by lia. done.
    - destruct (decide (n < 64)) as [Hmid|Hup].
      + unfold to_uint64 at 2 3.
        rewrite !(Z.mod_pow2_bits_low wz) by lia.
        rewrite (Z.bits_above_log2_neg wz n); [by rewrite orb_true_r|lia|].
        destruct (decide (wz = -1)) as [->|]; [simpl; lia|].
        apply Z.log2_lt_pow2; [lia|].
        assert (2 ^ 31 ≤ 2 ^ n)%Z; [|lia].
        apply Z.pow_le_mono_r; lia.
      + rewrite Z.mod_pow2_bits_high by lia.
        unfold to_uint64. rewrite Z.mod_pow2_bits_high by lia. done. }
  unfold make_cache_key. by rewrite !Hkey.
Qed.

(** Once a column with negative [wz] has been looked up, the lookup of
    any other column with the same [wz] returns the first column's
    height. *)
Lemma get_height_at_negative_z_shared g wx wx' wz :
  - 2 ^ 31 ≤ wz < 0 →
  let r := get_height_at get_noise_2d g wx wz in
  get_height_at get_noise_2d r.2 wx' wz = (r.1, r.2).
Proof.
  intros Hwz r.
  destruct (get_height_at_cache g wx wz) as (Hk & _).
  apply get_height_at_hit.
  by rewrite (make_cache_key_negative_z wx' wx wz).
Qed.

End height_cache_claims.

(** C2 fails on the code: the columns [(0, -1)] and [(1, -1)] are packed
    into the same key, so with the default parameters and a noise that
    is 0 at [x = 0] and 1/2 elsewhere, the lookup of [(1, -1)] after
    [(0, -1)] answers 64, the height of [(0, -1)], where
    [base_height + noise2d(1, -1) * max_height_variation] is 76. *)
Theorem height_cache_key_collision :
  TerrainGenerator.make_cache_key 0 (-1) = TerrainGenerator.make_cache_key 1 (-1) ∧
  (0, -1) ≠ (1, -1) ∧
  let r1 := TerrainGenerator.get_height_at sample_noise TerrainGenerator.new 0 (-1) in
  let r2 := TerrainGenerator.get_height_at sample_noise r1.2 1 (-1) in
  r1.1 = 64%Q ∧ r2.1 = 64%Q ∧
  (TerrainGenerator.computed_height sample_noise r1.2 1 (-1) == 76)%Q ∧
  ¬ (r2.1 == TerrainGenerator.computed_height sample_noise r1.2 1 (-1))%Q.
Proof.
  split; [reflexivity|]. split; [discriminate|].
  vm_compute. repeat split; try discriminate. 
Qed.

(** ** Arrays: a constant written at a list of indices *)

Section array_fill.
Context {A : Type} (a : A).

Lemma array_fill_length (m : list A) (js : list Z) :
  length (foldl (λ m i, array_set m i a) m js) = length m.
Proof.
  revert m. induction js as [|i js IH]; intros m; [done|].
  simpl. by rewrite IH, array_set_length.
Qed.

Lemma array_fill_get (m : list A) (js : list Z) (j : Z) :
  (∀ i, i ∈ js → 0 ≤ i < Z.of_nat (length m)) →
  array_get (foldl (λ m i, array_set m i a) m js) j
  = if decide (j ∈ js) then Some a else array_get m j.
Proof.
  revert m. induction js as [|i js IH]; intros m Hr.
  - destruct (decide (j ∈ [])) as [Hj%elem_of_nil|]; done.
  - cbn [foldl]. rewrite IH.
    2:{ intros i' Hi'. rewrite array_set_length. apply Hr. by right. }
    destruct (decide (j ∈ js)) as [Hj|Hj].
    + rewrite decide_True; [done|]. by right.
    + destruct (decide (j = i)) as [->|Hne].
      * rewrite decide_True by left.
        apply array_get_set_eq. apply Hr. left.
      * rewrite decide_False.
        -- by apply array_get_set_ne.
        -- intros [?|?]%elem_of_cons; done.
Qed.

Lemma array_fill_nested {H K} (idx : H → K → Z) (m : list A) hs ks :
  foldl (λ m h, foldl (λ m k, array_set m (idx h k) a) m ks) m hs
  = foldl (λ m i, array_set m i a) m (hs ≫= λ h, idx h <$> ks).
Proof.
  revert m. induction hs as [|h hs IH]; intros m; [done|].
  simpl. rewrite foldl_app, foldl_fmap. apply IH.
Qed.
End array_fill.

(** ** ChunkMeshBuilder: the greedy merge of one layer *)

Section greedy_merge.

Import ChunkMeshBuilder.

Variables (b : ChunkMeshBuilder.t) (face : Face) (w u_size v_size : Z).

Local Abbreviation cell mask u v := (array_get mask (u + v * u_size)).

Implicit Types mask : list VoxelTypeID.

Lemma cell_index_inj u v u' v' :
  0 ≤ u < u_size → 0 ≤ u' < u_size →
  u + v * u_size = u' + v' * u_size → u = u' ∧ v = v'.
Proof. intros Hu Hu' Heq. assert (v = v') by nia. subst. lia. Qed.

Lemma cell_index_range u v :
  0 ≤ u < u_size → 0 ≤ v < v_size → 0 ≤ u + v * u_size < u_size * v_size.
Proof. nia. Qed.

Lemma clear_area_length mask u0 v0 wd ht :
  length (clear_area mask u_size u0 v0 wd ht) = length mask.
Proof.
  unfold clear_area.
  rewrite (array_fill_nested AIR (λ h k, u0 + k + (v0 + h) * u_size)).
  apply array_fill_length.
Qed.

Lemma clear_area_cell mask u0 v0 wd ht u v :
  0 ≤ u0 → 0 ≤ v0 → u0 + wd ≤ u_size → v0 + ht ≤ v_size →
  u_size * v_size ≤ Z.of_nat (length mask) →
  0 ≤ u < u_size → 0 ≤ v < v_size →
  cell (clear_area mask u_size u0 v0 wd ht) u v
  = if decide (u0 ≤ u < u0 + wd ∧ v0 ≤ v < v0 + ht)
    then Some AIR else cell mask u v.
Proof.
  intros Hu0 Hv0 Hwd Hht Hlen Hu Hv. unfold clear_area.
  rewrite (array_fill_nested AIR (λ h k, u0 + k + (v0 + h) * u_size)).
  rewrite array_fill_get.
  - destruct (decide (u0 ≤ u < u0 + wd ∧ v0 ≤ v < v0 + ht)) as [Hin|Hout].
    + rewrite decide_True; [done|].
      apply list_elem_of_bind. exists (v - v0). split.
      * apply list_elem_of_fmap. exists (u - u0). split; [lia|].
        apply elem_of_seqZ. lia.
      * apply elem_of_seqZ. lia.
    + rewrite decide_False; [done|].
      intros (h & (k & Heq & Hk%elem_of_seqZ)%list_elem_of_fmap
                & Hh%elem_of_seqZ)%list_elem_of_bind.
      apply cell_index_inj in Heq; [|lia..]. lia.
  - intros i (h & (k & -> & Hk%elem_of_seqZ)%list_elem_of_fmap
                & Hh%elem_of_seqZ)%list_elem_of_bind.
    nia.
Qed.




(** A row segment of empty cells emits nothing. *)
Lemma merge_row_air fuel mask md v u :
  0 ≤ u →
  (∀ u', u ≤ u' < u_size → cell mask u' v = Some AIR) →
  merge_row fuel b face w u_size v_size v u (mask, md) = (mask, md).
Proof.
  revert u. induction fuel as [|fuel IH]; intros u Hu Hair; [done|].
  simpl. destruct (u <? u_size) eqn:Hlt; [|done].
  apply Z.ltb_lt in Hlt.
  rewrite Hair by lia. rewrite bool_decide_true by done.
  apply IH; [lia|]. intros u' Hu'. apply Hair. lia.
Qed.


(** Rows that are empty emit nothing and leave the mask as it is. *)
Lemma merge_rows_air mask md (rows : list Z) :
  (∀ v u, v ∈ rows → 0 ≤ u < u_size → cell mask u v = Some AIR) →
  foldl (λ st v, merge_row (Z.to_nat u_size) b face w u_size v_size v 0 st)
    (mask, md) rows = (mask, md).
Proof.
  induction rows as [|v rows IH]; intros Hair; [done|].
  cbn [foldl]. rewrite merge_row_air.
  - apply IH. intros v' u Hv' Hu. apply Hair; [by right|done].
  - done.
  - intros u Hu. apply Hair; [left|lia].
Qed.

Lemma add_quad_lengths md pos size f color :
  length (vertices (add_quad md pos size f color)) = (length (vertices md) + 12)%nat ∧
  length (indices (add_quad md pos size f color)) = (length (indices md) + 6)%nat.
Proof.
  unfold add_quad. destruct f; simpl; rewrite !length_app; simpl; lia.
Qed.


End greedy_merge.





(** ** TerrainGenerator: chunk population *)

Section terrain.
Import TerrainGenerator.
Variable get_noise_2d : FastNoiseLite → Z → Z → Q.
Implicit Types g : TerrainGenerator.t.


Lemma voxel_type_at_params g g' h nv wy :
  params g = params g' → voxel_type_at g h nv wy = voxel_type_at g' h nv wy.
Proof.
  intros Hp. unfold voxel_type_at, get_surface_block. by rewrite Hp.
Qed.


(** *** One column *)

Lemma in_bounds_chunk_size_y (vd vd' : VoxelData.t) x y z :
  VoxelData.chunk_size_y vd = VoxelData.chunk_size_y vd' →
  VoxelData.in_bounds vd x y z → VoxelData.in_bounds vd' x y z.
Proof. unfold VoxelData.in_bounds. by intros ->. Qed.

Section column.

Variables (g : TerrainGenerator.t) (x z chunk_world_y_base : Z)
  (height noise_value : Q).

Local Abbreviation vt y :=
  (voxel_type_at g height noise_value (chunk_world_y_base + y)).

Local Abbreviation column_step :=
  (generate_cell g x z chunk_world_y_base height noise_value).

Lemma generate_cell_wf vd y :
  VoxelData.wf vd →
  VoxelData.wf (column_step vd y) ∧
  VoxelData.chunk_size_y (column_step vd y) = VoxelData.chunk_size_y vd.
Proof.
  intros Hwf. unfold generate_cell. simpl. case_bool_decide; [|done].
  split; [by apply wf_set_voxel|apply set_voxel_chunk_size_y].
Qed.

Lemma column_fold_wf ys vd :
  VoxelData.wf vd →
  VoxelData.wf (foldl column_step vd ys) ∧
  VoxelData.chunk_size_y (foldl column_step vd ys) = VoxelData.chunk_size_y vd.
Proof.
  revert vd. induction ys as [|y ys IH]; intros vd Hwf; [done|].
  cbn [foldl]. destruct (generate_cell_wf vd y Hwf) as [Hwf1 Hcsy1].
  destruct (IH _ Hwf1) as [Hwf' Hcsy]. split; [done|congruence].
Qed.

Lemma column_fold_untouched ys vd x' y' z' :
  VoxelData.wf vd → VoxelData.in_bounds vd x' y' z' →
  ¬ (x' = x ∧ z' = z ∧ y' ∈ ys ∧ vt y' ≠ AIR) →
  VoxelData.get_voxel (foldl column_step vd ys) x' y' z'
  = VoxelData.get_voxel vd x' y' z'.
Proof.
  revert vd. induction ys as [|y ys IH]; intros vd Hwf Hin Hno; [done|].
  cbn [foldl]. destruct (generate_cell_wf vd y Hwf) as [Hwf1 Hcsy1].
  rewrite IH.
  - unfold generate_cell. simpl. case_bool_decide as Hvt; [|done].
    apply get_set_voxel_ne; [done..|].
    intros [= -> -> ->]. apply Hno. repeat split; [left|done].
  - done.
  - by eapply in_bounds_chunk_size_y.
  - intros (-> & -> & Hy & Hvt). apply Hno. repeat split; [by right|done].
Qed.

Lemma column_fold_written ys vd y :
  VoxelData.wf vd → VoxelData.in_bounds vd x y z →
  y ∈ ys → vt y ≠ AIR →
  VoxelData.get_voxel (foldl column_step vd ys) x y z = Some (vt y).
Proof.
  revert vd. induction ys as [|y0 ys IH]; intros vd Hwf Hin Hy Hvt.
  { by apply elem_of_nil in Hy. }
  cbn [foldl]. destruct (generate_cell_wf vd y0 Hwf) as [Hwf1 Hcsy1].
  assert (VoxelData.in_bounds (column_step vd y0) x y z) as Hin'
    by by eapply in_bounds_chunk_size_y.
  destruct (decide (y ∈ ys)) as [Hys|Hys]; [by apply IH|].
  apply elem_of_cons in Hy as [->|Hy]; [|done].
  rewrite column_fold_untouched; [|done..|].
  - unfold generate_cell. simpl. rewrite bool_decide_true by done.
    by apply get_set_voxel_eq.
  - intros (_ & _ & Hy & _). done.
Qed.

Lemma generate_column_wf vd :
  VoxelData.wf vd →
  VoxelData.wf (generate_column g vd x z chunk_world_y_base height noise_value) ∧
  VoxelData.chunk_size_y
    (generate_column g vd x z chunk_world_y_base height noise_value)
  = VoxelData.chunk_size_y vd.
Proof. apply column_fold_wf. Qed.

Lemma generate_column_cell vd x' y' z' :
  VoxelData.wf vd → VoxelData.in_bounds vd x' y' z' →
  VoxelData.get_voxel
    (generate_column g vd x z chunk_world_y_base height noise_value) x' y' z'
  = if decide (x' = x ∧ z' = z ∧ vt y' ≠ AIR)
    then Some (vt y') else VoxelData.get_voxel vd x' y' z'.
Proof.
  intros Hwf Hin. unfold generate_column.
  case_decide as Hc.
  - destruct Hc as (-> & -> & Hvt).
    apply column_fold_written; [done..| |done].
    apply elem_of_seqZ. unfold VoxelData.in_bounds in Hin. lia.
  - apply column_fold_untouched; [done..|].
    intros (-> & -> & _ & Hvt). by apply Hc.
Qed.

End column.

(** *** All columns *)

Lemma foldl_nested {A H K} (F : A → H → K → A) (a : A)
    (hs : list H) (ks : list K) :
  foldl (λ a h, foldl (λ a k, F a h k) a ks) a hs
  = foldl (λ a p, F a p.1 p.2) a (hs ≫= λ h, pair h <$> ks).
Proof.
  revert a. induction hs as [|h hs IH]; intros a; [done|].
  simpl. rewrite foldl_app, foldl_fmap. apply IH.
Qed.

Section columns.

Variables (world_x_base world_z_base chunk_world_y_base : Z).

Local Abbreviation key x z :=
  (make_cache_key (world_x_base + x) (world_z_base + z)).

Local Abbreviation column_type g h x y z :=
  (voxel_type_at g h
     (get_noise_2d (noise g) (world_x_base + x) (world_z_base + z))
     (chunk_world_y_base + y)).

Lemma generate_voxels_fold g0 vd0 (cols : list (Z * Z)) :
  VoxelData.wf vd0 → NoDup cols →
  ∃ g' vd',
    foldl (λ st p, generate_column_at get_noise_2d
                     world_x_base world_z_base chunk_world_y_base st p.1 p.2)
      (g0, vd0) cols = (g', vd') ∧
    params g' = params g0 ∧ noise g' = noise g0 ∧
    height_cache g0 ⊆ height_cache g' ∧
    VoxelData.wf vd' ∧
    VoxelData.chunk_size_y vd' = VoxelData.chunk_size_y vd0 ∧
    (∀ x y z, VoxelData.in_bounds vd0 x y z → (z, x) ∈ cols →
       ∃ h, height_cache g' !! key x z = Some h ∧
         VoxelData.get_voxel vd' x y z
         = if decide (column_type g0 h x y z ≠ AIR)
           then Some (column_type g0 h x y z)
           else VoxelData.get_voxel vd0 x y z) ∧
    (∀ x y z, VoxelData.in_bounds vd0 x y z → (z, x) ∉ cols →
       VoxelData.get_voxel vd' x y z = VoxelData.get_voxel vd0 x y z).
Proof.
  intros Hwf0. induction cols as [|[z0 x0] cols IH] using rev_ind; intros Hnd.
  { exists g0, vd0. do 6 (split; [done|]). split; [|done].
    intros x y z _ Hin. by apply elem_of_nil in Hin. }
  apply NoDup_app in Hnd as (Hnd & Hfresh & _).
  destruct (IH Hnd) as (g' & vd' & Hfold & Hp & Hn & Hsub & Hwf & Hcsy & Hdone & Hrest).
  rewrite foldl_snoc, Hfold. unfold generate_column_at. simpl.
  pose proof (get_height_at_cache get_noise_2d g'
                (world_x_base + x0) (world_z_base + z0)) as Hc.
  destruct (get_height_at get_noise_2d g' (world_x_base + x0) (world_z_base + z0))
    as [h g''] eqn:Hget.
  simpl in Hc. destruct Hc as (Hk & Hsub' & Hp' & Hn').
  destruct (generate_column_wf g'' x0 z0 chunk_world_y_base h
              (get_noise_2d (noise g'') (world_x_base + x0) (world_z_base + z0))
              vd' Hwf) as [Hwf'' Hcsy''].
  eexists _, _. split; [done|].
  split; [congruence|]. split; [congruence|].
  split; [by etrans|]. split; [done|]. split; [congruence|].
  assert (∀ x y z, VoxelData.in_bounds vd0 x y z →
                   VoxelData.in_bounds vd' x y z) as Hin'.
  { intros x y z. by apply in_bounds_chunk_size_y. }
  split.
  - intros x y z Hin [Hold|Hnew%list_elem_of_singleton]%elem_of_app.
    + destruct (Hdone x y z Hin Hold) as (h1 & Hk1 & Hv1).
      exists h1. split; [by eapply lookup_weaken|].
      rewrite generate_column_cell by auto.
      rewrite decide_False; [done|].
      intros (-> & -> & _). by apply (Hfresh (z0, x0)); [|left].
    + injection Hnew as -> ->. exists h. split; [done|].
      rewrite generate_column_cell by auto.
      rewrite (voxel_type_at_params g'' g0) by congruence.
      rewrite Hn', Hn.
      destruct (decide (column_type g0 h x0 y z0 ≠ AIR)) as [Hvt|Hvt].
      * by rewrite decide_True.
      * rewrite decide_False by (intros (_ & _ & ?); done).
        apply Hrest; [done|]. intros Hin0. by apply (Hfresh (z0, x0)); [|left].
  - intros x y z Hin Hnotin.
    rewrite generate_column_cell by auto.
    rewrite decide_False.
    + apply Hrest; [done|]. intros ?. apply Hnotin, elem_of_app. by left.
    + intros (-> & -> & _). apply Hnotin, elem_of_app. right. left.
Qed.

End columns.

(** Generation itself marks the chunk active, on both of its paths. *)
Lemma generate_chunk_sets_active g chunk vd :
  Chunk.voxel_data chunk = Some vd →
  Chunk.state (generate_chunk get_noise_2d g chunk).2 = ACTIVE.
Proof.
  intros Hvd. unfold generate_chunk. rewrite Hvd.
  by repeat case_match.
Qed.

(** *** The coarse pass keeps the configuration *)

Lemma foldl_invariant {A B} (P : A → Prop) (f : A → B → A) a l :
  P a → (∀ a x, P a → P (f a x)) → P (foldl f a l).
Proof.
  intros Ha Hf. revert a Ha. induction l as [|x l IH]; intros a Ha; [done|].
  simpl. by apply IH, Hf.
Qed.

Lemma coarse_pass_generator g wxb wzb base max :
  let g1 := (coarse_pass get_noise_2d g wxb wzb base max).1.1 in
  params g1 = params g ∧ noise g1 = noise g ∧
  height_cache g ⊆ height_cache g1.
Proof.
  unfold coarse_pass.
  apply (foldl_invariant (λ st : TerrainGenerator.t * bool * bool,
           params st.1.1 = params g ∧ noise st.1.1 = noise g ∧
           height_cache g ⊆ height_cache st.1.1)); [done|].
  intros st z Hst. apply foldl_invariant; [done|].
  clear st Hst. intros [[g' a] b0] x (Hp & Hn & Hsub). unfold coarse_sample.
  pose proof (get_height_at_cache get_noise_2d g' (wxb + x) (wzb + z)) as Hc.
  destruct (get_height_at get_noise_2d g' (wxb + x) (wzb + z)) as [h g''].
  simpl in *. destruct Hc as (_ & Hsub' & Hp' & Hn').
  split; [congruence|]. split; [congruence|]. by etrans.
Qed.

Lemma all_columns_NoDup :
  NoDup (seqZ 0 CHUNK_SIZE_XZ ≫= λ z, pair z <$> seqZ 0 CHUNK_SIZE_XZ).
Proof. apply (bool_decide_unpack _). by vm_compute. Qed.

(** The early exit: when every sampled column lies below the chunk, the
    chunk is filled with air and nothing else is looked at. *)
Lemma generate_chunk_early_exit g chunk vd :
  Chunk.voxel_data chunk = Some vd →
  (coarse_pass get_noise_2d g
     (v3i_x (Chunk.position chunk) * CHUNK_SIZE_XZ)
     (v3i_z (Chunk.position chunk) * CHUNK_SIZE_XZ)
     (v3i_y (Chunk.position chunk) * VoxelData.chunk_size_y vd)
     (v3i_y (Chunk.position chunk) * VoxelData.chunk_size_y vd
      + VoxelData.chunk_size_y vd)).1.2 = true →
  Chunk.voxel_data (generate_chunk get_noise_2d g chunk).2
  = Some (VoxelData.fill vd AIR).
Proof.
  intros Hvd Hcoarse. unfold generate_chunk. rewrite Hvd.
  destruct (coarse_pass _ _ _ _ _ _) as [[g1 above] below].
  simpl in Hcoarse. by subst above.
Qed.


End terrain.


(** With a positive height that is not an integer the surface branch is
    never reached: the topmost cell below the height is dirt and the
    next one is already above the terrain. *)
Example no_surface_block_at_fractional_height :
  TerrainGenerator.voxel_type_at TerrainGenerator.new (129 # 2) 0 64 = DIRT ∧
  TerrainGenerator.voxel_type_at TerrainGenerator.new (129 # 2) 0 65 = AIR ∧
  TerrainGenerator.voxel_type_at TerrainGenerator.new 64 0 64 = SAND ∧
  TerrainGenerator.voxel_type_at TerrainGenerator.new 65 0 65 = GRASS.
Proof. by vm_compute. Qed.


(** On the early exit no water is placed: with every column at height
    40 the chunk spanning world heights 48 to 63 is filled with air,
    although all of it lies below the water level 64. *)
Example early_exit_leaves_no_water :
  (TerrainGenerator.coarse_pass deep_noise TerrainGenerator.new 0 0 48 64).1.2
    = true ∧
  (Chunk.voxel_data
     (TerrainGenerator.generate_chunk deep_noise TerrainGenerator.new lake_chunk).2
     ≫= λ vd, VoxelData.get_voxel vd 0 0 0) = Some AIR ∧
  (inject_Z 48 < water_level (TerrainGenerator.params TerrainGenerator.new))%Q.
Proof. split; [by vm_compute|]. split; [by vm_compute|reflexivity]. Qed.

(** * Further properties of the code *)

(** ** VoxelData: buffer layout, reads and writes, the script methods *)

Section voxel_data_more.

Import VoxelData.

Implicit Types vd : VoxelData.t.

(** X1: [get_index] lays the in-bounds cells out one to one on the
    buffer: every in-bounds coordinate has its slot inside the
    [16 * 16 * chunk_size_y] cells, two different coordinates never
    share a slot, and every slot belongs to a coordinate. *)
Theorem get_index_bijection vd :
  (∀ x y z, in_bounds vd x y z →
     0 ≤ get_index vd x y z < CHUNK_SIZE_XZ * CHUNK_SIZE_XZ * chunk_size_y vd) ∧
  (∀ x y z x' y' z', in_bounds vd x y z → in_bounds vd x' y' z' →
     get_index vd x y z = get_index vd x' y' z' → (x, y, z) = (x', y', z')) ∧
  (∀ i, 0 ≤ i < CHUNK_SIZE_XZ * CHUNK_SIZE_XZ * chunk_size_y vd →
     ∃ x y z, in_bounds vd x y z ∧ get_index vd x y z = i).
Proof.
  split; [|split].
  - intros x y z Hin. by apply get_index_range.
  - intros x y z x' y' z' Hin Hin' Heq.
    destruct (get_index_inj vd x y z x' y' z' Hin Hin' Heq) as (-> & -> & ->).
    done.
  - intros i Hi. by apply get_index_surj.
Qed.

(** X2: on every well-formed storage, uniform or dense, a write at an
    in-bounds cell is read back, leaves every other in-bounds cell as it
    was, and keeps the chunk height and the representation invariant. *)
Theorem set_voxel_read_back vd x y z type :
  wf vd → in_bounds vd x y z →
  get_voxel (set_voxel vd x y z type) x y z = Some type ∧
  (∀ x' y' z', in_bounds vd x' y' z' → (x', y', z') ≠ (x, y, z) →
     get_voxel (set_voxel vd x y z type) x' y' z' = get_voxel vd x' y' z') ∧
  chunk_size_y (set_voxel vd x y z type) = chunk_size_y vd ∧
  wf (set_voxel vd x y z type).
Proof.
  intros Hwf Hin. split; [by apply get_set_voxel_eq|].
  split; [intros x' y' z' Hin' Hne; by apply get_set_voxel_ne|].
  split; [apply set_voxel_chunk_size_y|by apply wf_set_voxel].
Qed.

Lemma set_voxel_read_back_witness :
  wf (set_voxels (new 16) [(0, 0, 0, STONE)]) ∧
  in_bounds (set_voxels (new 16) [(0, 0, 0, STONE)]) 15 15 15 ∧
  get_voxel (set_voxel (set_voxels (new 16) [(0, 0, 0, STONE)]) 15 15 15 GLASS)
    15 15 15 = Some GLASS ∧
  (∀ x' y' z', in_bounds (set_voxels (new 16) [(0, 0, 0, STONE)]) x' y' z' →
     (x', y', z') ≠ (15, 15, 15) →
     get_voxel (set_voxel (set_voxels (new 16) [(0, 0, 0, STONE)]) 15 15 15 GLASS)
       x' y' z'
     = get_voxel (set_voxels (new 16) [(0, 0, 0, STONE)]) x' y' z') ∧
  chunk_size_y (set_voxel (set_voxels (new 16) [(0, 0, 0, STONE)]) 15 15 15 GLASS)
  = chunk_size_y (set_voxels (new 16) [(0, 0, 0, STONE)]) ∧
  wf (set_voxel (set_voxels (new 16) [(0, 0, 0, STONE)]) 15 15 15 GLASS).
Proof.
  assert (wf (set_voxels (new 16) [(0, 0, 0, STONE)])) as Hwf.
  { split; [reflexivity|]. right. split; [reflexivity|]. split; [reflexivity|].
    eexists. split; reflexivity. }
  assert (in_bounds (set_voxels (new 16) [(0, 0, 0, STONE)]) 15 15 15) as Hin
    by (unfold in_bounds, CHUNK_SIZE_XZ; simpl; lia).
  split; [exact Hwf|]. split; [exact Hin|].
  exact (set_voxel_read_back _ 15 15 15 GLASS Hwf Hin).
Defined.

(** Each operation keeps the invariant. *)
Lemma wf_apply_op vd op : wf vd → wf (apply_op vd op).
Proof.
  intros Hwf. destruct op; simpl.
  - by apply wf_set_voxel.
  - by apply wf_fill.
  - by apply wf_clear.
  - apply wf_initialize.
  - by apply wf_check_and_optimize_uniform.
  - unfold _set_voxel. case_match; [by apply wf_set_voxel|done].
  - unfold _fill. case_match; [by apply wf_fill|done].
Qed.

(** X3: whatever operations are issued on a storage, in whatever order,
    starting from its construction, the representation invariant holds:
    the storage is uniform and holds no buffer, or it is dense and its
    buffer has exactly [16 * 16 * chunk_size_y] cells.  In particular
    every in-bounds read finds its cell. *)
Theorem storage_invariant chunk_y ops :
  let vd := apply_ops (new chunk_y) ops in
  total_voxels vd = CHUNK_SIZE_XZ * CHUNK_SIZE_XZ * chunk_size_y vd ∧
  (is_uniform vd = true → data vd = None) ∧
  (is_uniform vd = false →
     ∃ d, data vd = Some d ∧ Z.of_nat (length d) = total_voxels vd) ∧
  (∀ x y z, in_bounds vd x y z → is_Some (get_voxel vd x y z)).
Proof.
  intros vd.
  assert (wf vd) as Hwf.
  { unfold vd, apply_ops. generalize (wf_new chunk_y). generalize (new chunk_y).
    induction ops as [|op ops IH]; intros vd0 Hwf0; [done|].
    simpl. by apply IH, wf_apply_op. }
  pose proof Hwf as [Ht Hrep]. split; [done|].
  split; [|split].
  - intros Hu. destruct Hrep as [[_ ?]|(? & _)]; [done|congruence].
  - intros Hu. destruct Hrep as [[? _]|(_ & _ & Hd)]; [congruence|done].
  - intros x y z Hin. by apply get_voxel_in_bounds.
Qed.

(** X4: [fill] discards whatever the storage held.  After [fill] with
    [T], every coordinate reads [T], no buffer is held and the memory
    usage is one byte; and when a later write of [B] at an in-bounds
    cell makes the storage dense again, every other in-bounds cell
    reads [T], none of them a value from before the fill. *)
Theorem fill_discards_contents vd T B x y z :
  wf vd → in_bounds vd x y z →
  (∀ x' y' z', get_voxel (fill vd T) x' y' z' = Some T) ∧
  data (fill vd T) = None ∧
  get_memory_usage (fill vd T) = 1 ∧
  get_voxel (set_voxel (fill vd T) x y z B) x y z = Some B ∧
  (∀ x' y' z', in_bounds vd x' y' z' → (x', y', z') ≠ (x, y, z) →
     get_voxel (set_voxel (fill vd T) x y z B) x' y' z' = Some T).
Proof.
  intros Hwf Hin.
  assert (wf (fill vd T)) as Hwf' by by apply wf_fill.
  split; [done|]. split; [done|]. split; [done|].
  split; [by apply get_set_voxel_eq|].
  intros x' y' z' Hin' Hne. by rewrite get_set_voxel_ne.
Qed.

Lemma fill_discards_contents_witness :
  wf (set_voxels (new 16) [(0, 0, 0, STONE)]) ∧
  in_bounds (set_voxels (new 16) [(0, 0, 0, STONE)]) 1 1 1 ∧
  (∀ x' y' z',
     get_voxel (fill (set_voxels (new 16) [(0, 0, 0, STONE)]) SAND) x' y' z'
     = Some SAND) ∧
  data (fill (set_voxels (new 16) [(0, 0, 0, STONE)]) SAND) = None ∧
  get_memory_usage (fill (set_voxels (new 16) [(0, 0, 0, STONE)]) SAND) = 1 ∧
  get_voxel
    (set_voxel (fill (set_voxels (new 16) [(0, 0, 0, STONE)]) SAND) 1 1 1 GLASS)
    1 1 1 = Some GLASS ∧
  (∀ x' y' z', in_bounds (set_voxels (new 16) [(0, 0, 0, STONE)]) x' y' z' →
     (x', y', z') ≠ (1, 1, 1) →
     get_voxel
       (set_voxel (fill (set_voxels (new 16) [(0, 0, 0, STONE)]) SAND) 1 1 1 GLASS)
       x' y' z' = Some SAND).
Proof.
  assert (wf (set_voxels (new 16) [(0, 0, 0, STONE)])) as Hwf.
  { split; [reflexivity|]. right. split; [reflexivity|]. split; [reflexivity|].
    eexists. split; reflexivity. }
  assert (in_bounds (set_voxels (new 16) [(0, 0, 0, STONE)]) 1 1 1) as Hin
    by (unfold in_bounds, CHUNK_SIZE_XZ; simpl; lia).
  split; [exact Hwf|]. split; [exact Hin|].
  exact (fill_discards_contents _ SAND GLASS 1 1 1 Hwf Hin).
Defined.

(** X5: the memory usage reported after the optimize pass on a
    well-formed storage is one byte exactly when all in-bounds cells
    hold one value, and the full [16 * 16 * chunk_size_y] bytes
    otherwise. *)
Theorem memory_usage_after_optimize vd :
  wf vd →
  let vd' := (check_and_optimize_uniform vd).2 in
  (all_cells_equal vd → get_memory_usage vd' = 1) ∧
  (¬ all_cells_equal vd →
     get_memory_usage vd' = CHUNK_SIZE_XZ * CHUNK_SIZE_XZ * chunk_size_y vd ∧
     1 < get_memory_usage vd').
Proof.
  intros Hwf vd'. unfold vd', check_and_optimize_uniform.
  destruct (is_uniform vd) eqn:Hu.
  { simpl. split; [intros _; unfold get_memory_usage; by rewrite Hu|].
    intros Hne. destruct Hne. by apply all_cells_equal_uniform. }
  pose proof Hwf as [Ht [[? _]|(_ & Hc & d & Hd & Hlen)]]; [congruence|].
  rewrite Hd.
  destruct (array_get_is_Some d 0) as [first_value H0];
    [unfold CHUNK_SIZE_XZ in *; lia|].
  rewrite H0.
  pose proof (all_cells_equal_dense vd d first_value Hwf Hu Hd H0) as Hall.
  rewrite <- scan_uniform_spec in Hall.
  destruct (scan_uniform d first_value 1 (Z.to_nat (total_voxels vd - 1)));
    simpl.
  - split; [done|]. intros Hne. destruct Hne. by apply Hall.
  - split; [intros Heq; apply Hall in Heq; discriminate|].
    intros _. unfold get_memory_usage. rewrite Hu.
    unfold CHUNK_SIZE_XZ in *. lia.
Qed.

Lemma memory_usage_after_optimize_witness :
  wf (set_voxels (new 16) [(0, 0, 0, STONE)]) ∧
  (all_cells_equal (set_voxels (new 16) [(0, 0, 0, STONE)]) →
   get_memory_usage
     (check_and_optimize_uniform (set_voxels (new 16) [(0, 0, 0, STONE)])).2 = 1) ∧
  (¬ all_cells_equal (set_voxels (new 16) [(0, 0, 0, STONE)]) →
   get_memory_usage
     (check_and_optimize_uniform (set_voxels (new 16) [(0, 0, 0, STONE)])).2
   = CHUNK_SIZE_XZ * CHUNK_SIZE_XZ
     * chunk_size_y (set_voxels (new 16) [(0, 0, 0, STONE)]) ∧
   1 < get_memory_usage
         (check_and_optimize_uniform (set_voxels (new 16) [(0, 0, 0, STONE)])).2).
Proof.
  assert (wf (set_voxels (new 16) [(0, 0, 0, STONE)])) as Hwf.
  { split; [reflexivity|]. right. split; [reflexivity|]. split; [reflexivity|].
    eexists. split; reflexivity. }
  split; [exact Hwf|].
  exact (memory_usage_after_optimize _ Hwf).
Defined.

(** X6: the methods bound for scripts are safe on every well-formed
    storage: [_get_voxel] answers at every coordinate without leaving
    the buffer; [_set_voxel] and [_fill] ignore a block type outside
    [0, 256); [_set_voxel] ignores a coordinate outside the chunk; and
    a valid write is read back by [_get_voxel]. *)
Theorem script_methods_safe vd x y z type :
  wf vd →
  is_Some (_get_voxel vd x y z) ∧
  (¬ 0 ≤ type < MAX_BLOCK_TYPES →
     _set_voxel vd x y z type = vd ∧ _fill vd type = vd) ∧
  (¬ in_bounds vd x y z → _set_voxel vd x y z type = vd) ∧
  (0 ≤ type < MAX_BLOCK_TYPES → in_bounds vd x y z →
     _get_voxel (_set_voxel vd x y z type) x y z = Some type) ∧
  (0 ≤ type < MAX_BLOCK_TYPES →
     ∀ x' y' z', in_bounds vd x' y' z' →
       _get_voxel (_fill vd type) x' y' z' = Some type).
Proof.
  intros Hwf.
  assert (∀ t, ¬ 0 ≤ t < MAX_BLOCK_TYPES →
               (t >=? 0) && (t <? MAX_BLOCK_TYPES) = false) as Hbad.
  { intros t Ht. apply andb_false_iff.
    destruct (decide (0 ≤ t)); [right; apply Z.ltb_ge; lia|].
    left. rewrite Z.geb_leb. apply Z.leb_gt. lia. }
  assert (∀ t, 0 ≤ t < MAX_BLOCK_TYPES →
               (t >=? 0) && (t <? MAX_BLOCK_TYPES) = true) as Hgood.
  { intros t Ht. apply andb_true_iff. rewrite Z.geb_leb.
    split; [apply Z.leb_le|apply Z.ltb_lt]; lia. }
  split; [|split; [|split; [|split]]].
  - unfold _get_voxel. destruct (out_of_bounds vd x y z) eqn:Hoob; [done|].
    apply get_voxel_in_bounds; [done|]. by apply out_of_bounds_false.
  - intros Ht. unfold _set_voxel, _fill. by rewrite Hbad.
  - intros Hout. unfold _set_voxel. case_match; [|done].
    by apply set_voxel_out_of_bounds.
  - intros Ht Hin. unfold _set_voxel, _get_voxel. rewrite Hgood by done.
    assert (out_of_bounds (set_voxel vd x y z type) x y z = false) as ->.
    { apply out_of_bounds_false. eapply in_bounds_chunk_size_y; [|done].
      by rewrite set_voxel_chunk_size_y. }
    by apply get_set_voxel_eq.
  - intros Ht x' y' z' Hin. unfold _fill, _get_voxel. rewrite Hgood by done.
    assert (out_of_bounds (fill vd type) x' y' z' = false) as ->
      by by apply out_of_bounds_false.
    done.
Qed.

Lemma script_methods_safe_witness :
  wf (new 16) ∧
  is_Some (_get_voxel (new 16) 3 99 3) ∧
  (¬ 0 ≤ 7 < MAX_BLOCK_TYPES →
     _set_voxel (new 16) 3 99 3 7 = new 16 ∧ _fill (new 16) 7 = new 16) ∧
  (¬ in_bounds (new 16) 3 99 3 → _set_voxel (new 16) 3 99 3 7 = new 16) ∧
  (0 ≤ 7 < MAX_BLOCK_TYPES → in_bounds (new 16) 3 99 3 →
     _get_voxel (_set_voxel (new 16) 3 99 3 7) 3 99 3 = Some 7) ∧
  (0 ≤ 7 < MAX_BLOCK_TYPES →
     ∀ x' y' z', in_bounds (new 16) x' y' z' →
       _get_voxel (_fill (new 16) 7) x' y' z' = Some 7).
Proof.
  assert (wf (new 16)) as Hwf
    by (split; [reflexivity|left; split; reflexivity]).
  split; [exact Hwf|].
  exact (script_methods_safe (new 16) 3 99 3 7 Hwf).
Defined.

End voxel_data_more.

(** ** The zone helpers *)

(** X7: [chunk_y_to_world_y] followed by [world_y_to_chunk_y] gives the
    chunk index back exactly for the chunks of the dense zone, indices
    -4 to 11; outside, the world height falls into a zone with another
    chunk height and the index that comes back is a different one. *)
Theorem chunk_y_round_trip chunk_y :
  world_y_to_chunk_y (chunk_y_to_world_y chunk_y) = chunk_y ↔ -4 ≤ chunk_y ≤ 11.
Proof.
  unfold world_y_to_chunk_y, chunk_y_to_world_y, get_chunk_height_for_y,
    DEEP_VOID_MAX_Y, DENSE_TERRAIN_MAX_Y, DEEP_VOID_CHUNK_HEIGHT,
    DENSE_TERRAIN_CHUNK_HEIGHT, SKY_CHUNK_HEIGHT.
  destruct (chunk_y * 16 <? -64) eqn:H1;
    [apply Z.ltb_lt in H1|apply Z.ltb_ge in H1].
  - split; [|lia]. intros Heq.
    pose proof (Z.quot_rem (chunk_y * 16) 32 ltac:(lia)) as Hq.
    pose proof (Z.rem_bound_abs (chunk_y * 16) 32 ltac:(lia)). lia.
  - destruct (chunk_y * 16 <? 180) eqn:H2;
      [apply Z.ltb_lt in H2|apply Z.ltb_ge in H2].
    + split; [lia|]. intros _. apply Z.quot_mul. lia.
    + split; [|lia]. intros Heq.
      pose proof (Z.quot_rem (chunk_y * 16) 64 ltac:(lia)) as Hq.
      pose proof (Z.rem_bound_abs (chunk_y * 16) 64 ltac:(lia)). lia.
Qed.

(** X30: the chunk consulted for a world height need not hold it.
    [world_y_to_chunk_y] divides a world height by the chunk height of
    the zone of that height, while [generate_chunk_async] gives the
    chunk at an index the chunk height of the zone in which the index,
    read as a height, falls, and [generate_chunk] fills it with the
    world heights from [index * height] on.  The chunk found for [wy]
    spans [wy] exactly when [0 ≤ wy < 180], when [wy ≥ 11520], or when
    [wy] is negative and an exact multiple of the chunk height of its
    zone (with [wy ≤ -2080] in the deep zone). *)
Theorem world_height_in_its_chunk wy :
  let chunk_y := world_y_to_chunk_y wy in
  let chunk_height := get_chunk_height_for_y chunk_y in
  chunk_y * chunk_height ≤ wy < chunk_y * chunk_height + chunk_height
  ↔ 0 ≤ wy < 180 ∨ 11520 ≤ wy
    ∨ (-64 ≤ wy < 0 ∧ Z.rem wy 16 = 0)
    ∨ (wy ≤ -2080 ∧ Z.rem wy 32 = 0).
Proof.
  unfold world_y_to_chunk_y, get_chunk_height_for_y,
    DEEP_VOID_MAX_Y, DENSE_TERRAIN_MAX_Y, DEEP_VOID_CHUNK_HEIGHT,
    DENSE_TERRAIN_CHUNK_HEIGHT, SKY_CHUNK_HEIGHT.
  cbv zeta.
  destruct (wy <? -64) eqn:H1; [apply Z.ltb_lt in H1|apply Z.ltb_ge in H1].
  - destruct (wy ÷ 32 <? -64) eqn:H2;
      [apply Z.ltb_lt in H2|apply Z.ltb_ge in H2].
    + Z.quot_rem_to_equations. lia.
    + destruct (wy ÷ 32 <? 180) eqn:H3;
        [apply Z.ltb_lt in H3|apply Z.ltb_ge in H3];
        Z.quot_rem_to_equations; lia.
  - destruct (wy <? 180) eqn:H2; [apply Z.ltb_lt in H2|apply Z.ltb_ge in H2].
    + destruct (wy ÷ 16 <? -64) eqn:H3;
        [apply Z.ltb_lt in H3|apply Z.ltb_ge in H3].
      { Z.quot_rem_to_equations. lia. }
      destruct (wy ÷ 16 <? 180) eqn:H4;
        [apply Z.ltb_lt in H4|apply Z.ltb_ge in H4];
        Z.quot_rem_to_equations; lia.
    + destruct (wy ÷ 64 <? -64) eqn:H3;
        [apply Z.ltb_lt in H3|apply Z.ltb_ge in H3].
      { Z.quot_rem_to_equations. lia. }
      destruct (wy ÷ 64 <? 180) eqn:H4;
        [apply Z.ltb_lt in H4|apply Z.ltb_ge in H4];
        Z.quot_rem_to_equations; lia.
Qed.

(** ** TerrainGenerator: the cache key, the cache, generation *)

Section terrain_more.

Import TerrainGenerator.

Variable get_noise_2d : FastNoiseLite → Z → Z → Q.

Implicit Types g : TerrainGenerator.t.

(** X8: for a column with non-negative [wz] the packed key can be taken
    apart again: its low 32 bits are [wz], its high 32 bits are the two's
    complement pattern of [wx], and it fits 64 bits.  Hence two such
    columns with the same key are the same column. *)
Theorem cache_key_round_trip wx wz :
  is_int32 wx → 0 ≤ wz < 2 ^ 31 →
  make_cache_key wx wz mod 2 ^ 32 = wz ∧
  make_cache_key wx wz / 2 ^ 32 = wx mod 2 ^ 32 ∧
  0 ≤ make_cache_key wx wz < 2 ^ 64 ∧
  (∀ wx' wz', is_int32 wx' → 0 ≤ wz' < 2 ^ 31 →
     make_cache_key wx' wz' = make_cache_key wx wz → wx' = wx ∧ wz' = wz).
Proof.
  intros Hx Hz. rewrite make_cache_key_nonneg_z by done.
  pose proof (Z.mod_pos_bound wx (2 ^ 32) ltac:(lia)) as Hm.
  split; [|split; [|split]].
  - rewrite Z.add_comm, Z_mod_plus_full. apply Z.mod_small. lia.
  - rewrite Z.div_add_l by lia. rewrite Z.div_small by lia. lia.
  - lia.
  - intros wx' wz' Hx' Hz' Heq.
    rewrite make_cache_key_nonneg_z in Heq by done.
    rewrite !int32_mod_pow32 in Heq by done.
    unfold is_int32 in *. repeat case_decide; lia.
Qed.

Lemma cache_key_round_trip_witness :
  is_int32 (-3) ∧ 0 ≤ 5 < 2 ^ 31 ∧
  make_cache_key (-3) 5 mod 2 ^ 32 = 5 ∧
  make_cache_key (-3) 5 / 2 ^ 32 = (-3) mod 2 ^ 32 ∧
  0 ≤ make_cache_key (-3) 5 < 2 ^ 64 ∧
  (∀ wx' wz', is_int32 wx' → 0 ≤ wz' < 2 ^ 31 →
     make_cache_key wx' wz' = make_cache_key (-3) 5 → wx' = -3 ∧ wz' = 5).
Proof.
  assert (is_int32 (-3)) as Hx by (unfold is_int32; lia).
  assert (0 ≤ 5 < 2 ^ 31) as Hz by lia.
  split; [exact Hx|]. split; [exact Hz|].
  exact (cache_key_round_trip (-3) 5 Hx Hz).
Defined.

(** Every cached height is the height of a column with non-negative
    [wz], stored under that column's key. *)
Local Abbreviation cache_of_columns g0 g :=
  (params g = params g0 ∧ noise g = noise g0 ∧
   ∀ k h, height_cache g !! k = Some h →
     ∃ wx wz, is_int32 wx ∧ 0 ≤ wz < 2 ^ 31 ∧
       k = make_cache_key wx wz ∧ h = computed_height get_noise_2d g0 wx wz).

Lemma get_height_at_cache_of_columns g0 g wx wz :
  is_int32 wx → 0 ≤ wz < 2 ^ 31 →
  cache_of_columns g0 g →
  (get_height_at get_noise_2d g wx wz).1 = computed_height get_noise_2d g0 wx wz ∧
  cache_of_columns g0 (get_height_at get_noise_2d g wx wz).2.
Proof.
  intros Hx Hz (Hp & Hn & Hc). unfold get_height_at.
  destruct (height_cache g !! make_cache_key wx wz) as [h|] eqn:Hk; simpl.
  - destruct (Hc _ _ Hk) as (wx' & wz' & Hx' & Hz' & Hkey & ->).
    apply make_cache_key_inj_nonneg_z in Hkey as [-> ->];
      [done|exact Hx|exact Hx'|done|done].
  - split; [unfold computed_height; by rewrite Hp, Hn|].
    split; [done|]. split; [done|].
    intros k h. destruct (decide (k = make_cache_key wx wz)) as [->|Hne].
    + rewrite lookup_insert_eq. intros [= <-].
      exists wx, wz. unfold computed_height. by rewrite Hp, Hn.
    + rewrite lookup_insert_ne by done. apply Hc.
Qed.

Lemma lookup_heights_cache_of_columns g0 g columns :
  Forall (λ c, is_int32 c.1 ∧ 0 ≤ c.2 < 2 ^ 31) columns →
  cache_of_columns g0 g →
  cache_of_columns g0 (lookup_heights get_noise_2d g columns).
Proof.
  intros Hcols. revert g.
  induction Hcols as [|[cx cz] columns [Hcx Hcz] _ IH]; intros g Hg; [done|].
  unfold lookup_heights. simpl. apply IH.
  by apply get_height_at_cache_of_columns.
Qed.

(** X9: on the half-plane [wz ≥ 0] the cache is transparent.  Starting
    from an empty cache, after any sequence of lookups at columns with
    non-negative [wz], the lookup of any such column returns
    [base_height + noise2d(wx, wz) * max_height_variation] of that very
    column, cached or not. *)
Theorem height_lookup_correct_nonneg_z g columns wx wz :
  height_cache g = ∅ →
  Forall (λ c, is_int32 c.1 ∧ 0 ≤ c.2 < 2 ^ 31) columns →
  is_int32 wx → 0 ≤ wz < 2 ^ 31 →
  (get_height_at get_noise_2d (lookup_heights get_noise_2d g columns) wx wz).1
  = computed_height get_noise_2d g wx wz.
Proof.
  intros Hempty Hcols Hx Hz.
  apply get_height_at_cache_of_columns; [done..|].
  apply lookup_heights_cache_of_columns; [done|].
  split; [done|]. split; [done|]. intros k h. by rewrite Hempty.
Qed.

(** A column pass keeps the configuration and every cached height. *)
Lemma generate_column_at_generator wxb wzb base (st : TerrainGenerator.t * VoxelData.t) z x g0 :
  params st.1 = params g0 ∧ noise st.1 = noise g0 ∧
    height_cache g0 ⊆ height_cache st.1 →
  let st' := generate_column_at get_noise_2d wxb wzb base st z x in
  params st'.1 = params g0 ∧ noise st'.1 = noise g0 ∧
    height_cache g0 ⊆ height_cache st'.1.
Proof.
  destruct st as [g vd]. intros (Hp & Hn & Hsub). unfold generate_column_at.
  pose proof (get_height_at_cache get_noise_2d g (wxb + x) (wzb + z)) as Hc.
  destruct (get_height_at get_noise_2d g (wxb + x) (wzb + z)) as [h g'].
  simpl in *. destruct Hc as (_ & Hsub' & Hp' & Hn').
  split; [congruence|]. split; [congruence|]. by etrans.
Qed.

(** X10: generation never evicts or changes a cached height and never
    touches the configuration: whatever the chunk, the cache after
    [generate_chunk] extends the cache before it, and the parameters
    and the noise settings are the same. *)
Theorem generate_chunk_keeps_cache g chunk :
  height_cache g ⊆ height_cache (generate_chunk get_noise_2d g chunk).1 ∧
  params (generate_chunk get_noise_2d g chunk).1 = params g ∧
  noise (generate_chunk get_noise_2d g chunk).1 = noise g.
Proof.
  unfold generate_chunk.
  destruct (Chunk.voxel_data chunk) as [vd|]; [|done].
  set (base := v3i_y (Chunk.position chunk) * VoxelData.chunk_size_y vd).
  set (wxb := v3i_x (Chunk.position chunk) * CHUNK_SIZE_XZ).
  set (wzb := v3i_z (Chunk.position chunk) * CHUNK_SIZE_XZ).
  pose proof (coarse_pass_generator get_noise_2d g wxb wzb base
                (base + VoxelData.chunk_size_y vd)) as Hgen.
  destruct (coarse_pass get_noise_2d g wxb wzb base
              (base + VoxelData.chunk_size_y vd)) as [[g1 above] below].
  simpl in Hgen. destruct Hgen as (Hp1 & Hn1 & Hsub1).
  destruct above; [done|].
  assert (let st := generate_voxels get_noise_2d g1 vd wxb wzb base in
          params st.1 = params g ∧ noise st.1 = noise g ∧
          height_cache g ⊆ height_cache st.1) as Hvox.
  { unfold generate_voxels.
    apply (foldl_invariant (λ st : TerrainGenerator.t * VoxelData.t,
             params st.1 = params g ∧ noise st.1 = noise g ∧
             height_cache g ⊆ height_cache st.1)); [done|].
    intros st z Hst. apply foldl_invariant; [done|].
    intros st' x Hst'. by apply generate_column_at_generator. }
  destruct (generate_voxels get_noise_2d g1 vd wxb wzb base) as [g2 vd2].
  simpl in Hvox. destruct Hvox as (Hp2 & Hn2 & Hsub2). done.
Qed.

(** X11: reseeding and clearing make every lookup recompute.  After
    [clear_cache], [initialize] or [set_params], whatever the cache held
    (a colliding entry included), the next lookup of a column returns
    [base_height + noise2d(wx, wz) * max_height_variation] for the
    current settings, and [initialize] puts the new seed into both the
    parameters and the noise object. *)
Theorem lookup_after_clear g wx wz s p :
  (get_height_at get_noise_2d (clear_cache g) wx wz).1
    = computed_height get_noise_2d g wx wz ∧
  (get_height_at get_noise_2d (initialize g s) wx wz).1
    = computed_height get_noise_2d (initialize g s) wx wz ∧
  (get_height_at get_noise_2d (set_params g p) wx wz).1
    = computed_height get_noise_2d (set_params g p) wx wz ∧
  seed (params (initialize g s)) = s ∧ fnl_seed (noise (initialize g s)) = s ∧
  base_height (params (initialize g s)) = base_height (params g) ∧
  params (set_params g p) = p ∧
  fnl_seed (noise (set_params g p)) = seed p ∧
  fnl_frequency (noise (set_params g p)) = noise_frequency p.
Proof.
  split; [|split; [|split]].
  - by rewrite get_height_at_miss.
  - by rewrite get_height_at_miss.
  - by rewrite get_height_at_miss.
  - done.
Qed.

(** X12: what [generate_chunk] leaves behind on a chunk with a
    well-formed storage: the chunk is active, its position and mesh are
    untouched, and its storage is still well-formed with the same chunk
    height. *)
Theorem generate_chunk_post g chunk vd :
  Chunk.voxel_data chunk = Some vd → VoxelData.wf vd →
  let chunk' := (generate_chunk get_noise_2d g chunk).2 in
  Chunk.state chunk' = ACTIVE ∧
  Chunk.position chunk' = Chunk.position chunk ∧
  Chunk.mesh chunk' = Chunk.mesh chunk ∧
  ∃ vd', Chunk.voxel_data chunk' = Some vd' ∧ VoxelData.wf vd' ∧
    VoxelData.chunk_size_y vd' = VoxelData.chunk_size_y vd.
Proof.
  intros Hvd Hwf chunk'. unfold chunk', generate_chunk. rewrite Hvd.
  set (base := v3i_y (Chunk.position chunk) * VoxelData.chunk_size_y vd).
  set (wxb := v3i_x (Chunk.position chunk) * CHUNK_SIZE_XZ).
  set (wzb := v3i_z (Chunk.position chunk) * CHUNK_SIZE_XZ).
  destruct (coarse_pass get_noise_2d g wxb wzb base
              (base + VoxelData.chunk_size_y vd)) as [[g1 above] below].
  destruct above.
  { simpl. do 3 (split; [done|]). eexists. split; [done|].
    split; [by apply wf_fill|done]. }
  unfold generate_voxels.
  rewrite (foldl_nested
             (λ st z x, generate_column_at get_noise_2d wxb wzb base st z x)).
  destruct (generate_voxels_fold get_noise_2d wxb wzb base g1 vd _ Hwf
              all_columns_NoDup)
    as (g2 & vd2 & -> & _ & _ & _ & Hwf2 & Hcsy2 & _).
  simpl. do 3 (split; [done|]). eexists. split; [done|].
  split; [by apply wf_check_and_optimize_uniform|].
  by rewrite optimize_pass_chunk_size_y.
Qed.

Lemma voxel_type_at_range g h nv wy :
  voxel_type_at g h nv wy ∈ [AIR; STONE; DIRT; GRASS; SAND; WATER; GRAVEL].
Proof.
  unfold voxel_type_at, get_surface_block.
  repeat case_match; set_solver.
Qed.

(** X13: generation places nothing but terrain blocks: on a chunk whose
    cells are all empty, every in-bounds cell after [generate_chunk]
    holds air, stone, dirt, grass, sand, water or gravel. *)
Theorem generate_chunk_block_types g chunk vd x y z :
  Chunk.voxel_data chunk = Some vd → VoxelData.wf vd →
  (∀ x y z, VoxelData.in_bounds vd x y z →
     VoxelData.get_voxel vd x y z = Some AIR) →
  VoxelData.in_bounds vd x y z →
  ∃ vd' t,
    Chunk.voxel_data (generate_chunk get_noise_2d g chunk).2 = Some vd' ∧
    VoxelData.get_voxel vd' x y z = Some t ∧
    t ∈ [AIR; STONE; DIRT; GRASS; SAND; WATER; GRAVEL].
Proof.
  intros Hvd Hwf Hair Hin. unfold generate_chunk. rewrite Hvd.
  set (base := v3i_y (Chunk.position chunk) * VoxelData.chunk_size_y vd).
  set (wxb := v3i_x (Chunk.position chunk) * CHUNK_SIZE_XZ).
  set (wzb := v3i_z (Chunk.position chunk) * CHUNK_SIZE_XZ).
  destruct (coarse_pass get_noise_2d g wxb wzb base
              (base + VoxelData.chunk_size_y vd)) as [[g1 above] below].
  destruct above.
  { simpl. eexists _, AIR. split; [done|]. split; [done|]. set_solver. }
  unfold generate_voxels.
  rewrite (foldl_nested
             (λ st z x, generate_column_at get_noise_2d wxb wzb base st z x)).
  destruct (generate_voxels_fold get_noise_2d wxb wzb base g1 vd _ Hwf
              all_columns_NoDup)
    as (g2 & vd2 & -> & _ & _ & _ & Hwf2 & Hcsy2 & Hdone & _).
  simpl.
  destruct (Hdone x y z Hin) as (h & _ & Hcell).
  { apply list_elem_of_bind. exists z. unfold VoxelData.in_bounds in Hin.
    split; [apply list_elem_of_fmap; exists x; split; [done|]|];
      apply elem_of_seqZ; lia. }
  assert (VoxelData.get_voxel (VoxelData.check_and_optimize_uniform vd2).2 x y z
          = VoxelData.get_voxel vd2 x y z) as Hopt
    by (apply optimize_pass_get_voxel; [done|by eapply in_bounds_chunk_size_y]).
  rewrite Hcell in Hopt. case_decide.
  - eexists _, _. split; [done|]. split; [exact Hopt|].
    apply voxel_type_at_range.
  - eexists _, AIR. split; [done|]. split; [|set_solver].
    rewrite Hopt. by apply Hair.
Qed.

(** X14: the early exit is decided by the sixteen sampled columns.
    The flag [all_above_terrain] of the coarse pass comes out set exactly
    when each of the columns [(x, z)], [x, z ∈ {0, 4, 8, 12}], has its
    height, as the cache holds it after the pass, strictly below the
    base of the chunk. *)
Theorem coarse_pass_all_above g wxb wzb base max :
  let r := coarse_pass get_noise_2d g wxb wzb base max in
  r.1.2 = true ↔
  ∀ x z, x ∈ coarse_samples → z ∈ coarse_samples →
    ∃ h, height_cache r.1.1 !! make_cache_key (wxb + x) (wzb + z) = Some h ∧
         (h < inject_Z base)%Q.
Proof.
  intros r. unfold r, coarse_pass. clear r.
  rewrite (foldl_nested
             (λ st z x, coarse_sample get_noise_2d wxb wzb base max st z x)).
  assert (∀ x z, x ∈ coarse_samples → z ∈ coarse_samples ↔
            (z, x) ∈ (coarse_samples ≫= λ z, pair z <$> coarse_samples))
    as Hmem.
  { intros x z Hx. rewrite list_elem_of_bind. split.
    - intros Hz. exists z. split; [|done].
      apply list_elem_of_fmap. by exists x.
    - intros (z' & (x' & [= -> ->] & _)%list_elem_of_fmap & Hz'). done. }
  assert (∀ x z, (z, x) ∈ (coarse_samples ≫= λ z, pair z <$> coarse_samples) →
            x ∈ coarse_samples) as Hmemx.
  { intros x z (z' & (x' & [= -> ->] & Hx')%list_elem_of_fmap & _)%list_elem_of_bind.
    done. }
  generalize (coarse_samples ≫= λ z, pair z <$> coarse_samples) Hmem Hmemx.
  intros cols Hcols Hcolsx.
  set (step := λ (st : TerrainGenerator.t * bool * bool) (p : Z * Z),
         coarse_sample get_noise_2d wxb wzb base max st p.1 p.2).
  assert (∀ cols,
    let st := foldl step (g, true, true) cols in
    (∀ z x, (z, x) ∈ cols →
       is_Some (height_cache st.1.1 !! make_cache_key (wxb + x) (wzb + z))) ∧
    (st.1.2 = true ↔
     ∀ z x, (z, x) ∈ cols →
       ∃ h, height_cache st.1.1 !! make_cache_key (wxb + x) (wzb + z) = Some h ∧
            (h < inject_Z base)%Q)) as Hfold.
  { clear. intros cols. induction cols as [|[z0 x0] cols IH] using rev_ind.
    { simpl. split; [intros z x Hin; by apply elem_of_nil in Hin|].
      split; [intros _ z x Hin; by apply elem_of_nil in Hin|done]. }
    rewrite foldl_snoc.
    destruct (foldl step (g, true, true) cols) as [[g' a] b0].
    simpl in IH. destruct IH as [Hsome Hiff].
    unfold step at 1. unfold coarse_sample. simpl.
    pose proof (get_height_at_cache get_noise_2d g' (wxb + x0) (wzb + z0)) as Hc.
    destruct (get_height_at get_noise_2d g' (wxb + x0) (wzb + z0)) as [h g''].
    simpl in *. destruct Hc as (Hk & Hsub & _ & _).
    split.
    - intros z x [Hold|[= -> ->]%list_elem_of_singleton]%elem_of_app.
      + destruct (Hsome z x Hold) as [v Hv]. exists v.
        by eapply lookup_weaken.
      + by exists h.
    - destruct (Qle_bool (inject_Z base) h) eqn:Hle.
      + apply Qle_bool_iff in Hle. split; [done|]. intros Hall.
        destruct (Hall z0 x0) as (h' & Hk' & Hlt);
          [apply elem_of_app; right; left|].
        rewrite Hk in Hk'. injection Hk' as <-. lra.
      + assert (h < inject_Z base)%Q as Hlt.
        { apply Qnot_le_lt. intros Hle'. apply Qle_bool_iff in Hle'. congruence. }
        rewrite Hiff. split.
        * intros Hall z x [Hold|[= -> ->]%list_elem_of_singleton]%elem_of_app.
          -- destruct (Hall z x Hold) as (h1 & Hk1 & Hlt1). exists h1.
             split; [by eapply lookup_weaken|done].
          -- by exists h.
        * intros Hall z x Hold.
          destruct (Hall z x) as (h1 & Hk1 & Hlt1); [apply elem_of_app; by left|].
          destruct (Hsome z x Hold) as [v Hv].
          exists v. split; [done|].
          rewrite (lookup_weaken _ _ _ _ Hv Hsub) in Hk1. congruence. }
  destruct (Hfold cols) as [_ Hiff]. simpl in Hiff. fold step.
  rewrite Hiff. split.
  - intros Hall x z Hx Hz. apply Hall. by apply (Hcols x z Hx).
  - intros Hall z x Hin. pose proof (Hcolsx x z Hin) as Hx.
    apply Hall; [done|]. by apply (Hcols x z Hx).
Qed.

End terrain_more.

Lemma height_lookup_correct_nonneg_z_witness :
  TerrainGenerator.height_cache TerrainGenerator.new = ∅ ∧
  Forall (λ c : Z * Z, is_int32 c.1 ∧ 0 ≤ c.2 < 2 ^ 31) [(0, 0); (-7, 3); (0, 0)] ∧
  is_int32 (-7) ∧ 0 ≤ 3 < 2 ^ 31 ∧
  (TerrainGenerator.get_height_at flat_noise
     (lookup_heights flat_noise TerrainGenerator.new [(0, 0); (-7, 3); (0, 0)])
     (-7) 3).1
  = TerrainGenerator.computed_height flat_noise TerrainGenerator.new (-7) 3.
Proof.
  assert (Forall (λ c : Z * Z, is_int32 c.1 ∧ 0 ≤ c.2 < 2 ^ 31)
            [(0, 0); (-7, 3); (0, 0)]) as Hcols
    by (repeat constructor; unfold is_int32; simpl; lia).
  assert (is_int32 (-7)) as Hx by (unfold is_int32; lia).
  assert (0 ≤ 3 < 2 ^ 31) as Hz by lia.
  split; [reflexivity|]. split; [exact Hcols|]. split; [exact Hx|].
  split; [exact Hz|].
  exact (height_lookup_correct_nonneg_z flat_noise TerrainGenerator.new _ (-7) 3
           eq_refl Hcols Hx Hz).
Defined.

Lemma generate_chunk_post_witness :
  Chunk.voxel_data surface_chunk = Some (VoxelData.new 16) ∧
  VoxelData.wf (VoxelData.new 16) ∧
  Chunk.state (TerrainGenerator.generate_chunk flat_noise TerrainGenerator.new surface_chunk).2
    = ACTIVE ∧
  Chunk.position (TerrainGenerator.generate_chunk flat_noise TerrainGenerator.new surface_chunk).2
    = Chunk.position surface_chunk ∧
  Chunk.mesh (TerrainGenerator.generate_chunk flat_noise TerrainGenerator.new surface_chunk).2
    = Chunk.mesh surface_chunk ∧
  ∃ vd',
    Chunk.voxel_data
      (TerrainGenerator.generate_chunk flat_noise TerrainGenerator.new surface_chunk).2 = Some vd' ∧
    VoxelData.wf vd' ∧
    VoxelData.chunk_size_y vd' = VoxelData.chunk_size_y (VoxelData.new 16).
Proof.
  assert (VoxelData.wf (VoxelData.new 16)) as Hwf
    by (split; [reflexivity|left; split; reflexivity]).
  split; [reflexivity|]. split; [exact Hwf|].
  exact (generate_chunk_post flat_noise TerrainGenerator.new surface_chunk
           (VoxelData.new 16) eq_refl Hwf).
Defined.

Lemma generate_chunk_block_types_witness :
  Chunk.voxel_data surface_chunk = Some (VoxelData.new 16) ∧
  VoxelData.wf (VoxelData.new 16) ∧
  (∀ x y z, VoxelData.in_bounds (VoxelData.new 16) x y z →
     VoxelData.get_voxel (VoxelData.new 16) x y z = Some AIR) ∧
  VoxelData.in_bounds (VoxelData.new 16) 1 2 3 ∧
  ∃ vd' t,
    Chunk.voxel_data
      (TerrainGenerator.generate_chunk flat_noise TerrainGenerator.new surface_chunk).2 = Some vd' ∧
    VoxelData.get_voxel vd' 1 2 3 = Some t ∧
    t ∈ [AIR; STONE; DIRT; GRASS; SAND; WATER; GRAVEL].
Proof.
  assert (VoxelData.wf (VoxelData.new 16)) as Hwf
    by (split; [reflexivity|left; split; reflexivity]).
  assert (∀ x y z, VoxelData.in_bounds (VoxelData.new 16) x y z →
            VoxelData.get_voxel (VoxelData.new 16) x y z = Some AIR) as Hair
    by (intros; reflexivity).
  assert (VoxelData.in_bounds (VoxelData.new 16) 1 2 3) as Hin
    by (unfold VoxelData.in_bounds, CHUNK_SIZE_XZ; simpl; lia).
  split; [reflexivity|]. split; [exact Hwf|]. split; [exact Hair|].
  split; [exact Hin|].
  exact (generate_chunk_block_types flat_noise TerrainGenerator.new surface_chunk
           (VoxelData.new 16) 1 2 3 eq_refl Hwf Hair Hin).
Defined.

Section mesh_quads.

Import ChunkMeshBuilder.

Implicit Types (mask : list VoxelTypeID) (md : MeshData).

Lemma vertex_count_quads md n :
  mesh_data_quads md n → vertex_count md = 4 * Z.of_nat n.
Proof.
  intros (Hv & _). unfold vertex_count. rewrite Hv.
  replace (Z.of_nat (12 * n)) with (4 * Z.of_nat n * 3) by lia.
  by rewrite Z.div_mul.
Qed.

Lemma add_quad_quads md pos size f color n :
  mesh_data_quads md n → mesh_data_quads (add_quad md pos size f color) (S n).
Proof.
  intros Hq. pose proof (vertex_count_quads _ _ Hq) as Hvc.
  destruct Hq as (Hv & Hn & Hu & Hc & Hi & Hr).
  unfold add_quad. rewrite Hvc.
  destruct f; unfold mesh_data_quads; simpl; rewrite !length_app; simpl;
    (do 5 (split; [lia|]));
    (apply Forall_app; split;
     [eapply Forall_impl; [exact Hr|]; simpl; lia
     |repeat (apply Forall_cons; split; [lia|]); apply Forall_nil_2]).
Qed.

Lemma emit_quad_quads b face w u v width height t md n :
  mesh_data_quads md n →
  mesh_data_quads (emit_quad b face w u v width height t md) (S n).
Proof. intros Hq. unfold emit_quad. repeat case_match; by apply add_quad_quads. Qed.

Lemma merge_row_quads fuel b face w u_size v_size v u mask md n :
  mesh_data_quads md n →
  ∃ n', (n ≤ n')%nat ∧
    mesh_data_quads (merge_row fuel b face w u_size v_size v u (mask, md)).2 n'.
Proof.
  revert u mask md n. induction fuel as [|fuel IH]; intros u mask md n Hq.
  { exists n. split; [lia|done]. }
  simpl. destruct (u <? u_size); [|exists n; split; [lia|done]].
  destruct (array_get mask (u + v * u_size)) as [t|]; [|exists n; split; [lia|done]].
  case_bool_decide.
  - by apply IH.
  - edestruct IH as (n' & Hle & Hq'); [by apply emit_quad_quads, Hq|].
    exists n'. split; [lia|exact Hq'].
Qed.

Lemma merge_layer_quads b face w u_size v_size mask md n :
  mesh_data_quads md n →
  ∃ n', (n ≤ n')%nat ∧
    mesh_data_quads (merge_layer b face w u_size v_size (mask, md)).2 n'.
Proof.
  intros Hq. unfold merge_layer.
  apply (foldl_invariant (λ st : list VoxelTypeID * MeshData,
           ∃ n', (n ≤ n')%nat ∧ mesh_data_quads st.2 n')).
  { exists n. split; [lia|done]. }
  intros [mask' md'] v (n' & Hle & Hq').
  destruct (merge_row_quads (Z.to_nat u_size) b face w u_size v_size v 0
              mask' md' n' Hq') as (n'' & Hle' & Hq'').
  exists n''. split; [lia|done].
Qed.

Lemma greedy_mesh_face_quads b chunk face md csy b' md' n :
  greedy_mesh_face b chunk face md csy = Some (b', md') →
  mesh_data_quads md n →
  ∃ n', (n ≤ n')%nat ∧ mesh_data_quads md' n'.
Proof.
  unfold greedy_mesh_face. intros Hg Hq.
  apply bind_Some in Hg as ([mask1 md1] & Hfold & [= <- <-]).
  revert Hfold.
  match goal with |- foldl ?f ?a ?l = _ → _ =>
    assert (∀ s, foldl f a l = Some s →
              ∃ n', (n ≤ n')%nat ∧ mesh_data_quads s.2 n') as Hinv
  end.
  { apply (foldl_invariant (λ st : option (list VoxelTypeID * MeshData),
             ∀ s, st = Some s → ∃ n', (n ≤ n')%nat ∧ mesh_data_quads s.2 n')).
    { intros s [= <-]. exists n. split; [lia|done]. }
    intros st w0 Hst s Hs.
    destruct st as [[mask0 md0]|]; [|done]. simpl in Hs.
    apply bind_Some in Hs as (mask2 & _ & [= <-]).
    destruct (Hst _ eq_refl) as (n0 & Hle0 & Hq0).
    edestruct (merge_layer_quads) as (n' & Hle' & Hq'); [exact Hq0|].
    exists n'. split; [lia|exact Hq']. }
  intros Hfold. exact (Hinv _ Hfold).
Qed.

Lemma length_unpack_vector3 (l : list Q) k :
  length l = (3 * k)%nat → length (unpack_vector3 l) = k.
Proof.
  revert l. induction k as [|k IH]; intros l Hl.
  { by destruct l. }
  destruct l as [|a [|a' [|a'' l]]]; simpl in Hl; try lia.
  simpl. f_equal. apply IH. lia.
Qed.

Lemma length_unpack_vector2 (l : list Q) k :
  length l = (2 * k)%nat → length (unpack_vector2 l) = k.
Proof.
  revert l. induction k as [|k IH]; intros l Hl.
  { by destruct l. }
  destruct l as [|a [|a' l]]; simpl in Hl; try lia.
  simpl. f_equal. apply IH. lia.
Qed.

Lemma length_unpack_color (l : list Q) k :
  length l = (4 * k)%nat → length (unpack_color l) = k.
Proof.
  revert l. induction k as [|k IH]; intros l Hl.
  { by destruct l. }
  destruct l as [|a [|a' [|a'' [|a''' l]]]]; simpl in Hl; try lia.
  simpl. f_equal. apply IH. lia.
Qed.

Lemma build_faces_quads chunk faces b md b' md' n :
  foldl (λ st face, '(b, md) ← st; build_face b chunk face md)
    (Some (b, md)) faces = Some (b', md') →
  mesh_data_quads md n →
  ∃ n', (n ≤ n')%nat ∧ mesh_data_quads md' n'.
Proof.
  revert b md n. induction faces as [|face faces IH]; intros b md n Hf Hq.
  { injection Hf as <- <-. exists n. split; [lia|done]. }
  simpl in Hf.
  destruct (build_face b chunk face md) as [[b1 md1]|] eqn:Hface.
  - unfold build_face in Hface.
    apply bind_Some in Hface as (vd & _ & Hg).
    destruct (greedy_mesh_face_quads _ _ _ _ _ _ _ _ Hg Hq) as (n1 & Hle1 & Hq1).
    destruct (IH _ _ _ Hf Hq1) as (n' & Hle' & Hq').
    exists n'. split; [lia|done].
  - exfalso. clear -Hf. induction faces as [|f faces IH]; [done|]. by apply IH.
Qed.

(** X15: a mesh handed out by [build_mesh] is a list of quads: for
    some [n > 0] it has [4 n] vertices, as many normals, texture
    coordinates and colours, and [6 n] indices, each of which names one
    of the vertices. *)
Theorem build_mesh_indices_valid b chunk b' m :
  build_mesh b chunk = Some (b', Some m) →
  ∃ n : nat,
    (0 < n)%nat ∧
    length (am_vertices m) = (4 * n)%nat ∧
    length (am_normals m) = (4 * n)%nat ∧
    length (am_uvs m) = (4 * n)%nat ∧
    length (am_colors m) = (4 * n)%nat ∧
    length (am_indices m) = (6 * n)%nat ∧
    Forall (λ i, 0 ≤ i < Z.of_nat (length (am_vertices m))) (am_indices m).
Proof.
  unfold build_mesh. intros Hb.
  destruct (Chunk.voxel_data chunk) as [vd|]; [|done].
  destruct (_ && _); [done|].
  apply bind_Some in Hb as ([b1 md1] & Hfold & Hb).
  destruct (vertex_count md1 =? 0) eqn:Hvc; [done|].
  injection Hb as <- <-. apply Z.eqb_neq in Hvc.
  destruct (build_faces_quads _ _ _ _ _ _ 0%nat Hfold) as (n & _ & Hq).
  { unfold mesh_data_quads. simpl. do 5 (split; [done|]). apply Forall_nil_2. }
  rewrite (vertex_count_quads _ _ Hq) in Hvc.
  destruct Hq as (Hv & Hn & Hu & Hc & Hi & Hr).
  exists n. simpl. split; [lia|].
  rewrite (length_unpack_vector3 _ (4 * n)) by lia.
  rewrite (length_unpack_vector3 _ (4 * n)) by lia.
  rewrite (length_unpack_vector2 _ (4 * n)) by lia.
  rewrite (length_unpack_color _ (4 * n)) by lia.
  do 5 (split; [done|]).
  eapply Forall_impl; [exact Hr|]. simpl. lia.
Qed.

End mesh_quads.
(** ** ChunkMeshBuilder: the greedy merge on any mask *)

Section merge_any_mask.

Import ChunkMeshBuilder.

Variables (b : ChunkMeshBuilder.t) (face : Face) (w u_size v_size : Z).

Local Abbreviation cell mask u v := (array_get mask (u + v * u_size)).

Implicit Types (mask : list VoxelTypeID) (md : MeshData).

Lemma grow_width_bounds fuel mask u v t width :
  width ≤ grow_width fuel mask u_size u v t width ∧
  (u + width ≤ u_size → u + grow_width fuel mask u_size u v t width ≤ u_size).
Proof.
  revert width. induction fuel as [|fuel IH]; intros width; [simpl; lia|].
  simpl. destruct (u + width <? u_size) eqn:Hlt; [|simpl; lia].
  apply Z.ltb_lt in Hlt. simpl. case_bool_decide; [|lia].
  destruct (IH (width + 1)) as [Hle Hub]. lia.
Qed.

Lemma grow_height_bounds fuel mask u v t width height :
  height ≤ grow_height fuel mask u_size v_size u v t width height ∧
  (v + height ≤ v_size →
   v + grow_height fuel mask u_size v_size u v t width height ≤ v_size).
Proof.
  revert height. induction fuel as [|fuel IH]; intros height; [simpl; lia|].
  simpl. destruct (v + height <? v_size) eqn:Hlt; [|lia].
  apply Z.ltb_lt in Hlt. destruct (row_matches _ _ _ _ _ _); [|lia].
  destruct (IH (height + 1)) as [Hle Hub]. lia.
Qed.

Lemma emit_quad_vertices u v width height t md :
  length (vertices (emit_quad b face w u v width height t md))
  = (length (vertices md) + 12)%nat.
Proof. unfold emit_quad. repeat case_match; apply add_quad_lengths. Qed.

(** One row, from column [u] on, of a mask that is large enough: the
    row is emptied from [u] on, the cells before it in sweep order are
    left alone, and either a quad is emitted or nothing changes. *)
Lemma merge_row_spec fuel mask md v u :
  0 ≤ u → 0 ≤ v < v_size →
  u_size * v_size ≤ Z.of_nat (length mask) →
  u_size - u ≤ Z.of_nat fuel →
  let r := merge_row fuel b face w u_size v_size v u (mask, md) in
  length r.1 = length mask ∧
  (length (vertices md) ≤ length (vertices r.2))%nat ∧
  (length (vertices r.2) = length (vertices md) → r = (mask, md)) ∧
  (∀ u' v', 0 ≤ u' < u_size → 0 ≤ v' < v_size →
     v' < v ∨ (v' = v ∧ u' < u) → cell r.1 u' v' = cell mask u' v') ∧
  (∀ u', u ≤ u' < u_size → cell r.1 u' v = Some AIR).
Proof.
  revert u mask md. induction fuel as [|fuel IH]; intros u mask md Hu Hv Hlen Hfuel.
  { simpl. do 3 (split; [done|]). split; [done|]. intros u' Hu'. lia. }
  cbn [merge_row]. destruct (u <? u_size) eqn:Hlt.
  2:{ apply Z.ltb_ge in Hlt. simpl. do 3 (split; [done|]). split; [done|].
      intros u' Hu'. lia. }
  apply Z.ltb_lt in Hlt.
  destruct (array_get_is_Some mask (u + v * u_size)) as [t Ht]; [nia|].
  rewrite Ht. case_bool_decide as Hair.
  - subst t.
    destruct (IH (u + 1) mask md) as (Hl & Hmono & Hsame & Hbefore & Hrow);
      [lia|done|done|lia|].
    split; [done|]. split; [done|]. split; [done|]. split.
    + intros u' v' Hu' Hv' Hpos. apply Hbefore; [done|done|lia].
    + intros u' Hu'. destruct (decide (u' = u)) as [->|Hne].
      * rewrite Hbefore; [done|lia|lia|lia].
      * apply Hrow. lia.
  - set (width := grow_width (Z.to_nat u_size) mask u_size u v t 1).
    set (height := grow_height (Z.to_nat v_size) mask u_size v_size u v t width 1).
    destruct (grow_width_bounds (Z.to_nat u_size) mask u v t 1) as [Hw1 Hw2].
    destruct (grow_height_bounds (Z.to_nat v_size) mask u v t width 1) as [Hh1 Hh2].
    fold width in Hw1, Hw2. fold height in Hh1, Hh2.
    specialize (Hw2 ltac:(lia)). specialize (Hh2 ltac:(lia)).
    set (mask1 := clear_area mask u_size u v width height).
    set (md1 := emit_quad b face w u v width height t md).
    assert (length mask1 = length mask) as Hl1 by apply clear_area_length.
    assert (length (vertices md1) = (length (vertices md) + 12)%nat) as Hmd1
      by apply emit_quad_vertices.
    destruct (IH (u + width) mask1 md1) as (Hl & Hmono & Hsame & Hbefore & Hrow);
      [lia|done|lia|lia|].
    split; [lia|]. split; [lia|]. split; [lia|]. split.
    + intros u' v' Hu' Hv' Hpos. rewrite Hbefore; [|done|done|lia].
      unfold mask1. rewrite (clear_area_cell u_size v_size) by lia.
      rewrite decide_False; [done|lia].
    + intros u' Hu'. destruct (decide (u' < u + width)) as [Hin|Hout].
      * rewrite Hbefore; [|lia|lia|lia].
        unfold mask1. rewrite (clear_area_cell u_size v_size) by lia.
        rewrite decide_True; [done|lia].
      * apply Hrow. lia.
Qed.

(** The rows [0 .. k - 1] of a layer. *)
Lemma merge_rows_spec mask md (k : nat) :
  0 ≤ u_size → Z.of_nat k ≤ v_size →
  u_size * v_size ≤ Z.of_nat (length mask) →
  let r := foldl (λ st v, merge_row (Z.to_nat u_size) b face w u_size v_size v 0 st)
             (mask, md) (seqZ 0 (Z.of_nat k)) in
  length r.1 = length mask ∧
  (length (vertices md) ≤ length (vertices r.2))%nat ∧
  (length (vertices r.2) = length (vertices md) → r = (mask, md)) ∧
  (∀ u v, 0 ≤ u < u_size → 0 ≤ v < Z.of_nat k → cell r.1 u v = Some AIR).
Proof.
  intros Hus Hk Hlen. induction k as [|k IH].
  { simpl. do 3 (split; [done|]). intros u v Hu Hv. lia. }
  replace (Z.of_nat (S k)) with (Z.of_nat k + 1) by lia.
  rewrite seqZ_app by lia. rewrite foldl_app.
  destruct IH as (Hl & Hmono & Hsame & Hdone); [lia|].
  destruct (foldl _ (mask, md) (seqZ 0 (Z.of_nat k))) as [mask1 md1].
  simpl in Hl, Hmono, Hsame, Hdone. cbn [seqZ]. simpl.
  change (Z.of_nat 0 + (0 + Z.of_nat k)) with (0 + (0 + Z.of_nat k)).
  rewrite !Z.add_0_l.
  destruct (merge_row_spec (Z.to_nat u_size) mask1 md1 (Z.of_nat k) 0)
    as (Hl' & Hmono' & Hsame' & Hbefore & Hrow); [lia|lia|lia|lia|].
  split; [lia|]. split; [lia|]. split.
  - intros Heq. rewrite Hsame' by lia. apply Hsame. lia.
  - intros u v Hu Hv. destruct (decide (v = Z.of_nat k)) as [->|Hne].
    + apply Hrow. lia.
    + rewrite Hbefore; [|done|lia|lia]. apply Hdone; lia.
Qed.

Lemma merge_layer_spec mask md :
  0 ≤ u_size → u_size * v_size ≤ Z.of_nat (length mask) →
  let r := merge_layer b face w u_size v_size (mask, md) in
  length r.1 = length mask ∧
  (length (vertices md) ≤ length (vertices r.2))%nat ∧
  (length (vertices r.2) = length (vertices md) → r = (mask, md)) ∧
  (∀ u v, 0 ≤ u < u_size → 0 ≤ v < v_size → cell r.1 u v = Some AIR).
Proof.
  intros Hus Hlen. unfold merge_layer.
  destruct (decide (0 ≤ v_size)) as [Hvs|Hvs].
  - pose proof (merge_rows_spec mask md (Z.to_nat v_size)) as H.
    rewrite Z2Nat.id in H by done.
    destruct H as (Hl & Hmono & Hsame & Hdone); [done|lia|done|].
    do 3 (split; [done|]). intros u v Hu Hv. apply Hdone; lia.
  - assert (seqZ 0 v_size = []) as -> by (unfold seqZ; by replace (Z.to_nat v_size) with O by lia).
    simpl. do 3 (split; [done|]). intros u v Hu Hv. lia.
Qed.

(** X16: one pass of the greedy merge empties the layer mask, whatever
    it held: afterwards every cell of the layer is empty.  Mesh data is
    only ever added, and none is added exactly when the mask was empty
    already, in which case mask and mesh data are left as they were. *)
Theorem merge_layer_empties_mask mask md :
  0 ≤ u_size → u_size * v_size ≤ Z.of_nat (length mask) →
  let r := merge_layer b face w u_size v_size (mask, md) in
  length r.1 = length mask ∧
  (∀ u v, 0 ≤ u < u_size → 0 ≤ v < v_size → cell r.1 u v = Some AIR) ∧
  (length (vertices md) ≤ length (vertices r.2))%nat ∧
  (length (vertices r.2) = length (vertices md) ↔
   ∀ u v, 0 ≤ u < u_size → 0 ≤ v < v_size → cell mask u v = Some AIR) ∧
  (length (vertices r.2) = length (vertices md) → r = (mask, md)).
Proof.
  intros Hus Hlen r.
  destruct (merge_layer_spec mask md Hus Hlen) as (Hl & Hmono & Hsame & Hdone).
  fold r in Hl, Hmono, Hsame, Hdone.
  split; [done|]. split; [done|]. split; [done|]. split; [|done].
  split.
  - intros Heq u v Hu Hv. rewrite Hsame in Hdone by done. by apply Hdone.
  - intros Hair. unfold r, merge_layer. rewrite merge_rows_air; [done|].
    intros v u Hv%elem_of_seqZ Hu. apply Hair; lia.
Qed.

End merge_any_mask.

Lemma merge_layer_empties_mask_witness :
  let r := ChunkMeshBuilder.merge_layer (ChunkMeshBuilder.new None) FACE_UP 5 3 2
             (sample_mask, empty_mesh_data) in
  length r.1 = length sample_mask ∧
  (∀ u v, 0 ≤ u < 3 → 0 ≤ v < 2 → array_get r.1 (u + v * 3) = Some AIR) ∧
  (length (vertices empty_mesh_data) ≤ length (vertices r.2))%nat ∧
  (length (vertices r.2) = length (vertices empty_mesh_data) ↔
   ∀ u v, 0 ≤ u < 3 → 0 ≤ v < 2 → array_get sample_mask (u + v * 3) = Some AIR) ∧
  (length (vertices r.2) = length (vertices empty_mesh_data) →
   r = (sample_mask, empty_mesh_data)).
Proof.
  apply (merge_layer_empties_mask (ChunkMeshBuilder.new None) FACE_UP 5 3 2
           sample_mask empty_mesh_data); [lia|simpl; lia].
Defined.
(** ** ChunkMeshBuilder: the mask of a layer and the whole mesh *)

Section build_mesh_facts.

Import ChunkMeshBuilder.

Implicit Types (mask : list VoxelTypeID) (md : MeshData).

Lemma build_mask_cells b chunk face w u_size v_size mask :
  build_mask b chunk face w u_size v_size mask
  = foldl (λ st p, m ← st; build_mask_cell b chunk face w u_size m p.1 p.2)
      (Some mask) (seqZ 0 v_size ≫= λ v, pair v <$> seqZ 0 u_size).
Proof.
  rewrite <- (foldl_nested
                (λ st v u, m ← st; build_mask_cell b chunk face w u_size m v u)).
  destruct face; reflexivity.
Qed.

Lemma cells_NoDup (n m : Z) :
  NoDup (seqZ 0 n ≫= λ v, pair v <$> seqZ 0 m).
Proof.
  apply NoDup_bind.
  - intros v1 v2 [v u] _ _ (u1 & [= -> ->] & _)%list_elem_of_fmap
      (u2 & [= -> ->] & _)%list_elem_of_fmap. done.
  - intros v _. apply NoDup_fmap_2; [|apply NoDup_seqZ].
    intros u1 u2 [= ->]. done.
  - apply NoDup_seqZ.
Qed.

Lemma cells_elem_of (n m v u : Z) :
  (v, u) ∈ (seqZ 0 n ≫= λ v, pair v <$> seqZ 0 m) ↔ 0 ≤ v < n ∧ 0 ≤ u < m.
Proof.
  rewrite list_elem_of_bind. split.
  - intros (v' & (u' & [= -> ->] & Hu%elem_of_seqZ)%list_elem_of_fmap
              & Hv%elem_of_seqZ). lia.
  - intros [Hv Hu]. exists v. split.
    + apply list_elem_of_fmap. exists u. split; [done|]. apply elem_of_seqZ. lia.
    + apply elem_of_seqZ. lia.
Qed.

Section with_chunk.

Variables (b : ChunkMeshBuilder.t) (chunk : Chunk.t) (vd : VoxelData.t).
Hypothesis Hvd : Chunk.voxel_data chunk = Some vd.
Hypothesis Hwf : VoxelData.wf vd.

(** What [should_render_face] answers for a voxel inside the chunk. *)
Lemma should_render_face_spec x y z nx ny nz face :
  VoxelData.in_bounds vd x y z →
  ∃ t r,
    VoxelData.get_voxel vd x y z = Some t ∧
    should_render_face b chunk x y z nx ny nz face = Some r ∧
    (r = true → t ≠ AIR) ∧
    (t ≠ AIR →
     ¬ VoxelData.in_bounds vd nx ny nz ∨ VoxelData.get_voxel vd nx ny nz = Some AIR →
     r = true).
Proof.
  intros Hin. destruct (get_voxel_in_bounds vd x y z Hwf Hin) as [t Ht].
  exists t. unfold should_render_face. rewrite Hvd. simpl. rewrite Ht. simpl.
  case_bool_decide as Hair.
  { exists false. split; [done|]. split; [done|]. split; [done|]. done. }
  destruct ((nx >=? 0) && (nx <? CHUNK_SIZE_XZ) && (ny >=? 0)
            && (ny <? VoxelData.chunk_size_y vd) && (nz >=? 0)
            && (nz <? CHUNK_SIZE_XZ)) eqn:Hrange.
  - assert (VoxelData.in_bounds vd nx ny nz) as Hnin.
    { rewrite !andb_true_iff, !Z.geb_leb, !Z.leb_le, !Z.ltb_lt in Hrange.
      unfold VoxelData.in_bounds. lia. }
    destruct (get_voxel_in_bounds vd nx ny nz Hwf Hnin) as [t' Ht'].
    rewrite Ht'. simpl.
    destruct (type_registry b) as [registry|].
    + destruct (bool_decide (t' ≠ AIR)
                && negb (VoxelTypeRegistry.is_transparent registry t')) eqn:Hcull.
      * exists false. split; [done|]. split; [done|]. split; [done|].
        intros _ [Hout|Hnair]; [done|].
        injection Hnair as ->. apply andb_true_iff in Hcull as [Hne _].
        by apply bool_decide_eq_true in Hne.
      * exists true. done.
    + exists true. done.
  - exists true. done.
Qed.

Lemma build_mask_cell_spec face w u_size mask v u :
  VoxelData.in_bounds vd (layer_cell face w u v).1.1
    (layer_cell face w u v).1.2 (layer_cell face w u v).2 →
  ∃ t r,
    VoxelData.get_voxel vd (layer_cell face w u v).1.1
      (layer_cell face w u v).1.2 (layer_cell face w u v).2 = Some t ∧
    should_render_face b chunk
      (layer_cell face w u v).1.1 (layer_cell face w u v).1.2
      (layer_cell face w u v).2
      (layer_neighbor face w u v).1.1 (layer_neighbor face w u v).1.2
      (layer_neighbor face w u v).2 face = Some r ∧
    build_mask_cell b chunk face w u_size mask v u
    = Some (if r then array_set mask (u + v * u_size) t else mask).
Proof.
  intros Hin.
  destruct (should_render_face_spec _ _ _
              (layer_neighbor face w u v).1.1 (layer_neighbor face w u v).1.2
              (layer_neighbor face w u v).2 face Hin)
    as (t & r & Ht & Hr & _).
  exists t, r. split; [done|]. split; [done|].
  unfold build_mask_cell. cbv zeta. rewrite Hr. simpl.
  destruct r; [|done]. rewrite Hvd. simpl. by rewrite Ht.
Qed.

Section one_layer.

Variables (face : Face) (w u_size v_size : Z).

Hypothesis Hus : 0 ≤ u_size.
Hypothesis Hcells : ∀ u v, 0 ≤ u < u_size → 0 ≤ v < v_size →
  VoxelData.in_bounds vd (layer_cell face w u v).1.1
    (layer_cell face w u v).1.2 (layer_cell face w u v).2.

Local Abbreviation cell mask u v := (array_get mask (u + v * u_size)).

Lemma build_mask_fold mask (cols : list (Z * Z)) :
  u_size * v_size ≤ Z.of_nat (length mask) →
  NoDup cols →
  (∀ v u, (v, u) ∈ cols → 0 ≤ v < v_size ∧ 0 ≤ u < u_size) →
  ∃ mask',
    foldl (λ st p, m ← st; build_mask_cell b chunk face w u_size m p.1 p.2)
      (Some mask) cols = Some mask' ∧
    length mask' = length mask ∧
    ∀ u v, 0 ≤ u < u_size → 0 ≤ v < v_size →
      ∃ t r,
        VoxelData.get_voxel vd (layer_cell face w u v).1.1
          (layer_cell face w u v).1.2 (layer_cell face w u v).2 = Some t ∧
        should_render_face b chunk
          (layer_cell face w u v).1.1 (layer_cell face w u v).1.2
          (layer_cell face w u v).2
          (layer_neighbor face w u v).1.1 (layer_neighbor face w u v).1.2
          (layer_neighbor face w u v).2 face = Some r ∧
        cell mask' u v
        = if decide ((v, u) ∈ cols)
          then (if r then Some t else cell mask u v)
          else cell mask u v.
Proof.
  intros Hlen. induction cols as [|[v0 u0] cols IH] using rev_ind; intros Hnd Hrange.
  { exists mask. split; [done|]. split; [done|]. intros u v Hu Hv.
    destruct (build_mask_cell_spec face w u_size mask v u (Hcells u v Hu Hv))
      as (t & r & Ht & Hr & _).
    exists t, r. split; [done|]. split; [done|].
    rewrite decide_False; [done|]. apply not_elem_of_nil. }
  apply NoDup_app in Hnd as (Hnd & Hfresh & _).
  destruct IH as (mask1 & Hfold & Hl1 & Hcell1); [done| |].
  { intros v u Hin. apply Hrange. apply elem_of_app. by left. }
  destruct (Hrange v0 u0) as [Hv0 Hu0]; [apply elem_of_app; right; left|].
  rewrite foldl_snoc, Hfold. simpl.
  destruct (build_mask_cell_spec face w u_size mask1 v0 u0 (Hcells u0 v0 Hu0 Hv0))
    as (t0 & r0 & Ht0 & Hr0 & ->).
  eexists. split; [done|]. split.
  { destruct r0; [by rewrite array_set_length|done]. }
  intros u v Hu Hv.
  destruct (Hcell1 u v Hu Hv) as (t & r & Ht & Hr & Hc).
  exists t, r. split; [done|]. split; [done|].
  assert ((v0, u0) ∉ cols) as Hnew.
  { intros Hin. apply (Hfresh _ Hin). left. }
  destruct (decide ((v, u) = (v0, u0))) as [[= -> ->]|Hne].
  - rewrite decide_True by (apply elem_of_app; right; left).
    rewrite Ht0 in Ht. injection Ht as <-.
    rewrite Hr0 in Hr. injection Hr as <-.
    destruct r0.
    + apply array_get_set_eq. rewrite array_set_length || idtac. nia.
    + rewrite Hc. by rewrite decide_False.
  - assert (cell (if r0 then array_set mask1 (u0 + v0 * u_size) t0 else mask1) u v
            = cell mask1 u v) as ->.
    { destruct r0; [|done]. apply array_get_set_ne. intros Heq.
      apply (cell_index_inj u_size) in Heq as [-> ->]; [done|lia|lia]. }
    rewrite Hc. destruct (decide ((v, u) ∈ cols)) as [Hin|Hnin].
    + rewrite decide_True; [done|]. apply elem_of_app. by left.
    + rewrite decide_False; [done|].
      intros [Hin|[= -> ->]%list_elem_of_singleton]%elem_of_app; done.
Qed.

Lemma build_mask_spec mask :
  u_size * v_size ≤ Z.of_nat (length mask) →
  ∃ mask',
    build_mask b chunk face w u_size v_size mask = Some mask' ∧
    length mask' = length mask ∧
    ∀ u v, 0 ≤ u < u_size → 0 ≤ v < v_size →
      ∃ t r,
        VoxelData.get_voxel vd (layer_cell face w u v).1.1
          (layer_cell face w u v).1.2 (layer_cell face w u v).2 = Some t ∧
        should_render_face b chunk
          (layer_cell face w u v).1.1 (layer_cell face w u v).1.2
          (layer_cell face w u v).2
          (layer_neighbor face w u v).1.1 (layer_neighbor face w u v).1.2
          (layer_neighbor face w u v).2 face = Some r ∧
        cell mask' u v = if r then Some t else cell mask u v.
Proof.
  intros Hlen. rewrite build_mask_cells.
  destruct (build_mask_fold mask _ Hlen (cells_NoDup v_size u_size))
    as (mask' & Hfold & Hl & Hcell).
  { intros v u Hin. by apply cells_elem_of in Hin. }
  exists mask'. split; [done|]. split; [done|].
  intros u v Hu Hv. destruct (Hcell u v Hu Hv) as (t & r & Ht & Hr & Hc).
  exists t, r. split; [done|]. split; [done|].
  rewrite Hc. rewrite decide_True; [done|]. by apply cells_elem_of.
Qed.

(** One layer: reset, build, merge. *)
Lemma sweep_layer_spec mask md :
  u_size * v_size ≤ Z.of_nat (length mask) →
  ∃ mask' md',
    sweep_layer b chunk face u_size v_size (Some (mask, md)) w = Some (mask', md') ∧
    length mask' = length mask ∧
    (length (vertices md) ≤ length (vertices md'))%nat ∧
    ((∀ x y z, VoxelData.in_bounds vd x y z →
        VoxelData.get_voxel vd x y z = Some AIR) → md' = md) ∧
    (∀ u v t, 0 ≤ u < u_size → 0 ≤ v < v_size →
       VoxelData.get_voxel vd (layer_cell face w u v).1.1
         (layer_cell face w u v).1.2 (layer_cell face w u v).2 = Some t →
       t ≠ AIR →
       ¬ VoxelData.in_bounds vd (layer_neighbor face w u v).1.1
           (layer_neighbor face w u v).1.2 (layer_neighbor face w u v).2
       ∨ VoxelData.get_voxel vd (layer_neighbor face w u v).1.1
           (layer_neighbor face w u v).1.2 (layer_neighbor face w u v).2
         = Some AIR →
       (length (vertices md) < length (vertices md'))%nat).
Proof.
  intros Hlen. unfold sweep_layer. simpl.
  set (mask1 := replicate (Z.to_nat (u_size * v_size)) AIR
                ++ drop (Z.to_nat (u_size * v_size)) mask).
  assert (length mask1 = length mask) as Hl1.
  { unfold mask1. rewrite length_app, length_replicate, length_drop. lia. }
  assert (∀ u v, 0 ≤ u < u_size → 0 ≤ v < v_size → cell mask1 u v = Some AIR)
    as Hair1.
  { intros u v Hu Hv. unfold mask1, array_get.
    rewrite decide_True by nia.
    rewrite lookup_app_l by (rewrite length_replicate; nia).
    apply lookup_replicate_2. nia. }
  destruct (build_mask_spec mask1) as (mask2 & -> & Hl2 & Hcell2); [lia|].
  simpl.
  destruct (merge_layer_spec b face w u_size v_size mask2 md Hus)
    as (Hl3 & Hmono & Hsame & Hdone); [lia|].
  destruct (merge_layer b face w u_size v_size (mask2, md)) as [mask3 md3] eqn:Hm.
  simpl in *. exists mask3, md3. split; [done|]. split; [lia|]. split; [done|].
  split.
  - intros Hair.
    assert (merge_layer b face w u_size v_size (mask2, md) = (mask2, md)) as Heq.
    { unfold merge_layer. apply merge_rows_air.
      intros v u Hv%elem_of_seqZ Hu.
      destruct (Hcell2 u v Hu ltac:(lia)) as (t & r & Ht & _ & ->).
      rewrite Hair in Ht by (apply Hcells; lia). injection Ht as <-.
      destruct r; [done|]. apply Hair1; lia. }
    rewrite Heq in Hm. by injection Hm as _ <-.
  - intros u v t Hu Hv Ht Hne Hexp.
    destruct (decide (length (vertices md3) = length (vertices md))) as [Heq|]; [|lia].
    exfalso. injection (Hsame Heq) as -> ->.
    destruct (Hcell2 u v Hu Hv) as (t' & r & Ht' & Hr & Hc).
    rewrite Ht in Ht'. injection Ht' as <-.
    destruct (should_render_face_spec _ _ _
                (layer_neighbor face w u v).1.1 (layer_neighbor face w u v).1.2
                (layer_neighbor face w u v).2 face (Hcells u v Hu Hv))
      as (t' & r' & Ht' & Hr' & _ & Hrender).
    rewrite Ht in Ht'. injection Ht' as <-.
    rewrite Hr in Hr'. injection Hr' as <-.
    rewrite (Hrender Hne Hexp) in Hc.
    rewrite Hdone in Hc by done. by injection Hc as <-.
Qed.

End one_layer.

End with_chunk.

End build_mesh_facts.
Section build_mesh_more.

Import ChunkMeshBuilder.

Implicit Types (mask : list VoxelTypeID) (md : MeshData).

Variables (chunk : Chunk.t) (vd : VoxelData.t).
Hypothesis Hvd : Chunk.voxel_data chunk = Some vd.
Hypothesis Hwf : VoxelData.wf vd.
Hypothesis Hcsy : 0 < VoxelData.chunk_size_y vd.

Local Abbreviation csy := (VoxelData.chunk_size_y vd).

(** The chunk holds no block. *)
Local Abbreviation empty_chunk :=
  (∀ x y z, VoxelData.in_bounds vd x y z → VoxelData.get_voxel vd x y z = Some AIR).

(** The voxel behind the mask cell [(u, v)] of layer [w] is a block whose
    neighbour across the face is outside the chunk or empty. *)
Local Abbreviation exposed face w u v :=
  (∃ t, VoxelData.get_voxel vd (layer_cell face w u v).1.1
          (layer_cell face w u v).1.2 (layer_cell face w u v).2 = Some t ∧
        t ≠ AIR ∧
        (¬ VoxelData.in_bounds vd (layer_neighbor face w u v).1.1
             (layer_neighbor face w u v).1.2 (layer_neighbor face w u v).2
         ∨ VoxelData.get_voxel vd (layer_neighbor face w u v).1.1
             (layer_neighbor face w u v).1.2 (layer_neighbor face w u v).2
           = Some AIR)).

Lemma layer_cell_in_bounds face w u v :
  0 ≤ w < w_max_of face csy → 0 ≤ u < u_size_of face →
  0 ≤ v < v_size_of face csy →
  VoxelData.in_bounds vd (layer_cell face w u v).1.1
    (layer_cell face w u v).1.2 (layer_cell face w u v).2.
Proof.
  unfold VoxelData.in_bounds, w_max_of, u_size_of, v_size_of, layer_cell.
  destruct face; simpl; lia.
Qed.

Lemma sweep_layers_spec b face mask md (k : nat) :
  Z.of_nat k ≤ w_max_of face csy →
  u_size_of face * v_size_of face csy ≤ Z.of_nat (length mask) →
  ∃ mask' md',
    foldl (sweep_layer b chunk face (u_size_of face) (v_size_of face csy))
      (Some (mask, md)) (seqZ 0 (Z.of_nat k)) = Some (mask', md') ∧
    length mask' = length mask ∧
    (length (vertices md) ≤ length (vertices md'))%nat ∧
    (empty_chunk → md' = md) ∧
    (∀ w u v, 0 ≤ w < Z.of_nat k → 0 ≤ u < u_size_of face →
       0 ≤ v < v_size_of face csy → exposed face w u v →
       (length (vertices md) < length (vertices md'))%nat).
Proof.
  intros Hk Hlen. induction k as [|k IH].
  { exists mask, md. split; [done|]. split; [done|]. split; [done|].
    split; [done|]. intros w u v Hw. lia. }
  destruct IH as (mask1 & md1 & Hfold & Hl1 & Hmono1 & Hair1 & Hexp1); [lia|].
  replace (Z.of_nat (S k)) with (Z.of_nat k + 1) by lia.
  rewrite seqZ_app by lia. rewrite foldl_app, Hfold.
  assert (seqZ (0 + Z.of_nat k) 1 = [Z.of_nat k]) as ->
    by (rewrite Z.add_0_l; reflexivity).
  cbn [foldl].
  destruct (sweep_layer_spec b chunk vd Hvd Hwf face (Z.of_nat k)
              (u_size_of face) (v_size_of face csy)) with (mask := mask1) (md := md1)
    as (mask2 & md2 & -> & Hl2 & Hmono2 & Hair2 & Hexp2).
  { unfold u_size_of, CHUNK_SIZE_XZ. lia. }
  { intros u v Hu Hv. apply layer_cell_in_bounds; [lia|done|done]. }
  { lia. }
  exists mask2, md2. split; [done|]. split; [lia|]. split; [lia|]. split.
  - intros Hair. rewrite Hair2 by done. by apply Hair1.
  - intros w u v Hw Hu Hv Hexp.
    destruct (decide (w = Z.of_nat k)) as [->|Hne].
    + destruct Hexp as (t & Ht & Hne & Hn).
      pose proof (Hexp2 u v t Hu Hv Ht Hne Hn). lia.
    + pose proof (Hexp1 w u v ltac:(lia) Hu Hv Hexp). lia.
Qed.

Lemma greedy_mesh_face_spec b face md :
  mask_allocated b →
  ∃ b' md',
    greedy_mesh_face b chunk face md csy = Some (b', md') ∧
    mask_allocated b' ∧
    type_registry b' = type_registry b ∧
    mask_size b ≤ mask_size b' ∧
    u_size_of face * v_size_of face csy ≤ mask_size b' ∧
    (length (vertices md) ≤ length (vertices md'))%nat ∧
    (empty_chunk → md' = md) ∧
    (∀ w u v, 0 ≤ w < w_max_of face csy → 0 ≤ u < u_size_of face →
       0 ≤ v < v_size_of face csy → exposed face w u v →
       (length (vertices md) < length (vertices md'))%nat).
Proof.
  intros Hb. unfold mask_allocated in Hb.
  set (cms := u_size_of face * v_size_of face csy).
  set (b1 := if cms >? mask_size b
             then {| type_registry := type_registry b;
                     mask := mask b ++ replicate
                               (Z.to_nat cms - length (mask b))%nat AIR;
                     mask_size := cms |}
             else b).
  assert (Z.of_nat (length (mask b1)) = mask_size b1 ∧
          type_registry b1 = type_registry b ∧
          mask_size b ≤ mask_size b1 ∧ cms ≤ mask_size b1) as (Hb1 & Hr1 & Hm1 & Hc1).
  { unfold b1. destruct (cms >? mask_size b) eqn:Hgt.
    - apply Z.gtb_lt in Hgt. simpl. rewrite length_app, length_replicate.
      split; [lia|]. split; [done|]. lia.
    - rewrite Z.gtb_ltb in Hgt. apply Z.ltb_ge in Hgt.
      split; [done|]. split; [done|]. lia. }
  assert (0 ≤ w_max_of face csy) as Hwmax.
  { unfold w_max_of, CHUNK_SIZE_XZ. destruct face; simpl; lia. }
  destruct (sweep_layers_spec b1 face (mask b1) md (Z.to_nat (w_max_of face csy)))
    as (mask' & md' & Hfold & Hl & Hmono & Hair & Hexp); [lia|fold cms; lia|].
  rewrite Z2Nat.id in Hfold, Hexp by done.
  exists {| type_registry := type_registry b1; mask := mask';
            mask_size := mask_size b1 |}, md'.
  split.
  { change (greedy_mesh_face b chunk face md csy)
      with (st ← foldl (sweep_layer b1 chunk face (u_size_of face)
                          (v_size_of face csy))
                   (Some (mask b1, md)) (seqZ 0 (w_max_of face csy));
            Some ({| type_registry := type_registry b1; mask := st.1;
                     mask_size := mask_size b1 |}, st.2)).
    by rewrite Hfold. }
  unfold mask_allocated. simpl.
  split; [lia|]. split; [done|]. split; [done|]. split; [done|].
  split; [done|]. split; [done|]. done.
Qed.

Lemma build_faces_spec faces b md :
  mask_allocated b →
  ∃ b' md',
    foldl (λ st face, '(b, md) ← st; build_face b chunk face md)
      (Some (b, md)) faces = Some (b', md') ∧
    mask_allocated b' ∧
    type_registry b' = type_registry b ∧
    mask_size b ≤ mask_size b' ∧
    (∀ face, face ∈ faces →
       u_size_of face * v_size_of face csy ≤ mask_size b') ∧
    (length (vertices md) ≤ length (vertices md'))%nat ∧
    (empty_chunk → md' = md) ∧
    (∀ face w u v, face ∈ faces →
       0 ≤ w < w_max_of face csy → 0 ≤ u < u_size_of face →
       0 ≤ v < v_size_of face csy → exposed face w u v →
       (length (vertices md) < length (vertices md'))%nat).
Proof.
  revert b md. induction faces as [|face faces IH]; intros b md Hb.
  { exists b, md. split; [done|]. split; [done|]. split; [done|].
    split; [done|]. split; [intros f Hf; by apply elem_of_nil in Hf|].
    split; [done|]. split; [done|].
    intros f w u v Hf. by apply elem_of_nil in Hf. }
  destruct (greedy_mesh_face_spec b face md Hb)
    as (b1 & md1 & Hg & Hb1 & Hr1 & Hm1 & Hc1 & Hmono1 & Hair1 & Hexp1).
  destruct (IH b1 md1 Hb1)
    as (b' & md' & Hfold & Hb' & Hr' & Hm' & Hc' & Hmono' & Hair' & Hexp').
  exists b', md'. cbn [foldl]. simpl. unfold build_face at 2. rewrite Hvd. simpl.
  rewrite Hg. split; [exact Hfold|]. split; [done|]. split; [congruence|].
  split; [lia|]. split.
  { intros f [->|Hf]%elem_of_cons; [lia|by apply Hc']. }
  split; [lia|]. split.
  - intros Hair. rewrite Hair' by done. by apply Hair1.
  - intros f w u v [->|Hf]%elem_of_cons Hw Hu Hv Hexp.
    + pose proof (Hexp1 w u v Hw Hu Hv Hexp). lia.
    + pose proof (Hexp' f w u v Hf Hw Hu Hv Hexp). lia.
Qed.

(** Along a row of the chunk, the first block from the left has nothing
    to its left. *)
Lemma first_block_in_row (n : nat) x y z t :
  Z.to_nat x = n →
  VoxelData.in_bounds vd x y z →
  VoxelData.get_voxel vd x y z = Some t → t ≠ AIR →
  ∃ x0 t0, 0 ≤ x0 ≤ x ∧
    VoxelData.get_voxel vd x0 y z = Some t0 ∧ t0 ≠ AIR ∧
    (¬ VoxelData.in_bounds vd (x0 - 1) y z
     ∨ VoxelData.get_voxel vd (x0 - 1) y z = Some AIR).
Proof.
  revert x t. induction n as [|n IH]; intros x t Hn Hin Ht Hne.
  { exists x, t. unfold VoxelData.in_bounds in *.
    split; [lia|]. split; [done|]. split; [done|]. left. lia. }
  assert (VoxelData.in_bounds vd (x - 1) y z) as Hin'
    by (unfold VoxelData.in_bounds in *; lia).
  destruct (get_voxel_in_bounds vd (x - 1) y z Hwf Hin') as [t' Ht'].
  destruct (decide (t' = AIR)) as [->|Hne'].
  - exists x, t. unfold VoxelData.in_bounds in *.
    split; [lia|]. split; [done|]. split; [done|]. by right.
  - destruct (IH (x - 1) t') as (x0 & t0 & Hx0 & Ht0 & Hne0 & Hleft);
      [lia|done|done|done|].
    exists x0, t0. split; [lia|]. done.
Qed.

Lemma non_empty_chunk_exposed x y z t :
  VoxelData.in_bounds vd x y z →
  VoxelData.get_voxel vd x y z = Some t → t ≠ AIR →
  ∃ w u v, 0 ≤ w < w_max_of FACE_LEFT csy ∧ 0 ≤ u < u_size_of FACE_LEFT ∧
    0 ≤ v < v_size_of FACE_LEFT csy ∧ exposed FACE_LEFT w u v.
Proof.
  intros Hin Ht Hne.
  destruct (first_block_in_row _ x y z t eq_refl Hin Ht Hne)
    as (x0 & t0 & Hx0 & Ht0 & Hne0 & Hleft).
  exists x0, z, y. unfold VoxelData.in_bounds in Hin.
  unfold w_max_of, u_size_of, v_size_of, layer_neighbor, layer_cell. simpl.
  split; [lia|]. split; [lia|]. split; [lia|].
  exists t0. rewrite !Z.add_0_r. change (x0 + -1) with (x0 - 1). done.
Qed.

Lemma build_mesh_faces b :
  mask_allocated b →
  ∃ b' md',
    foldl (λ st face, '(b, md) ← st; build_face b chunk face md)
      (Some (b, empty_mesh_data))
      [FACE_LEFT; FACE_RIGHT; FACE_DOWN; FACE_UP; FACE_BACK; FACE_FRONT]
    = Some (b', md') ∧
    mask_allocated b' ∧
    type_registry b' = type_registry b ∧
    mask_size b ≤ mask_size b' ∧
    CHUNK_SIZE_XZ * csy ≤ mask_size b' ∧
    (vertex_count md' = 0 ↔ empty_chunk).
Proof.
  intros Hb.
  destruct (build_faces_spec
              [FACE_LEFT; FACE_RIGHT; FACE_DOWN; FACE_UP; FACE_BACK; FACE_FRONT]
              b empty_mesh_data Hb)
    as (b' & md' & Hfold & Hb' & Hr' & Hm' & Hc' & _ & Hair & Hexp).
  exists b', md'. split; [done|]. split; [done|]. split; [done|]. split; [done|].
  split. { apply (Hc' FACE_LEFT). left. }
  split.
  - intros Hvc x y z Hin.
    destruct (get_voxel_in_bounds vd x y z Hwf Hin) as [t Ht].
    destruct (decide (t = AIR)) as [->|Hne]; [done|]. exfalso.
    destruct (non_empty_chunk_exposed x y z t Hin Ht Hne)
      as (w & u & v & Hw & Hu & Hv & Hex).
    pose proof (Hexp FACE_LEFT w u v ltac:(left) Hw Hu Hv Hex) as Hlt.
    simpl in Hlt. unfold vertex_count in Hvc.
    assert (Z.of_nat (length (vertices md')) < 3) as Hsmall.
    { destruct (Z.lt_ge_cases (Z.of_nat (length (vertices md'))) 3) as [|Hge];
        [done|].
      pose proof (Z.div_le_mono 3 _ 3 ltac:(lia) Hge) as Hdiv.
      rewrite Z.div_same in Hdiv by lia. lia. }
    (* a quad adds twelve components *)
    destruct (build_faces_quads _ _ _ _ _ _ 0%nat Hfold) as (n & _ & Hq).
    { unfold mesh_data_quads. simpl. do 5 (split; [done|]). apply Forall_nil_2. }
    destruct Hq as (Hlen & _). lia.
  - intros Hempty. rewrite (Hair Hempty). done.
Qed.

(** [build_mesh] as a whole, on a chunk with a well-formed storage. *)
Lemma build_mesh_spec b :
  mask_allocated b →
  ∃ b' m,
    build_mesh b chunk = Some (b', m) ∧
    mask_allocated b' ∧
    type_registry b' = type_registry b ∧
    mask_size b ≤ mask_size b' ∧
    (m = None ↔ empty_chunk).
Proof.
  intros Hb. unfold build_mesh. rewrite Hvd.
  destruct (VoxelData.is_uniform vd
            && bool_decide (VoxelData.uniform_value vd = AIR)) eqn:Hu.
  { exists b, None. split; [done|]. split; [done|]. split; [done|].
    split; [lia|]. split; [|done]. intros _ x y z _.
    apply andb_true_iff in Hu as [Hu Hv]. apply bool_decide_eq_true in Hv.
    unfold VoxelData.get_voxel. rewrite Hu. by rewrite Hv. }
  destruct (build_mesh_faces b Hb) as (b' & md' & -> & Hb' & Hr' & Hm' & _ & Hiff).
  simpl. destruct (vertex_count md' =? 0) eqn:Hvc.
  - apply Z.eqb_eq in Hvc. exists b', None. do 4 (split; [done|]).
    split; [intros _; by apply Hiff|done].
  - apply Z.eqb_neq in Hvc. eexists b', (Some _). do 4 (split; [done|]).
    split; [done|]. intros Hempty. by apply Hiff in Hempty.
Qed.

(** X17: on a chunk whose storage is well formed, [build_mesh] reads no
    voxel outside the buffer, and it leaves the builder with its mask
    allocated, never smaller than before, and with the same registry. *)
Theorem build_mesh_safe b :
  mask_allocated b →
  ∃ b' m,
    build_mesh b chunk = Some (b', m) ∧
    mask_allocated b' ∧
    type_registry b' = type_registry b ∧
    mask_size b ≤ mask_size b'.
Proof.
  intros Hb. unfold build_mesh. rewrite Hvd.
  destruct (_ && _).
  { exists b, None. split; [done|]. split; [done|]. split; [done|]. lia. }
  destruct (build_mesh_faces b Hb) as (b' & md' & -> & Hb' & Hr' & Hm' & _).
  simpl. destruct (vertex_count md' =? 0); eexists _, _; done.
Qed.

(** X18: [build_mesh] returns the null mesh exactly for the chunks
    that hold no block, whether their storage is uniform or dense. *)
Theorem build_mesh_null_iff_empty b :
  mask_allocated b →
  ∃ b' m,
    build_mesh b chunk = Some (b', m) ∧
    (m = None ↔
     ∀ x y z, VoxelData.in_bounds vd x y z →
       VoxelData.get_voxel vd x y z = Some AIR).
Proof.
  intros Hb. unfold build_mesh. rewrite Hvd.
  destruct (VoxelData.is_uniform vd
            && bool_decide (VoxelData.uniform_value vd = AIR)) eqn:Hu.
  { exists b, None. split; [done|]. split; [|done]. intros _ x y z _.
    apply andb_true_iff in Hu as [Hu Hv]. apply bool_decide_eq_true in Hv.
    unfold VoxelData.get_voxel. rewrite Hu. by rewrite Hv. }
  destruct (build_mesh_faces b Hb) as (b' & md' & -> & _ & _ & _ & _ & Hiff).
  simpl. destruct (vertex_count md' =? 0) eqn:Hvc.
  - apply Z.eqb_eq in Hvc. exists b', None. split; [done|].
    split; [intros _; by apply Hiff|done].
  - apply Z.eqb_neq in Hvc. eexists b', (Some _). split; [done|].
    split; [done|]. intros Hempty. by apply Hiff in Hempty.
Qed.

End build_mesh_more.
Lemma build_mesh_indices_valid_witness :
  ∃ b' m,
    ChunkMeshBuilder.build_mesh (ChunkMeshBuilder.new None) one_block_chunk
    = Some (b', Some m) ∧
    ∃ n : nat,
      (0 < n)%nat ∧
      length (am_vertices m) = (4 * n)%nat ∧
      length (am_normals m) = (4 * n)%nat ∧
      length (am_uvs m) = (4 * n)%nat ∧
      length (am_colors m) = (4 * n)%nat ∧
      length (am_indices m) = (6 * n)%nat ∧
      Forall (λ i, 0 ≤ i < Z.of_nat (length (am_vertices m))) (am_indices m).
Proof.
  let r := eval vm_compute in
             (ChunkMeshBuilder.build_mesh (ChunkMeshBuilder.new None) one_block_chunk) in
  assert (ChunkMeshBuilder.build_mesh (ChunkMeshBuilder.new None) one_block_chunk = r)
    as Hb by (vm_compute; reflexivity).
  eexists _, _. split; [exact Hb|].
  exact (build_mesh_indices_valid _ _ _ _ Hb).
Defined.

Lemma build_mesh_safe_witness :
  Chunk.voxel_data one_block_chunk
  = Some (VoxelData.set_voxel (VoxelData.new 16) 3 2 1 STONE) ∧
  VoxelData.wf (VoxelData.set_voxel (VoxelData.new 16) 3 2 1 STONE) ∧
  0 < VoxelData.chunk_size_y (VoxelData.set_voxel (VoxelData.new 16) 3 2 1 STONE) ∧
  mask_allocated (ChunkMeshBuilder.new None) ∧
  ∃ b' m,
    ChunkMeshBuilder.build_mesh (ChunkMeshBuilder.new None) one_block_chunk
    = Some (b', m) ∧
    mask_allocated b' ∧
    ChunkMeshBuilder.type_registry b'
    = ChunkMeshBuilder.type_registry (ChunkMeshBuilder.new None) ∧
    ChunkMeshBuilder.mask_size (ChunkMeshBuilder.new None)
    ≤ ChunkMeshBuilder.mask_size b'.
Proof.
  assert (VoxelData.wf (VoxelData.set_voxel (VoxelData.new 16) 3 2 1 STONE)) as Hwf.
  { split; [reflexivity|]. right. split; [reflexivity|]. split; [reflexivity|].
    eexists. split; reflexivity. }
  assert (0 < VoxelData.chunk_size_y
                (VoxelData.set_voxel (VoxelData.new 16) 3 2 1 STONE)) as Hcsy
    by reflexivity.
  assert (mask_allocated (ChunkMeshBuilder.new None)) as Hb by reflexivity.
  split; [reflexivity|]. split; [exact Hwf|]. split; [exact Hcsy|].
  split; [exact Hb|].
  exact (build_mesh_safe one_block_chunk _ eq_refl Hwf Hcsy _ Hb).
Defined.

Lemma build_mesh_null_iff_empty_witness :
  Chunk.voxel_data one_block_chunk
  = Some (VoxelData.set_voxel (VoxelData.new 16) 3 2 1 STONE) ∧
  VoxelData.wf (VoxelData.set_voxel (VoxelData.new 16) 3 2 1 STONE) ∧
  0 < VoxelData.chunk_size_y (VoxelData.set_voxel (VoxelData.new 16) 3 2 1 STONE) ∧
  mask_allocated (ChunkMeshBuilder.new None) ∧
  ∃ b' m,
    ChunkMeshBuilder.build_mesh (ChunkMeshBuilder.new None) one_block_chunk
    = Some (b', m) ∧
    (m = None ↔
     ∀ x y z,
       VoxelData.in_bounds (VoxelData.set_voxel (VoxelData.new 16) 3 2 1 STONE) x y z →
       VoxelData.get_voxel (VoxelData.set_voxel (VoxelData.new 16) 3 2 1 STONE) x y z
       = Some AIR).
Proof.
  assert (VoxelData.wf (VoxelData.set_voxel (VoxelData.new 16) 3 2 1 STONE)) as Hwf.
  { split; [reflexivity|]. right. split; [reflexivity|]. split; [reflexivity|].
    eexists. split; reflexivity. }
  assert (0 < VoxelData.chunk_size_y
                (VoxelData.set_voxel (VoxelData.new 16) 3 2 1 STONE)) as Hcsy
    by reflexivity.
  assert (mask_allocated (ChunkMeshBuilder.new None)) as Hb by reflexivity.
  split; [reflexivity|]. split; [exact Hwf|]. split; [exact Hcsy|].
  split; [exact Hb|].
  exact (build_mesh_null_iff_empty one_block_chunk _ eq_refl Hwf Hcsy _ Hb).
Defined.

(** ** VoxelWorld: the tables of chunks and render handles *)

Section world_tables.

Import VoxelWorld.

Implicit Types (w : VoxelWorld.t) (pos : Vector3i).

Lemma get_chunk_height_for_y_pos y : 0 < get_chunk_height_for_y y.
Proof.
  unfold get_chunk_height_for_y, DEEP_VOID_CHUNK_HEIGHT,
    DENSE_TERRAIN_CHUNK_HEIGHT, SKY_CHUNK_HEIGHT.
  repeat case_match; lia.
Qed.

Lemma remove_chunk_mesh_instance_spec w pos :
  let w' := remove_chunk_mesh_instance w pos in
  chunks w' = chunks w ∧
  chunk_mesh_instances w' = delete pos (chunk_mesh_instances w) ∧
  children w' = children w ∧
  last_player_chunk w' = last_player_chunk w ∧
  render_distance w' = render_distance w ∧
  vertical_render_distance w' = vertical_render_distance w ∧
  (map_to_list (chunk_mesh_instances w')).*2 ++ freed w'
  ≡ₚ (map_to_list (chunk_mesh_instances w)).*2 ++ freed w.
Proof.
  unfold remove_chunk_mesh_instance.
  destruct (chunk_mesh_instances w !! pos) as [instance|] eqn:Hi; simpl.
  - do 6 (split; [done|]).
    rewrite <- (map_to_list_delete _ _ _ Hi). simpl.
    rewrite (assoc (++)), <- Permutation_middle, app_nil_r. done.
  - rewrite delete_id by done. done.
Qed.

Lemma remove_chunk_mesh_instance_consistent w pos :
  world_consistent w → world_consistent (remove_chunk_mesh_instance w pos).
Proof.
  intros (Hdom & Hst & Hperm).
  destruct (remove_chunk_mesh_instance_spec w pos)
    as (Hc & Hi & Hch & _ & _ & _ & Hp).
  split; [|split].
  - intros p. rewrite Hc, Hi. intros [x Hx]. apply Hdom.
    apply lookup_delete_Some in Hx as [_ Hx]. by exists x.
  - rewrite Hc. done.
  - rewrite Hch, Hp. done.
Qed.

Lemma create_chunk_mesh_instance_spec w pos mesh :
  world_consistent w →
  ∃ w', create_chunk_mesh_instance w pos mesh = Some w' ∧
    world_consistent w' ∧
    last_player_chunk w' = last_player_chunk w ∧
    render_distance w' = render_distance w ∧
    vertical_render_distance w' = vertical_render_distance w ∧
    (∀ p, p ≠ pos → chunks w' !! p = chunks w !! p) ∧
    (∀ p, is_Some (chunks w' !! p) ↔ is_Some (chunks w !! p)) ∧
    (∀ c, chunks w !! pos = Some c →
       ∃ c', chunks w' !! pos = Some c' ∧
             Chunk.voxel_data c' = Chunk.voxel_data c ∧
             Chunk.position c' = Chunk.position c).
Proof.
  intros Hw. unfold create_chunk_mesh_instance.
  destruct mesh as [m|].
  2:{ exists w. split; [done|]. split; [done|]. do 5 (split; [done|]).
      intros c Hc. by exists c. }
  destruct (chunks w !! pos) as [chunk|] eqn:Hchunk.
  2:{ exists w. split; [done|]. split; [done|]. do 5 (split; [done|]).
      intros c Hc. done. }
  pose proof (remove_chunk_mesh_instance_consistent w pos Hw) as Hw1.
  destruct (remove_chunk_mesh_instance_spec w pos)
    as (Hc1 & Hi1 & Hch1 & Hl1 & Hr1 & Hv1 & Hp1).
  destruct Hw as (Hdom & Hst & Hperm).
  destruct (Hst pos chunk Hchunk) as (vd & Hvd & Hwf & Hcsy).
  rewrite Hvd. simpl. eexists. split; [done|].
  set (w1 := remove_chunk_mesh_instance w pos) in *.
  destruct Hw1 as (Hdom1 & Hst1 & Hperm1).
  split; [split; [|split]|]; simpl.
  - intros p Hp. destruct (decide (p = pos)) as [->|Hne].
    + rewrite lookup_insert_eq. done.
    + rewrite lookup_insert_ne in Hp by done. rewrite lookup_insert_ne by done.
      by apply Hdom1.
  - intros p c Hp. destruct (decide (p = pos)) as [->|Hne].
    + rewrite lookup_insert_eq in Hp. injection Hp as <-. simpl.
      exists vd. done.
    + rewrite lookup_insert_ne in Hp by done. by apply (Hst1 p).
  - rewrite map_to_list_insert.
    2:{ rewrite Hi1. apply lookup_delete_eq. }
    simpl. rewrite Hperm1. rewrite <- Permutation_cons_append. done.
  - split; [done|]. split; [done|]. split; [done|]. split; [|split].
    + intros p Hne. rewrite lookup_insert_ne by done. by rewrite Hc1.
    + intros p. destruct (decide (p = pos)) as [->|Hne].
      * rewrite lookup_insert_eq, Hchunk. split; intros _; done.
      * rewrite lookup_insert_ne by done. by rewrite Hc1.
    + intros c Hc. injection Hc as <-. rewrite lookup_insert_eq.
      eexists. split; [done|]. done.
Qed.

End world_tables.
Section world_unload.

Import VoxelWorld.

Implicit Types (w : VoxelWorld.t) (pos : Vector3i).

Lemma unload_chunk_spec w pos :
  let w' := unload_chunk w pos in
  chunks w' = delete pos (chunks w) ∧
  chunk_mesh_instances w' = delete pos (chunk_mesh_instances w) ∧
  children w' = children w ∧
  last_player_chunk w' = last_player_chunk w ∧
  render_distance w' = render_distance w ∧
  vertical_render_distance w' = vertical_render_distance w ∧
  (∀ mi, mi ∈ freed w → mi ∈ freed w') ∧
  (∀ mi, chunk_mesh_instances w !! pos = Some mi → mi ∈ freed w') ∧
  (world_consistent w → world_consistent w').
Proof.
  destruct (remove_chunk_mesh_instance_spec w pos)
    as (Hc & Hi & Hch & Hl & Hr & Hv & Hp).
  unfold unload_chunk. simpl. rewrite Hc, Hi, Hch, Hl, Hr, Hv.
  do 6 (split; [done|]). split; [|split].
  - intros mi Hmi. unfold remove_chunk_mesh_instance.
    destruct (chunk_mesh_instances w !! pos); simpl; [|done].
    apply elem_of_app. by left.
  - intros mi Hmi. unfold remove_chunk_mesh_instance. rewrite Hmi. simpl.
    apply elem_of_app. right. left.
  - intros Hw.
    destruct (remove_chunk_mesh_instance_consistent w pos Hw) as (Hdom & Hst & Hperm).
    split; [|split]; simpl.
    + intros p [x Hx].
      apply lookup_delete_Some in Hx as [Hne Hx].
      rewrite lookup_delete_ne by done.
      destruct Hw as (Hdom0 & _). apply Hdom0. by exists x.
    + intros p c Hpc.
      apply lookup_delete_Some in Hpc as [_ Hpc].
      destruct Hw as (_ & Hst0 & _). by apply (Hst0 p).
    + rewrite Hch, Hi in Hperm. done.
Qed.

Lemma unload_chunks_spec (l : list Vector3i) w :
  let w' := foldl unload_chunk w l in
  (∀ p, chunks w' !! p = if decide (p ∈ l) then None else chunks w !! p) ∧
  (∀ p, chunk_mesh_instances w' !! p
        = if decide (p ∈ l) then None else chunk_mesh_instances w !! p) ∧
  children w' = children w ∧
  last_player_chunk w' = last_player_chunk w ∧
  render_distance w' = render_distance w ∧
  vertical_render_distance w' = vertical_render_distance w ∧
  (∀ mi, mi ∈ freed w → mi ∈ freed w') ∧
  (∀ p mi, p ∈ l → chunk_mesh_instances w !! p = Some mi → mi ∈ freed w') ∧
  (world_consistent w → world_consistent w').
Proof.
  revert w. induction l as [|p0 l IH]; intros w.
  { simpl. split; [done|split]; [done|].
    - do 5 (split; [done|]). split; [|done].
      intros p mi Hp. by apply elem_of_nil in Hp. }
  cbn [foldl].
  destruct (unload_chunk_spec w p0)
    as (Hc0 & Hi0 & Hch0 & Hl0 & Hr0 & Hv0 & Hf0 & Hfp0 & Hw0).
  destruct (IH (unload_chunk w p0))
    as (Hc & Hi & Hch & Hl & Hr & Hv & Hf & Hfp & Hw).
  split; [|split].
  - intros p. rewrite Hc, Hc0. destruct (decide (p = p0)) as [->|Hne].
    + rewrite lookup_delete_eq. rewrite (decide_True (P := p0 ∈ p0 :: l)) by left.
      by case_decide.
    + rewrite lookup_delete_ne by done.
      destruct (decide (p ∈ l)) as [Hin|Hnin].
      * rewrite decide_True; [done|by right].
      * rewrite decide_False; [done|]. intros [?|?]%elem_of_cons; done.
  - intros p. rewrite Hi, Hi0. destruct (decide (p = p0)) as [->|Hne].
    + rewrite lookup_delete_eq. rewrite (decide_True (P := p0 ∈ p0 :: l)) by left.
      by case_decide.
    + rewrite lookup_delete_ne by done.
      destruct (decide (p ∈ l)) as [Hin|Hnin].
      * rewrite decide_True; [done|by right].
      * rewrite decide_False; [done|]. intros [?|?]%elem_of_cons; done.
  - split; [congruence|]. split; [congruence|]. split; [congruence|].
    split; [congruence|]. split; [|split].
    + intros mi Hmi. by apply Hf, Hf0.
    + intros p mi Hp Hmi. destruct (decide (p = p0)) as [->|Hne].
      * by apply Hf, Hfp0.
      * apply (Hfp p); [|by rewrite Hi0, lookup_delete_ne].
        apply elem_of_cons in Hp as [?|?]; done.
    + intros Hcons. by apply Hw, Hw0.
Qed.

Lemma to_unload_elem_of w (p : Vector3i) :
  p ∈ filter (λ pos, is_chunk_in_range pos (last_player_chunk w)
                       (render_distance w) (vertical_render_distance w) = false)
        (map_to_list (chunks w)).*1
  ↔ is_chunk_in_range p (last_player_chunk w)
      (render_distance w) (vertical_render_distance w) = false
    ∧ is_Some (chunks w !! p).
Proof.
  rewrite list_elem_of_filter. rewrite list_elem_of_fmap.
  split.
  - intros [Hr ([p' c] & -> & Hin)]. split; [done|].
    apply elem_of_map_to_list in Hin. by exists c.
  - intros [Hr [c Hc]]. split; [done|]. exists (p, c). split; [done|].
    by apply elem_of_map_to_list.
Qed.

(** X19: [unload_distant_chunks] keeps exactly the chunks within the
    render distance of the player's chunk, unchanged, and exactly their
    render handles; the handle of every chunk it unloads is passed to
    [queue_free]; and the state it leaves is consistent again. *)
Theorem unload_distant_chunks_spec w :
  world_consistent w →
  let w' := unload_distant_chunks w in
  let in_range pos :=
    is_chunk_in_range pos (last_player_chunk w)
      (render_distance w) (vertical_render_distance w) in
  (∀ pos, chunks w' !! pos = if in_range pos then chunks w !! pos else None) ∧
  (∀ pos, chunk_mesh_instances w' !! pos
          = if in_range pos then chunk_mesh_instances w !! pos else None) ∧
  (∀ pos mi, in_range pos = false →
     chunk_mesh_instances w !! pos = Some mi → mi ∈ freed w') ∧
  children w' = children w ∧
  world_consistent w'.
Proof.
  intros Hw w' in_range. unfold w', unload_distant_chunks.
  destruct (unload_chunks_spec
              (filter (λ pos, is_chunk_in_range pos (last_player_chunk w)
                                (render_distance w) (vertical_render_distance w)
                              = false)
                 (map_to_list (chunks w)).*1) w)
    as (Hc & Hi & Hch & _ & _ & _ & _ & Hfp & Hcons).
  split; [|split; [|split; [|split]]].
  - intros pos. rewrite Hc. unfold in_range.
    destruct (is_chunk_in_range pos _ _ _) eqn:Hr.
    + rewrite decide_False; [done|]. rewrite to_unload_elem_of.
      intros [? _]. congruence.
    + case_decide as Hin; [done|]. rewrite to_unload_elem_of in Hin.
      destruct (chunks w !! pos) eqn:Hp; [|done].
      exfalso. apply Hin. split; [done|]. by eexists.
  - intros pos. rewrite Hi. unfold in_range.
    destruct (is_chunk_in_range pos _ _ _) eqn:Hr.
    + rewrite decide_False; [done|]. rewrite to_unload_elem_of.
      intros [? _]. congruence.
    + case_decide as Hin; [done|]. rewrite to_unload_elem_of in Hin.
      destruct (chunk_mesh_instances w !! pos) eqn:Hp; [|done].
      exfalso. apply Hin. split; [done|].
      destruct Hw as (Hdom & _). apply Hdom. by eexists.
  - intros pos mi Hr Hmi. apply (Hfp pos); [|done].
    apply to_unload_elem_of. split; [done|].
    destruct Hw as (Hdom & _). apply Hdom. by eexists.
  - done.
  - by apply Hcons.
Qed.

End world_unload.
Lemma generate_chunk_storage (get_noise_2d : FastNoiseLite → Z → Z → Q) g chunk vd :
  Chunk.voxel_data chunk = Some vd → VoxelData.wf vd →
  ∃ vd',
    Chunk.voxel_data (TerrainGenerator.generate_chunk get_noise_2d g chunk).2
    = Some vd' ∧
    VoxelData.wf vd' ∧
    VoxelData.chunk_size_y vd' = VoxelData.chunk_size_y vd ∧
    Chunk.position (TerrainGenerator.generate_chunk get_noise_2d g chunk).2
    = Chunk.position chunk.
Proof.
  intros Hvd Hwf. unfold TerrainGenerator.generate_chunk. rewrite Hvd.
  set (base := v3i_y (Chunk.position chunk) * VoxelData.chunk_size_y vd).
  set (wxb := v3i_x (Chunk.position chunk) * CHUNK_SIZE_XZ).
  set (wzb := v3i_z (Chunk.position chunk) * CHUNK_SIZE_XZ).
  destruct (TerrainGenerator.coarse_pass get_noise_2d g wxb wzb base
              (base + VoxelData.chunk_size_y vd)) as [[g1 above] below].
  destruct above.
  { simpl. eexists. split; [done|]. split; [by apply wf_fill|done]. }
  unfold TerrainGenerator.generate_voxels.
  rewrite (foldl_nested
             (λ st z x, TerrainGenerator.generate_column_at
                          get_noise_2d wxb wzb base st z x)).
  destruct (generate_voxels_fold get_noise_2d wxb wzb base g1 vd _ Hwf
              all_columns_NoDup)
    as (g2 & vd2 & -> & _ & _ & _ & Hwf2 & Hcsy2 & _).
  simpl. eexists. split; [done|].
  split; [by apply wf_check_and_optimize_uniform|].
  split; [by rewrite optimize_pass_chunk_size_y|done].
Qed.

Lemma load_candidates_elem_of center rd vrd (p : Vector3i) :
  p ∈ VoxelWorld.load_candidates center rd vrd
  ↔ VoxelWorld.is_chunk_in_range p center rd vrd = true.
Proof.
  unfold VoxelWorld.load_candidates, VoxelWorld.is_chunk_in_range.
  rewrite !andb_true_iff, !Z.leb_le.
  destruct p as [[x y] z], center as [[cx cy] cz].
  unfold v3i_x, v3i_y, v3i_z. simpl. split.
  - intros (dy & (r & (dx & (dz & Hp & Hdz%elem_of_seqZ)%list_elem_of_bind
                          & Hdx%elem_of_seqZ)%list_elem_of_bind
                     & Hr%elem_of_seqZ)%list_elem_of_bind
              & Hdy%elem_of_seqZ)%list_elem_of_bind.
    destruct (bool_decide (Z.abs dx ≠ r) && bool_decide (Z.abs dz ≠ r));
      [by apply elem_of_nil in Hp|].
    apply list_elem_of_singleton in Hp. injection Hp as -> -> ->. lia.
  - intros [[Hx Hz] Hy].
    apply list_elem_of_bind. exists (y - cy). split; [|apply elem_of_seqZ; lia].
    apply list_elem_of_bind. exists (Z.max (Z.abs (x - cx)) (Z.abs (z - cz))).
    split; [|apply elem_of_seqZ; lia].
    apply list_elem_of_bind. exists (x - cx). split; [|apply elem_of_seqZ; lia].
    apply list_elem_of_bind. exists (z - cz). split; [|apply elem_of_seqZ; lia].
    destruct (bool_decide (Z.abs (x - cx) ≠ _) && bool_decide (Z.abs (z - cz) ≠ _))
      eqn:Hb.
    + apply andb_true_iff in Hb as [Hb1%bool_decide_eq_true Hb2%bool_decide_eq_true].
      lia.
    + apply list_elem_of_singleton. f_equal; [f_equal|]; lia.
Qed.

(** ** VoxelWorld: loading chunks and a frame *)

Section world_loading.

Import VoxelWorld.

Context {Task : Type}.

Variable get_noise_2d : FastNoiseLite → Z → Z → Q.
Variable generation_task : Vector3i → Chunk.t → Task.

Implicit Types (w : VoxelWorld.t) (s : systems Task) (pos : Vector3i).

Lemma store_chunk_consistent w pos chunk vd :
  world_consistent w →
  Chunk.voxel_data chunk = Some vd → VoxelData.wf vd →
  0 < VoxelData.chunk_size_y vd →
  world_consistent
    {| chunks := <[pos := chunk]> (chunks w);
       chunk_mesh_instances := chunk_mesh_instances w;
       children := children w;
       freed := freed w;
       last_player_chunk := last_player_chunk w;
       render_distance := render_distance w;
       vertical_render_distance := vertical_render_distance w |}.
Proof.
  intros (Hdom & Hst & Hperm) Hvd Hwf Hcsy. split; [|split]; simpl.
  - intros p Hp. destruct (decide (p = pos)) as [->|Hne].
    + by rewrite lookup_insert_eq.
    + rewrite lookup_insert_ne by done. by apply Hdom.
  - intros p c Hp. destruct (decide (p = pos)) as [->|Hne].
    + rewrite lookup_insert_eq in Hp. injection Hp as <-. by exists vd.
    + rewrite lookup_insert_ne in Hp by done. by apply (Hst p).
  - done.
Qed.

Lemma generate_chunk_async_spec w s pos :
  world_consistent w → mask_allocated (mesh_builder s) →
  ∃ w' s' c vd,
    generate_chunk_async get_noise_2d generation_task w s pos = Some (w', s') ∧
    world_consistent w' ∧ mask_allocated (mesh_builder s') ∧
    last_player_chunk w' = last_player_chunk w ∧
    render_distance w' = render_distance w ∧
    vertical_render_distance w' = vertical_render_distance w ∧
    use_threading s' = use_threading s ∧
    max_chunks_per_frame s' = max_chunks_per_frame s ∧
    chunks_generated_this_frame s' = chunks_generated_this_frame s ∧
    (is_Some (thread_pool s') ↔ is_Some (thread_pool s)) ∧
    chunks w' = <[pos := c]> (chunks w) ∧
    Chunk.position c = pos ∧
    Chunk.voxel_data c = Some vd ∧
    VoxelData.chunk_size_y vd = get_chunk_height_for_y (v3i_y pos).
Proof.
  intros Hw Hb. unfold generate_chunk_async.
  set (chunk0 := Chunk.set_state
                   (Chunk.initialize Chunk.new pos
                      (get_chunk_height_for_y (v3i_y pos))) GENERATING).
  pose proof (get_chunk_height_for_y_pos (v3i_y pos)) as Hh.
  assert (∃ w' s' c vd,
    (let '(g, chunk) :=
       TerrainGenerator.generate_chunk get_noise_2d (terrain_generator s) chunk0 in
     '(b, mesh) ← ChunkMeshBuilder.build_mesh (mesh_builder s) chunk;
     w1 ← create_chunk_mesh_instance
            {| chunks := <[pos := chunk]> (chunks w);
               chunk_mesh_instances := chunk_mesh_instances w;
               children := children w;
               freed := freed w;
               last_player_chunk := last_player_chunk w;
               render_distance := render_distance w;
               vertical_render_distance := vertical_render_distance w |}
            pos mesh;
     Some (w1,
           {| terrain_generator := g;
              mesh_builder := b;
              thread_pool := thread_pool s;
              use_threading := use_threading s;
              max_chunks_per_frame := max_chunks_per_frame s;
              chunks_generated_this_frame := chunks_generated_this_frame s |}))
    = Some (w', s') ∧
    world_consistent w' ∧ mask_allocated (mesh_builder s') ∧
    last_player_chunk w' = last_player_chunk w ∧
    render_distance w' = render_distance w ∧
    vertical_render_distance w' = vertical_render_distance w ∧
    use_threading s' = use_threading s ∧
    max_chunks_per_frame s' = max_chunks_per_frame s ∧
    chunks_generated_this_frame s' = chunks_generated_this_frame s ∧
    (is_Some (thread_pool s') ↔ is_Some (thread_pool s)) ∧
    chunks w' = <[pos := c]> (chunks w) ∧
    Chunk.position c = pos ∧
    Chunk.voxel_data c = Some vd ∧
    VoxelData.chunk_size_y vd = get_chunk_height_for_y (v3i_y pos)) as Hsync.
  { destruct (generate_chunk_storage get_noise_2d (terrain_generator s) chunk0
                (VoxelData.new (get_chunk_height_for_y (v3i_y pos))) eq_refl
                (wf_new _))
      as (vd1 & Hvd1 & Hwf1 & Hcsy1 & Hpos1).
    destruct (TerrainGenerator.generate_chunk get_noise_2d (terrain_generator s)
                chunk0) as [g chunk1].
    simpl in Hvd1, Hcsy1, Hpos1.
    destruct (build_mesh_spec chunk1 vd1 Hvd1 Hwf1 ltac:(lia) (mesh_builder s) Hb)
      as (b' & m & -> & Hb' & _).
    simpl.
    destruct (create_chunk_mesh_instance_spec _ pos m
                (store_chunk_consistent w pos chunk1 vd1 Hw Hvd1 Hwf1 ltac:(lia)))
      as (w' & -> & Hw' & Hl & Hr & Hv & Hother & _ & Hat).
    simpl in Hl, Hr, Hv, Hother, Hat.
    destruct (Hat chunk1) as (c' & Hc' & Hvd' & Hpos'); [apply lookup_insert_eq|].
    eexists w', _, c', vd1. simpl. split; [done|]. split; [done|].
    do 8 (split; [done|]). split; [|split; [congruence|split; [congruence|done]]].
    apply map_eq. intros p. destruct (decide (p = pos)) as [->|Hne].
    - by rewrite Hc', lookup_insert_eq.
    - rewrite Hother by done. simpl. by rewrite !lookup_insert_ne. }
  destruct (use_threading s) eqn:Hut; [|exact Hsync].
  destruct (thread_pool s) as [pool|] eqn:Hpool; [|exact Hsync].
  clear Hsync. eexists _, _, chunk0, _. split; [done|]. simpl.
  split; [by apply (store_chunk_consistent w pos chunk0 _ Hw eq_refl (wf_new _))|].
  do 7 (split; [done|]). split; [split; intros _; done|].
  split; [done|]. split; [done|]. split; [done|]. done.
Qed.

Lemma load_chunks_spec (candidates : list Vector3i) w s :
  world_consistent w → mask_allocated (mesh_builder s) →
  ∃ w' s',
    load_chunks get_noise_2d generation_task candidates w s = Some (w', s') ∧
    world_consistent w' ∧ mask_allocated (mesh_builder s') ∧
    last_player_chunk w' = last_player_chunk w ∧
    render_distance w' = render_distance w ∧
    vertical_render_distance w' = vertical_render_distance w ∧
    use_threading s' = use_threading s ∧
    max_chunks_per_frame s' = max_chunks_per_frame s ∧
    (is_Some (thread_pool s') ↔ is_Some (thread_pool s)) ∧
    chunks_generated_this_frame s ≤ chunks_generated_this_frame s' ∧
    (chunks_generated_this_frame s ≤ max_chunks_per_frame s →
     chunks_generated_this_frame s' ≤ max_chunks_per_frame s) ∧
    Z.of_nat (size (chunks w'))
    = Z.of_nat (size (chunks w))
      + (chunks_generated_this_frame s' - chunks_generated_this_frame s) ∧
    (∀ p c, chunks w !! p = Some c → chunks w' !! p = Some c) ∧
    (∀ p c, chunks w !! p = None → chunks w' !! p = Some c →
       p ∈ candidates ∧ Chunk.position c = p ∧
       ∃ vd, Chunk.voxel_data c = Some vd ∧
             VoxelData.chunk_size_y vd = get_chunk_height_for_y (v3i_y p)) ∧
    (chunks_generated_this_frame s' < max_chunks_per_frame s →
     ∀ p, p ∈ candidates → is_Some (chunks w' !! p)).
Proof.
  revert w s. induction candidates as [|pos candidates IH]; intros w s Hw Hb.
  { exists w, s. simpl. split; [done|]. do 8 (split; [done|]).
    split; [lia|]. split; [done|]. split; [lia|]. split; [done|].
    split; [congruence|]. intros _ p Hp. by apply elem_of_nil in Hp. }
  cbn [load_chunks]. case_decide as Hex.
  { destruct (IH w s Hw Hb)
      as (w' & s' & -> & Hw' & Hb' & Hl & Hr & Hv & Hut & Hmax & Hpool & Hmono
          & Hcap & Hsize & Hkeep & Hnew & Hall).
    exists w', s'. split; [done|]. do 11 (split; [done|]). split; [done|]. split.
    - intros p c Hp Hp'. destruct (Hnew p c Hp Hp') as (Hin & Hrest).
      split; [by right|done].
    - intros Hlt p [->|Hin]%elem_of_cons; [|by apply Hall].
      destruct Hex as [c Hc]. exists c. by apply Hkeep. }
  destruct (chunks_generated_this_frame s >=? max_chunks_per_frame s) eqn:Hfull.
  { rewrite Z.geb_leb in Hfull. apply Z.leb_le in Hfull.
    exists w, s. split; [done|]. do 8 (split; [done|]).
    split; [lia|]. split; [done|]. split; [lia|]. split; [done|].
    split; [congruence|]. intros Hlt. lia. }
  rewrite Z.geb_leb in Hfull. apply Z.leb_gt in Hfull.
  destruct (generate_chunk_async_spec w s pos Hw Hb)
    as (w1 & s1 & c1 & vd1 & -> & Hw1 & Hb1 & Hl1 & Hr1 & Hv1 & Hut1 & Hmax1
        & Hgen1 & Hpool1 & Hchunks1 & Hpos1 & Hvd1 & Hcsy1).
  simpl.
  set (s2 := {| terrain_generator := terrain_generator s1;
                mesh_builder := mesh_builder s1;
                thread_pool := thread_pool s1;
                use_threading := use_threading s1;
                max_chunks_per_frame := max_chunks_per_frame s1;
                chunks_generated_this_frame :=
                  chunks_generated_this_frame s1 + 1 |}).
  destruct (IH w1 s2 Hw1 Hb1)
    as (w' & s' & -> & Hw' & Hb' & Hl & Hr & Hv & Hut & Hmax & Hpool & Hmono
        & Hcap & Hsize & Hkeep & Hnew & Hall).
  simpl in Hut, Hmax, Hpool, Hmono, Hcap, Hsize, Hall.
  assert (chunks w !! pos = None) as Hnone.
  { destruct (chunks w !! pos) eqn:Hp; [|done]. exfalso. apply Hex. by eexists. }
  exists w', s'. split; [done|]. split; [done|]. split; [done|].
  split; [congruence|]. split; [congruence|]. split; [congruence|].
  split; [congruence|]. split; [congruence|]. split; [by rewrite Hpool|].
  split; [lia|]. split; [intros _; rewrite <- Hmax1; apply Hcap; lia|]. split.
  { rewrite Hsize, Hchunks1, map_size_insert_None by done. lia. }
  split; [|split].
  - intros p c Hp. apply Hkeep. rewrite Hchunks1.
    rewrite lookup_insert_ne; [done|]. intros ->. congruence.
  - intros p c Hp Hp'. destruct (decide (p = pos)) as [->|Hne].
    + assert (chunks w' !! pos = Some c1) as Hc1
        by (apply Hkeep; rewrite Hchunks1; apply lookup_insert_eq).
      rewrite Hc1 in Hp'. injection Hp' as <-.
      split; [left|]. split; [done|]. by exists vd1.
    + destruct (Hnew p c) as (Hin & Hrest); [|done|].
      { rewrite Hchunks1. by rewrite lookup_insert_ne. }
      split; [by right|done].
  - intros Hlt p [->|Hin]%elem_of_cons.
    + exists c1. apply Hkeep. rewrite Hchunks1. apply lookup_insert_eq.
    + apply Hall; [rewrite Hmax1; lia|done].
Qed.

End world_loading.
Section world_frames.

Import VoxelWorld.

Context {Task : Type}.

Variable get_noise_2d : FastNoiseLite → Z → Z → Q.
Variable generation_task : Vector3i → Chunk.t → Task.

Implicit Types (w : VoxelWorld.t) (s : systems Task) (pos : Vector3i).

(** X20: what one call of [load_chunks_around_player] does.  It
    returns; the chunks already loaded are left as they are; every
    chunk it adds lies within the render distance of the player's chunk,
    sits at its own position and has the height of its zone; the number
    of chunks added is the advance of the frame counter, which never
    passes [max_chunks_per_frame]; and when the counter ends below the
    cap, every position within the render distance is loaded. *)
Theorem load_chunks_around_player_spec w s :
  world_consistent w → mask_allocated (mesh_builder s) →
  let in_range pos :=
    is_chunk_in_range pos (last_player_chunk w)
      (render_distance w) (vertical_render_distance w) in
  ∃ w' s',
    load_chunks_around_player get_noise_2d generation_task w s = Some (w', s') ∧
    world_consistent w' ∧ mask_allocated (mesh_builder s') ∧
    (∀ p c, chunks w !! p = Some c → chunks w' !! p = Some c) ∧
    (∀ p c, chunks w !! p = None → chunks w' !! p = Some c →
       in_range p = true ∧ Chunk.position c = p ∧
       ∃ vd, Chunk.voxel_data c = Some vd ∧
             VoxelData.chunk_size_y vd = get_chunk_height_for_y (v3i_y p)) ∧
    Z.of_nat (size (chunks w'))
    = Z.of_nat (size (chunks w))
      + (chunks_generated_this_frame s' - chunks_generated_this_frame s) ∧
    chunks_generated_this_frame s ≤ chunks_generated_this_frame s' ∧
    (chunks_generated_this_frame s ≤ max_chunks_per_frame s →
     chunks_generated_this_frame s' ≤ max_chunks_per_frame s) ∧
    (chunks_generated_this_frame s' < max_chunks_per_frame s →
     ∀ p, in_range p = true → is_Some (chunks w' !! p)).
Proof.
  intros Hw Hb in_range. unfold load_chunks_around_player.
  destruct (load_chunks_spec get_noise_2d generation_task
              (load_candidates (last_player_chunk w) (render_distance w)
                 (vertical_render_distance w)) w s Hw Hb)
    as (w' & s' & Hload & Hw' & Hb' & _ & _ & _ & _ & _ & _ & Hmono
        & Hcap & Hsize & Hkeep & Hnew & Hall).
  exists w', s'. split; [done|]. split; [done|]. split; [done|].
  split; [done|]. split.
  { intros p c Hp Hp'. destruct (Hnew p c Hp Hp') as (Hin & Hrest).
    split; [by apply load_candidates_elem_of|done]. }
  split; [done|]. split; [done|]. split; [done|].
  intros Hlt p Hp. apply Hall; [done|]. by apply load_candidates_elem_of.
Qed.

(** X21: a frame.  [_process] returns and leaves a consistent world in
    which every loaded chunk lies within the render distance of the
    player's chunk; a chunk that was loaded and lies within it is kept
    as it was; at most [max_chunks_per_frame] chunks are generated; and
    if fewer were generated, the loaded chunks are exactly the positions
    within the render distance. *)
Theorem process_frame w s player :
  world_consistent w → mask_allocated (mesh_builder s) →
  0 ≤ max_chunks_per_frame s →
  let center := last_player_chunk (update_player_position w player) in
  let in_range pos :=
    is_chunk_in_range pos center (render_distance w) (vertical_render_distance w) in
  ∃ w' s',
    _process get_noise_2d generation_task w s player = Some (w', s') ∧
    world_consistent w' ∧ mask_allocated (mesh_builder s') ∧
    last_player_chunk w' = center ∧
    (∀ p, is_Some (chunks w' !! p) → in_range p = true) ∧
    (∀ p c, chunks w !! p = Some c → in_range p = true →
       chunks w' !! p = Some c) ∧
    0 ≤ chunks_generated_this_frame s' ≤ max_chunks_per_frame s ∧
    (chunks_generated_this_frame s' < max_chunks_per_frame s →
     ∀ p, is_Some (chunks w' !! p) ↔ in_range p = true).
Proof.
  intros Hw Hb Hmax center in_range. unfold _process.
  set (s0 := {| terrain_generator := terrain_generator s;
                mesh_builder := mesh_builder s;
                thread_pool := thread_pool s;
                use_threading := use_threading s;
                max_chunks_per_frame := max_chunks_per_frame s;
                chunks_generated_this_frame := 0 |}).
  set (w0 := update_player_position w player).
  assert (world_consistent w0 ∧ chunks w0 = chunks w ∧
          render_distance w0 = render_distance w ∧
          vertical_render_distance w0 = vertical_render_distance w)
    as (Hw0 & Hc0 & Hr0 & Hv0).
  { unfold w0, update_player_position. destruct player; [|done].
    split; [|done]. destruct Hw as (Hdom & Hst & Hperm). done. }
  destruct (load_chunks_spec get_noise_2d generation_task
              (load_candidates (last_player_chunk w0) (render_distance w0)
                 (vertical_render_distance w0)) w0 s0 Hw0 Hb)
    as (w1 & s1 & Hload & Hw1 & Hb1 & Hl1 & Hr1 & Hv1 & _ & Hmax1 & _ & Hmono
        & Hcap & _ & Hkeep & Hnew & Hall).
  unfold load_chunks_around_player. rewrite Hload. simpl.
  destruct (unload_distant_chunks_spec w1 Hw1) as (Hc2 & _ & _ & _ & Hw2).
  simpl in Hmono, Hcap, Hall.
  assert (last_player_chunk (unload_distant_chunks w1) = center) as Hcenter.
  { unfold unload_distant_chunks.
    destruct (unload_chunks_spec
                (filter (λ pos, is_chunk_in_range pos (last_player_chunk w1)
                                  (render_distance w1) (vertical_render_distance w1)
                                = false)
                   (map_to_list (chunks w1)).*1) w1)
      as (_ & _ & _ & -> & _). done. }
  exists (unload_distant_chunks w1), s1. split; [done|]. split; [done|].
  split; [done|]. split; [done|].
  assert (∀ p, is_chunk_in_range p (last_player_chunk w1) (render_distance w1)
                 (vertical_render_distance w1) = in_range p) as Hrange.
  { intros p. unfold in_range, center. fold w0. by rewrite Hl1, Hr1, Hv1, Hr0, Hv0. }
  split; [|split; [|split]].
  - intros p [c Hp]. rewrite Hc2, Hrange in Hp.
    by destruct (in_range p).
  - intros p c Hp Hin. rewrite Hc2, Hrange, Hin. apply Hkeep. by rewrite Hc0.
  - split; [lia|]. apply Hcap. simpl. lia.
  - intros Hlt p. rewrite Hc2, Hrange. split.
    + intros [c Hp]. by destruct (in_range p).
    + intros Hin. rewrite Hin. apply Hall; [done|].
      apply load_candidates_elem_of. rewrite <- Hrange in Hin.
      by rewrite Hl1, Hr1, Hv1 in Hin.
Qed.



End world_frames.
Section world_edits.

Import VoxelWorld.

Context {Task : Type}.

Variable get_noise_2d : FastNoiseLite → Z → Z → Q.
Variable generation_task : Vector3i → Chunk.t → Task.

Implicit Types (w : VoxelWorld.t) (s : systems Task) (pos : Vector3i).

(** X23: on the threaded path the answer of [submit_job] is dropped.
    When the pool refuses the job (it is stopping, or its queue is
    full), [generate_chunk_async] still enters the chunk into the table,
    empty and in state [GENERATING], and queues nothing; and
    no later walk of [load_chunks_around_player] generates it, since the
    position counts as loaded. *)
Theorem generate_chunk_async_job_refused w s pos pool :
  world_consistent w → mask_allocated (mesh_builder s) →
  use_threading s = true → thread_pool s = Some pool →
  ThreadPool.should_stop pool = true
  ∨ ThreadPool.max_pending_jobs pool ≤ ThreadPool.pending_jobs pool →
  ∃ w' s',
    generate_chunk_async get_noise_2d generation_task w s pos = Some (w', s') ∧
    thread_pool s' = Some pool ∧
    terrain_generator s' = terrain_generator s ∧
    chunk_mesh_instances w' = chunk_mesh_instances w ∧
    chunks w' !! pos
    = Some (Chunk.set_state
              (Chunk.initialize Chunk.new pos (get_chunk_height_for_y (v3i_y pos)))
              GENERATING) ∧
    ∀ candidates s2, mask_allocated (mesh_builder s2) →
      ∃ w'' s'',
        load_chunks get_noise_2d generation_task candidates w' s2 = Some (w'', s'') ∧
        chunks w'' !! pos = chunks w' !! pos.
Proof.
  intros Hw Hb Hut Hpool Hfull.
  destruct (generate_chunk_async_spec get_noise_2d generation_task w s pos Hw Hb)
    as (w' & s' & c & vd & Hgen & Hw' & _).
  exists w', s'. split; [done|].
  assert (ThreadPool.submit_job pool GENERATE_TERRAIN
            (generation_task pos
               (Chunk.set_state
                  (Chunk.initialize Chunk.new pos
                     (get_chunk_height_for_y (v3i_y pos))) GENERATING)) 0
          = (false, pool)) as Hsubmit.
  { unfold ThreadPool.submit_job. destruct Hfull as [->|Hfull]; [done|].
    destruct (ThreadPool.should_stop pool); [done|].
    rewrite Z.geb_leb. by rewrite (proj2 (Z.leb_le _ _) Hfull). }
  unfold generate_chunk_async in Hgen. rewrite Hut, Hpool, Hsubmit in Hgen.
  injection Hgen as <- <-. simpl.
  split; [done|]. split; [done|]. split; [done|].
  split; [apply lookup_insert_eq|].
  intros candidates s2 Hb2.
  destruct (load_chunks_spec get_noise_2d generation_task candidates _ s2 Hw' Hb2)
    as (w'' & s'' & Hload & _ & _ & _ & _ & _ & _ & _ & _ & _ & _ & _ & Hkeep & _).
  exists w'', s''. split; [done|].
  simpl in Hkeep. rewrite lookup_insert_eq. apply Hkeep. apply lookup_insert_eq.
Qed.

(** The parts of an edit: the chunk found, its storage, and the local
    coordinates. *)
Lemma set_voxel_at_chunk w s world_pos type chunk vd :
  world_consistent w → mask_allocated (mesh_builder s) →
  chunks w !! world_to_chunk_pos world_pos = Some chunk →
  Chunk.voxel_data chunk = Some vd →
  let lx := Z.rem (Qtrunc (v3_x world_pos)) CHUNK_SIZE_XZ in
  let ly := Z.rem (Qtrunc (v3_y world_pos)) (VoxelData.chunk_size_y vd) in
  let lz := Z.rem (Qtrunc (v3_z world_pos)) CHUNK_SIZE_XZ in
  let vd' := VoxelData.set_voxel vd lx ly lz type in
  ∃ w' s' b' m chunk',
    set_voxel_at w s world_pos type = Some (w', s') ∧
    ChunkMeshBuilder.build_mesh (mesh_builder s)
      (Chunk.mark_mesh_dirty (Chunk.set_voxel chunk lx ly lz type)) = Some (b', m) ∧
    (m = None ↔
     ∀ x y z, VoxelData.in_bounds vd' x y z →
       VoxelData.get_voxel vd' x y z = Some AIR) ∧
    create_chunk_mesh_instance
      {| chunks := <[world_to_chunk_pos world_pos :=
                       Chunk.mark_mesh_dirty (Chunk.set_voxel chunk lx ly lz type)]>
                     (chunks w);
         chunk_mesh_instances := chunk_mesh_instances w;
         children := children w;
         freed := freed w;
         last_player_chunk := last_player_chunk w;
         render_distance := render_distance w;
         vertical_render_distance := vertical_render_distance w |}
      (world_to_chunk_pos world_pos) m = Some w' ∧
    VoxelData.wf vd ∧
    chunks w' !! world_to_chunk_pos world_pos = Some chunk' ∧
    Chunk.voxel_data chunk' = Some vd' ∧
    (∀ p, p ≠ world_to_chunk_pos world_pos → chunks w' !! p = chunks w !! p).
Proof.
  intros Hw Hb Hchunk Hvd lx ly lz vd'.
  pose proof Hw as (_ & Hst & _).
  destruct (Hst _ _ Hchunk) as (vd0 & Hvd0 & Hwf & Hcsy).
  rewrite Hvd in Hvd0. injection Hvd0 as <-.
  set (chunk1 := Chunk.mark_mesh_dirty (Chunk.set_voxel chunk lx ly lz type)).
  assert (Chunk.voxel_data chunk1 = Some vd') as Hvd1.
  { unfold chunk1, Chunk.set_voxel. rewrite Hvd. done. }
  pose proof (wf_set_voxel vd lx ly lz type Hwf) as Hwf1.
  pose proof (set_voxel_chunk_size_y vd lx ly lz type) as Hcsy1.
  destruct (build_mesh_spec chunk1 vd' Hvd1 Hwf1 ltac:(unfold vd'; lia)
              (mesh_builder s) Hb)
    as (b' & m & Hbuild & Hb' & _ & _ & Hnull).
  destruct (create_chunk_mesh_instance_spec _ (world_to_chunk_pos world_pos) m
              (store_chunk_consistent w (world_to_chunk_pos world_pos) chunk1 vd'
                 Hw Hvd1 Hwf1 ltac:(unfold vd'; lia)))
    as (w' & Hcreate & Hw' & _ & _ & _ & Hother & _ & Hat).
  simpl in Hother, Hat.
  destruct (Hat chunk1) as (c' & Hc' & Hvd' & _); [apply lookup_insert_eq|].
  eexists w', _, b', m, c'. split.
  { unfold set_voxel_at, get_chunk_at. rewrite Hchunk, Hvd. simpl.
    fold lx ly lz chunk1. rewrite Hbuild. simpl. rewrite Hcreate. done. }
  split; [done|]. split; [done|]. split; [done|]. split; [done|].
  split; [done|]. split; [congruence|].
  intros p Hne. rewrite Hother by done. by rewrite lookup_insert_ne.
Qed.

(** X24: an edit is read back.  When the chunk of a world position is
    loaded and the position's local coordinates (the remainders of its
    truncated coordinates) fall inside the chunk, [set_voxel_at]
    followed by [get_voxel_at] at the same position gives the block
    written, and no other chunk of the table is touched. *)
Theorem set_voxel_at_read_back w s world_pos type chunk vd :
  world_consistent w → mask_allocated (mesh_builder s) →
  chunks w !! world_to_chunk_pos world_pos = Some chunk →
  Chunk.voxel_data chunk = Some vd →
  VoxelData.in_bounds vd
    (Z.rem (Qtrunc (v3_x world_pos)) CHUNK_SIZE_XZ)
    (Z.rem (Qtrunc (v3_y world_pos)) (VoxelData.chunk_size_y vd))
    (Z.rem (Qtrunc (v3_z world_pos)) CHUNK_SIZE_XZ) →
  ∃ w' s',
    set_voxel_at w s world_pos type = Some (w', s') ∧
    (get_voxel_at w' world_pos).1 = Some type ∧
    (∀ p, p ≠ world_to_chunk_pos world_pos → chunks w' !! p = chunks w !! p).
Proof.
  intros Hw Hb Hchunk Hvd Hin.
  destruct (set_voxel_at_chunk w s world_pos type chunk vd Hw Hb Hchunk Hvd)
    as (w' & s' & b' & m & c' & Hset & _ & _ & _ & Hwf & Hc' & Hvd' & Hother).
  exists w', s'. split; [done|]. split; [|done].
  unfold get_voxel_at, get_chunk_at. rewrite Hc'. simpl. rewrite Hvd'. simpl.
  unfold Chunk.get_voxel. rewrite Hvd'.
  rewrite set_voxel_chunk_size_y. by apply get_set_voxel_eq.
Qed.



End world_edits.
Lemma one_generating_chunk_consistent : world_consistent one_generating_chunk.
Proof.
  split; [|split].
  - intros pos [x Hx]. simpl in Hx. by rewrite lookup_empty in Hx.
  - intros pos chunk Hc. simpl in Hc.
    apply lookup_singleton_Some in Hc as [_ <-].
    exists (VoxelData.new 16). split; [reflexivity|].
    split; [apply wf_new|reflexivity].
  - reflexivity.
Qed.

Lemma unload_distant_chunks_spec_witness :
  world_consistent
    (VoxelWorld.update_player_position one_generating_chunk
       (Some (mkVector3 1000 0 0))) ∧
  VoxelWorld.chunks
    (VoxelWorld.unload_distant_chunks
       (VoxelWorld.update_player_position one_generating_chunk
          (Some (mkVector3 1000 0 0)))) !! (0, 0, 0) = None.
Proof.
  assert (world_consistent
            (VoxelWorld.update_player_position one_generating_chunk
               (Some (mkVector3 1000 0 0)))) as Hw.
  { destruct one_generating_chunk_consistent as (Hdom & Hst & Hperm).
    split; [exact Hdom|]. split; [exact Hst|exact Hperm]. }
  split; [exact Hw|].
  destruct (unload_distant_chunks_spec _ Hw) as (Hc & _).
  rewrite Hc. reflexivity.
Defined.

Lemma load_chunks_around_player_spec_witness :
  world_consistent one_generating_chunk ∧
  mask_allocated (VoxelWorld.mesh_builder sample_systems) ∧
  ∃ w' s',
    VoxelWorld.load_chunks_around_player flat_noise unit_task
      one_generating_chunk sample_systems = Some (w', s') ∧
    world_consistent w' ∧
    VoxelWorld.chunks_generated_this_frame s' ≤ 4.
Proof.
  assert (mask_allocated (VoxelWorld.mesh_builder sample_systems)) as Hb
    by reflexivity.
  split; [exact one_generating_chunk_consistent|]. split; [exact Hb|].
  destruct (load_chunks_around_player_spec flat_noise unit_task
              one_generating_chunk sample_systems
              one_generating_chunk_consistent Hb)
    as (w' & s' & Hload & Hw' & _ & _ & _ & _ & _ & Hcap & _).
  exists w', s'. split; [exact Hload|]. split; [exact Hw'|].
  apply Hcap. simpl. lia.
Defined.

Lemma process_frame_witness :
  world_consistent one_generating_chunk ∧
  mask_allocated (VoxelWorld.mesh_builder sample_systems) ∧
  0 ≤ VoxelWorld.max_chunks_per_frame sample_systems ∧
  ∃ w' s',
    VoxelWorld._process flat_noise unit_task one_generating_chunk sample_systems
      (Some (mkVector3 1000 0 0)) = Some (w', s') ∧
    world_consistent w' ∧
    VoxelWorld.chunks w' !! (0, 0, 0) = None.
Proof.
  assert (mask_allocated (VoxelWorld.mesh_builder sample_systems)) as Hb
    by reflexivity.
  assert (0 ≤ VoxelWorld.max_chunks_per_frame sample_systems) as Hmax
    by (simpl; lia).
  split; [exact one_generating_chunk_consistent|]. split; [exact Hb|].
  split; [exact Hmax|].
  destruct (process_frame flat_noise unit_task one_generating_chunk sample_systems
              (Some (mkVector3 1000 0 0)) one_generating_chunk_consistent Hb Hmax)
    as (w' & s' & Hp & Hw' & _ & _ & Hin & _).
  exists w', s'. split; [exact Hp|]. split; [exact Hw'|].
  destruct (VoxelWorld.chunks w' !! (0, 0, 0)) as [c|] eqn:Hc; [|reflexivity].
  specialize (Hin (0, 0, 0) ltac:(by eexists)). discriminate Hin.
Defined.


Lemma generate_chunk_async_job_refused_witness :
  world_consistent one_generating_chunk ∧
  mask_allocated (VoxelWorld.mesh_builder full_pool_systems) ∧
  ∃ w' s',
    VoxelWorld.generate_chunk_async flat_noise unit_task one_generating_chunk
      full_pool_systems (1, 0, 0) = Some (w', s') ∧
    VoxelWorld.thread_pool s'
    = Some (ThreadPool.set_max_pending_jobs ThreadPool.new 0) ∧
    VoxelWorld.chunks w' !! (1, 0, 0)
    = Some (Chunk.set_state (Chunk.initialize Chunk.new (1, 0, 0) 16) GENERATING).
Proof.
  assert (mask_allocated (VoxelWorld.mesh_builder full_pool_systems)) as Hb
    by reflexivity.
  split; [exact one_generating_chunk_consistent|]. split; [exact Hb|].
  destruct (generate_chunk_async_job_refused flat_noise unit_task
              one_generating_chunk full_pool_systems (1, 0, 0)
              (ThreadPool.set_max_pending_jobs ThreadPool.new 0)
              one_generating_chunk_consistent Hb eq_refl eq_refl)
    as (w' & s' & Hgen & Hpool & _ & _ & Hchunk & _).
  { right. simpl. lia. }
  exists w', s'. split; [exact Hgen|]. split; [exact Hpool|exact Hchunk].
Defined.

Lemma set_voxel_at_read_back_witness :
  world_consistent one_generating_chunk ∧
  mask_allocated (VoxelWorld.mesh_builder sample_systems) ∧
  ∃ w' s',
    VoxelWorld.set_voxel_at one_generating_chunk sample_systems
      (mkVector3 1 2 3) STONE = Some (w', s') ∧
    (VoxelWorld.get_voxel_at w' (mkVector3 1 2 3)).1 = Some STONE.
Proof.
  assert (mask_allocated (VoxelWorld.mesh_builder sample_systems)) as Hb
    by reflexivity.
  split; [exact one_generating_chunk_consistent|]. split; [exact Hb|].
  destruct (set_voxel_at_read_back one_generating_chunk sample_systems
              (mkVector3 1 2 3) STONE
              (Chunk.set_state (Chunk.initialize Chunk.new (0, 0, 0) 16) GENERATING)
              (VoxelData.new 16)
              one_generating_chunk_consistent Hb eq_refl eq_refl)
    as (w' & s' & Hset & Hget & _).
  { unfold VoxelData.in_bounds, CHUNK_SIZE_XZ. vm_compute. intuition discriminate. }
  exists w', s'. split; [exact Hset|exact Hget].
Defined.



(** ** ThreadPool: stopping and restarting *)

Section thread_pool_more.

Import ThreadPool.

Context {Task : Type}.

Implicit Types (p : ThreadPool.t Task) (ops : list (PoolOp Task)).

Lemma submit_job_stopped p type task priority :
  should_stop p = true → submit_job p type task priority = (false, p).
Proof. intros Hs. unfold submit_job. by rewrite Hs. Qed.

(** X27: what the owner of a pool can rely on between its calls,
    whatever it has called since the pool was constructed: the counter
    of pending jobs is the length of the queue, and a pool that is
    stopping has no thread and an empty queue. *)
Theorem pool_invariant ops :
  let p := apply_pool_ops (ThreadPool.new (Task := Task)) ops in
  pending_jobs p = Z.of_nat (length (job_queue p)) ∧
  (should_stop p = true → num_threads p = 0 ∧ job_queue p = []).
Proof.
  unfold apply_pool_ops.
  apply (foldl_invariant (λ p : ThreadPool.t Task,
           pending_jobs p = Z.of_nat (length (job_queue p)) ∧
           (should_stop p = true → num_threads p = 0 ∧ job_queue p = []))).
  { done. }
  intros p op [Hlen Hstop].
  destruct op as [type task priority|consumed|threads consumed|max]; simpl.
  - unfold submit_job. destruct (should_stop p) eqn:Hs; simpl.
    { split; [done|]. intros _. by apply Hstop. }
    destruct (pending_jobs p >=? max_pending_jobs p); simpl;
      (split; [lia|]); intros Hs'; congruence.
  - unfold shutdown. destruct (num_threads p =? 0); [done|]. done.
  - unfold initialize, shutdown.
    destruct (num_threads p >? 0) eqn:Hn; simpl; [|done].
    destruct (num_threads p =? 0) eqn:Hz; simpl; [|done].
    apply Z.eqb_eq in Hz. rewrite Hz in Hn. done.
  - done.
Qed.

(** X28: after [shutdown] of a pool that had threads the queue is empty
    and the counter of pending jobs is zero; every job submitted from
    then on is refused and leaves the pool as it is; a second
    [shutdown] does nothing; and [initialize] makes the pool take jobs
    again, with an empty queue. *)
Theorem shutdown_stops_pool p consumed :
  num_threads p ≠ 0 →
  let p' := shutdown p consumed in
  job_queue p' = [] ∧ pending_jobs p' = 0 ∧ num_threads p' = 0 ∧
  (∀ ops, (∀ op, op ∈ ops → ∃ type task priority,
                    op = OpSubmitJob type task priority) →
     apply_pool_ops p' ops = p') ∧
  (∀ type task priority, (submit_job p' type task priority).1 = false) ∧
  (∀ consumed', shutdown p' consumed' = p') ∧
  (∀ threads consumed' type task priority,
     0 < max_pending_jobs p →
     let p'' := initialize p' threads consumed' in
     job_queue p'' = [] ∧
     (submit_job p'' type task priority).1 = true ∧
     job_queue (submit_job p'' type task priority).2
     = [mkJob type task priority]).
Proof.
  intros Hn p'. unfold p', shutdown.
  rewrite (proj2 (Z.eqb_neq _ _) Hn). simpl.
  do 3 (split; [done|]). split; [|split; [|split]].
  - intros ops Hops. induction ops as [|op ops IH]; [done|].
    destruct (Hops op) as (type & task & priority & ->); [left|].
    unfold apply_pool_ops. cbn [foldl]. simpl. apply IH.
    intros op Hop. apply Hops. by right.
  - done.
  - done.
  - intros threads consumed' type task priority Hmax. simpl.
    split; [done|]. unfold submit_job. simpl.
    rewrite Z.geb_leb. rewrite (proj2 (Z.leb_gt _ _) Hmax). done.
Qed.

(** X29: a pool that was never started takes jobs all the same.  With
    no thread, [submit_job] still queues the job and answers [true] as
    long as the queue has room, [shutdown] returns without touching the
    queue, so the job stays pending, and a later [initialize] starts its
    workers on the queue as it stands. *)
Theorem unstarted_pool_keeps_jobs p type task priority consumed threads :
  num_threads p = 0 → should_stop p = false →
  pending_jobs p < max_pending_jobs p →
  let p' := (submit_job p type task priority).2 in
  (submit_job p type task priority).1 = true ∧
  job_queue p' = mkJob type task priority :: job_queue p ∧
  shutdown p' consumed = p' ∧
  job_queue (initialize p' threads consumed) = job_queue p' ∧
  pending_jobs (initialize p' threads consumed) = pending_jobs p + 1.
Proof.
  intros Hn Hs Hroom p'. unfold p', submit_job. rewrite Hs.
  rewrite Z.geb_leb. rewrite (proj2 (Z.leb_gt _ _) Hroom). simpl.
  split; [done|]. split; [done|].
  unfold initialize, shutdown. simpl. rewrite Hn. done.
Qed.

End thread_pool_more.

Lemma shutdown_stops_pool_witness :
  ThreadPool.num_threads
    (ThreadPool.submit_job (ThreadPool.initialize (ThreadPool.new (Task := unit)) 4 0)
       GENERATE_TERRAIN tt 0).2 ≠ 0 ∧
  ThreadPool.job_queue
    (ThreadPool.shutdown
       (ThreadPool.submit_job (ThreadPool.initialize (ThreadPool.new (Task := unit)) 4 0)
          GENERATE_TERRAIN tt 0).2 4) = [] ∧
  (ThreadPool.submit_job
     (ThreadPool.shutdown
        (ThreadPool.submit_job (ThreadPool.initialize (ThreadPool.new (Task := unit)) 4 0)
           GENERATE_TERRAIN tt 0).2 4) GENERATE_TERRAIN tt 0).1 = false.
Proof.
  assert (ThreadPool.num_threads
            (ThreadPool.submit_job (ThreadPool.initialize (ThreadPool.new (Task := unit)) 4 0)
               GENERATE_TERRAIN tt 0).2 ≠ 0) as Hn by (simpl; lia).
  split; [exact Hn|].
  destruct (shutdown_stops_pool _ 4 Hn) as (Hq & _ & _ & _ & Hrej & _).
  split; [exact Hq|apply Hrej].
Defined.

Lemma unstarted_pool_keeps_jobs_witness :
  ThreadPool.num_threads (ThreadPool.new (Task := unit)) = 0 ∧
  ThreadPool.should_stop (ThreadPool.new (Task := unit)) = false ∧
  ThreadPool.pending_jobs (ThreadPool.new (Task := unit))
  < ThreadPool.max_pending_jobs (ThreadPool.new (Task := unit)) ∧
  (ThreadPool.submit_job (ThreadPool.new (Task := unit)) GENERATE_TERRAIN tt 0).1 = true ∧
  ThreadPool.shutdown (ThreadPool.submit_job (ThreadPool.new (Task := unit)) GENERATE_TERRAIN tt 0).2 0
  = (ThreadPool.submit_job (ThreadPool.new (Task := unit)) GENERATE_TERRAIN tt 0).2.
Proof.
  assert (ThreadPool.pending_jobs (ThreadPool.new (Task := unit))
          < ThreadPool.max_pending_jobs (ThreadPool.new (Task := unit))) as Hroom
    by (simpl; lia).
  split; [reflexivity|]. split; [reflexivity|]. split; [exact Hroom|].
  destruct (unstarted_pool_keeps_jobs (ThreadPool.new (Task := unit))
              GENERATE_TERRAIN tt 0 0 4 eq_refl eq_refl Hroom)
    as (Hacc & _ & Hshut & _).
  split; [exact Hacc|exact Hshut].
Defined.
